(** * InkWall backend: the wallpaper ingestion pipeline

    A shallow embedding of the ingestion code of the InkWall backend
    (services/unsplash.js, services/pexels.js, services/database.js,
    jobs/fetchWallpapers.js, services/cronJobs.js and the two Mongoose
    schemas) together with the properties of the catalog it maintains,
    followed by the read side of the store and the routes that serve it
    (routes/wallpapers.js, routes/categories.js).

    JavaScript data is modelled as follows.
    - an object with a fixed shape is a record; a field that may be
      [undefined] or [null] is an [option] where the code treats the two
      alike, and a [nullable] where it does not (what is handed to a [$set]);
    - a string is a [string]; a number that the code only uses as an integer
      is a [Z] or an [N];
    - a MongoDB collection is a finite map from [_id] to document;
    - [async] functions run sequentially: a function that reads or writes the
      store, logs, or calls a provider is a computation in the monad [M]
      below, and a rejected promise / thrown error is the [Throw] result;
    - the console is the list of the lines logged so far, and every search
      request sent to a provider is recorded in the state. *)

From stdpp Require Import gmap strings list fin_maps pretty sorting.
From Stdlib Require Import ZArith Lia Ascii.

Local Open Scope Z_scope.

#[local] Set Warnings "-register-all".

(** ** JavaScript values *)

(** The values [JSON.parse] returns and [JSON.stringify] prints.  Numbers are
    integers here: no number is ever computed on in this part of the code. *)
Inductive json :=
  | JNull
  | JBool (b : bool)
  | JNum (n : Z)
  | JStr (s : string)
  | JArr (l : list json)
  | JObj (l : list (string * json)).

(** An array all of whose elements are strings. *)
Definition is_string_array (v : json) : Prop := ∃ l : list string, v = JArr (JStr <$> l).

(** Truthiness of an optional string: [undefined], [null] and the empty string
    are falsy. *)
Definition truthy (o : option string) : bool :=
  match o with
  | Some s => bool_decide (s ≠ "")
  | None => false
  end.

(** [a || b] on optional strings. *)
Definition js_or (a b : option string) : option string := if truthy a then a else b.

(** [a || 'literal'] *)
Definition js_or_lit (a : option string) (lit : string) : string :=
  match a with
  | Some s => if bool_decide (s ≠ "") then s else lit
  | None => lit
  end.

(** A property whose absence matters to the store: [undefined], [null], or a
    value.  An update leaves out the properties that are [undefined] and
    writes those that are [null]. *)
Inductive nullable (A : Type) :=
  | Undefined
  | Null
  | Def (a : A).
Arguments Undefined {A}.
Arguments Null {A}.
Arguments Def {A} _.

Definition truthy' (v : nullable string) : bool :=
  match v with
  | Def s => bool_decide (s ≠ "")
  | _ => false
  end.

(** [a || b] where the operands may be [undefined]. *)
Definition js_or' (a b : nullable string) : nullable string := if truthy' a then a else b.

(** [a || null] *)
Definition js_or_null (a : option string) : nullable string :=
  match a with
  | Some s => if bool_decide (s ≠ "") then Def s else Null
  | None => Null
  end.

(** A value that is a string or [null], as a property. *)
Definition or_null {A} (o : option A) : nullable A :=
  match o with
  | Some a => Def a
  | None => Null
  end.

(** [o?.f]: [undefined] when [o] is nullish. *)
Definition chain {A B} (o : option A) (f : A → nullable B) : nullable B :=
  match o with
  | Some a => f a
  | None => Undefined
  end.

(** ** models/Wallpaper.js and models/Category.js *)

(** A stored wallpaper document.  Its [_id] is the key under which the
    collection holds it.  The three timestamps ([fetched_at], [created_at],
    [updated_at]) are left out: no wall clock is modelled.  A field that is
    [null] or absent is [None].  [tags] holds the value that was written:
    the schema's cast to [[String]] leaves an array of strings and [null] as
    they are, and no statement below is about a document written with
    another value. *)
Record Wallpaper := {
  source : string;
  external_id : option string;
  title : option string;
  photographer : option string;
  photographer_url : option string;
  url_thumb : option string;
  url_regular : option string;
  url_full : option string;
  url_raw : option string;
  width : option Z;
  height : option Z;
  color : option string;
  blur_hash : option string;
  category : option string;
  tags : json;
  downloads : Z;
  is_featured : bool;
  is_ai_generated : bool
}.

(** [source: { enum: ['unsplash', 'pexels', 'gemini'] }] *)
Definition source_enum : list string := ["unsplash"; "pexels"; "gemini"].

(** [wallpaperSchema.index({ external_id: 1, source: 1 }, { unique: true })]:
    the key of the compound unique index.  A document without [external_id]
    is indexed under [null], here [None]. *)
Definition indexKey (d : Wallpaper) : option string * string := (external_id d, source d).

(** A stored category; its [_id] (an ObjectId, here a number) is the key of
    the collection. *)
Record Category := {
  slug : string;
  name : string;
  icon : option string;
  cat_color : option string;
  wallpaper_count : Z;
  cover_image_url : option string;
  search_query : option string
}.

(** The object a normalizer builds ("our wallpaper format").  [is_featured:
    0] and [is_ai_generated: 0] are the schema's Boolean [false].  The
    properties a normalizer copies from the provider's answer or fills with
    [null] are [nullable]: the store tells a property that is [undefined]
    from one that is [null]. *)
Record WallpaperData := {
  w_id : string;
  w_source : string;
  w_external_id : string;
  w_title : string;
  w_photographer : string;
  w_photographer_url : nullable string;
  w_url_thumb : nullable string;
  w_url_regular : nullable string;
  w_url_full : nullable string;
  w_url_raw : nullable string;
  w_width : nullable Z;
  w_height : nullable Z;
  w_color : nullable string;
  w_blur_hash : nullable string;
  w_category : nullable string;
  w_tags : json;
  w_is_featured : bool;
  w_is_ai_generated : bool
}.

Definition set_w_tags (v : json) (w : WallpaperData) : WallpaperData :=
  {| w_id := w_id w; w_source := w_source w; w_external_id := w_external_id w;
     w_title := w_title w; w_photographer := w_photographer w;
     w_photographer_url := w_photographer_url w; w_url_thumb := w_url_thumb w;
     w_url_regular := w_url_regular w; w_url_full := w_url_full w;
     w_url_raw := w_url_raw w; w_width := w_width w; w_height := w_height w;
     w_color := w_color w; w_blur_hash := w_blur_hash w;
     w_category := w_category w; w_tags := v;
     w_is_featured := w_is_featured w; w_is_ai_generated := w_is_ai_generated w |}.

(** ** What the providers send *)

Module UnsplashApi.
Record User := { user_name : option string; links_html : option string }.
Record Urls := {
  thumb : nullable string; small : nullable string; regular : nullable string;
  full : nullable string; raw : nullable string
}.
(** A tag as the provider documents it: it always carries its [title]. *)
Record Tag := { tag_title : string }.
Record Photo := {
  id : string;
  description : option string;
  alt_description : option string;
  user : option User;
  urls : option Urls;
  width : nullable Z;
  height : nullable Z;
  color : nullable string;
  blur_hash : nullable string;
  tags : option (list Tag)
}.
End UnsplashApi.

Module PexelsApi.
Record Src := {
  tiny : nullable string; small : nullable string; large : nullable string;
  medium : nullable string; large2x : nullable string; original : nullable string
}.
Record Photo := {
  id : N;
  alt : option string;
  photographer : option string;
  photographer_url : option string;
  src : option Src;
  width : nullable Z;
  height : nullable Z;
  avg_color : nullable string
}.
End PexelsApi.

(** The outcome of an HTTP GET: the promise is rejected, or it resolves to a
    body whose list of photos may be missing. *)
Inductive Response (A : Type) :=
  | Rejected (message : string)
  | Resolved (photos : option (list A)).
Arguments Rejected {A} _.
Arguments Resolved {A} _.

Inductive Provider := FromUnsplash | FromPexels.

(** A search request as it leaves the process. *)
Record Request := {
  req_provider : Provider;
  req_query : option string;
  req_page : Z;
  req_per_page : Z
}.

(** ** The runtime the code runs against

    [JSON.parse] (with [None] for a thrown SyntaxError) and [JSON.stringify]
    are built-ins, and the two search endpoints are remote: all are taken as
    given.  An endpoint is a function of the request, so the same request
    always gets the same response.  A rejection comes with a message; when
    the provider answered with an error status it also carries the body of
    that answer ([error.response.data]), given here, for each request, as
    the console prints it. *)
Class Runtime := {
  JSON_parse : string → option json;
  JSON_stringify : json → string;
  unsplash_search : option string → Z → Z → Response UnsplashApi.Photo;
  pexels_search : option string → Z → Z → Response PexelsApi.Photo;
  unsplash_search_data : option string → Z → Z → option string;
  pexels_search_data : option string → Z → Z → option string
}.

(** ** Errors, state and the monad of the asynchronous code *)

(** What is thrown: a rejected request, the duplicate-key error of the
    unique index, and [MissingId], which marks a write without an [_id], where
    the model of the store ends (see [updateOne_upsert]). *)
Inductive Error :=
  | RequestFailed (p : Provider) (msg : string)
  | DuplicateKey (_id : string)
  | MissingId.

(** [error.message] *)
Definition message (e : Error) : string :=
  match e with
  | RequestFailed _ msg => msg
  | DuplicateKey k => "E11000 duplicate key error: " +:+ k
  | MissingId => "document has no _id"
  end.

Record State := {
  wallpapers : gmap string Wallpaper;
  categories : gmap N Category;
  console : list string;
  requests : list Request
}.

Definition set_wallpapers (W : gmap string Wallpaper) (s : State) : State :=
  {| wallpapers := W; categories := categories s;
     console := console s; requests := requests s |}.
Definition set_categories (C : gmap N Category) (s : State) : State :=
  {| wallpapers := wallpapers s; categories := C;
     console := console s; requests := requests s |}.
Definition add_console (line : string) (s : State) : State :=
  {| wallpapers := wallpapers s; categories := categories s;
     console := console s ++ [line]; requests := requests s |}.
Definition add_request (r : Request) (s : State) : State :=
  {| wallpapers := wallpapers s; categories := categories s;
     console := console s; requests := requests s ++ [r] |}.

Inductive Result (A : Type) :=
  | Ok (a : A)
  | Throw (e : Error).
Arguments Ok {A} _.
Arguments Throw {A} _.

Definition M (A : Type) : Type := State → Result A * State.

#[global] Instance M_ret : MRet M := λ A a s, (Ok a, s).
#[global] Instance M_bind : MBind M := λ A B f m s,
  match m s with
  | (Ok a, s') => f a s'
  | (Throw e, s') => (Throw e, s')
  end.

Definition throw {A} (e : Error) : M A := λ s, (Throw e, s).

(** [try { m } catch (error) { handler error }] *)
Definition try_catch {A} (m : M A) (handler : Error → M A) : M A := λ s,
  match m s with
  | (Ok a, s') => (Ok a, s')
  | (Throw e, s') => handler e s'
  end.

Definition modify (f : State → State) : M unit := λ s, (Ok tt, f s).

(** [console.log] and [console.error] both append a line. *)
Definition console_log (line : string) : M unit := modify (add_console line).

(** The line break some messages start with. *)
Definition LF : string := String "010" "".

(** [for (const x of xs) { acc = body acc x }] *)
Fixpoint for_of {A B} (xs : list A) (body : B → A → M B) (acc : B) : M B :=
  match xs with
  | [] => mret acc
  | x :: xs => acc' ← body acc x; for_of xs body acc'
  end.

(** ** services/unsplash.js *)

Module Unsplash.
Section unsplash.
Context `{Runtime}.
Import UnsplashApi.

Definition normalizePhoto (photo : Photo) (category : option string) : WallpaperData :=
  {| w_id := "unsplash_" +:+ id photo;
     w_source := "unsplash";
     w_external_id := id photo;
     w_title := js_or_lit (js_or (description photo) (alt_description photo)) "Untitled";
     w_photographer := js_or_lit (user photo ≫= user_name) "Unknown";
     w_photographer_url := js_or_null (user photo ≫= links_html);
     w_url_thumb := js_or' (chain (urls photo) thumb) (chain (urls photo) small);
     w_url_regular := chain (urls photo) regular;
     w_url_full := chain (urls photo) full;
     w_url_raw := chain (urls photo) raw;
     w_width := width photo;
     w_height := height photo;
     w_color := color photo;
     w_blur_hash := blur_hash photo;
     w_category := or_null category;
     w_tags := JStr (JSON_stringify
                 (JArr (JStr <$> (tag_title <$> default [] (tags photo)))));
     w_is_featured := false;
     w_is_ai_generated := false |}.

(** [unsplashClient.get('/search/photos', { params })] *)
Definition get_search (query : option string) (page perPage : Z) : M (option (list Photo)) :=
  modify (add_request {| req_provider := FromUnsplash; req_query := query;
                         req_page := page; req_per_page := perPage |});;
  match unsplash_search query page perPage with
  | Rejected msg => throw (RequestFailed FromUnsplash msg)
  | Resolved results => mret results
  end.

Definition searchPhotos (query : option string) (category : option string)
    (page perPage : Z) : M (list WallpaperData) :=
  try_catch
    (results ← get_search query page perPage;
     let photos := default [] results in
     mret ((λ photo, normalizePhoto photo category) <$> photos))
    (λ error,
       console_log ("❌ Unsplash search error: " +:+
                    js_or_lit (unsplash_search_data query page perPage) (message error));;
       throw error).
End unsplash.
End Unsplash.

(** ** services/pexels.js *)

Module Pexels.
Section pexels.
Context `{Runtime}.
Import PexelsApi.

(** [String(photo.id)] and the template [`pexels_${photo.id}`] print the same
    decimal numeral. *)
Definition normalizePhoto (photo : Photo) (category : option string) : WallpaperData :=
  {| w_id := "pexels_" +:+ pretty (id photo);
     w_source := "pexels";
     w_external_id := pretty (id photo);
     w_title := js_or_lit (alt photo) "Untitled";
     w_photographer := js_or_lit (photographer photo) "Unknown";
     w_photographer_url := js_or_null (photographer_url photo);
     w_url_thumb := js_or' (chain (src photo) tiny) (chain (src photo) small);
     w_url_regular := js_or' (chain (src photo) large) (chain (src photo) medium);
     w_url_full := js_or' (chain (src photo) large2x) (chain (src photo) original);
     w_url_raw := chain (src photo) original;
     w_width := width photo;
     w_height := height photo;
     w_color := avg_color photo;
     w_blur_hash := Null;
     w_category := or_null category;
     w_tags := JStr (JSON_stringify (JArr []));
     w_is_featured := false;
     w_is_ai_generated := false |}.

(** [pexelsClient.get('/search', { params })] *)
Definition get_search (query : option string) (page perPage : Z) : M (option (list Photo)) :=
  modify (add_request {| req_provider := FromPexels; req_query := query;
                         req_page := page; req_per_page := perPage |});;
  match pexels_search query page perPage with
  | Rejected msg => throw (RequestFailed FromPexels msg)
  | Resolved photos => mret photos
  end.

Definition searchPhotos (query : option string) (category : option string)
    (page perPage : Z) : M (list WallpaperData) :=
  try_catch
    (results ← get_search query page perPage;
     let photos := default [] results in
     mret ((λ photo, normalizePhoto photo category) <$> photos))
    (λ error,
       console_log ("❌ Pexels search error: " +:+
                    js_or_lit (pexels_search_data query page perPage) (message error));;
       throw error).
End pexels.
End Pexels.

(** ** services/database.js *)

Module Database.
Section database.
Context `{Runtime}.

(** *** The store operations the service calls

    A collection is a finite map from [_id] to document, so [_id] is unique
    by construction.  The unique compound index of the wallpaper schema is
    enforced on every write: a write that would leave two documents with the
    same [indexKey] is rejected with a duplicate-key error. *)

(** [Wallpaper.countDocuments(filter)] *)
Definition countDocuments (P : Wallpaper → Prop) `{!∀ d, Decision (P d)}
    (W : gmap string Wallpaper) : Z :=
  Z.of_nat (size (filter (λ kd, P kd.2) W)).

(** [{ external_id: externalId, source: source }] *)
Definition matchesExternal (externalId src : string) (d : Wallpaper) : Prop :=
  external_id d = Some externalId ∧ source d = src.

(** [{ category: slug }] *)
Definition inCategory (slug : string) (d : Wallpaper) : Prop :=
  category d = Some slug.

#[global] Instance matchesExternal_dec e s d : Decision (matchesExternal e s d).
Proof. unfold matchesExternal. apply _. Defined.
#[global] Instance inCategory_dec c d : Decision (inCategory c d).
Proof. unfold inCategory. apply _. Defined.

(** What a [$set] leaves in one field: a property that is [undefined] is
    not part of the update, so the field keeps what is stored (nothing when
    the upsert inserts); [null] and a value are written. *)
Definition written {A} (v : nullable A) (stored : option A) : option A :=
  match v with
  | Undefined => stored
  | Null => None
  | Def a => Some a
  end.

(** The document an update [{ $set: doc }] leaves behind.  [downloads] is
    not among the properties of [doc], so it keeps its stored value, or
    takes the schema default [0] when the upsert inserts. *)
Definition applySet (doc : WallpaperData) (old : option Wallpaper) : Wallpaper :=
  {| source := w_source doc;
     external_id := Some (w_external_id doc);
     title := Some (w_title doc);
     photographer := Some (w_photographer doc);
     photographer_url := written (w_photographer_url doc) (old ≫= photographer_url);
     url_thumb := written (w_url_thumb doc) (old ≫= url_thumb);
     url_regular := written (w_url_regular doc) (old ≫= url_regular);
     url_full := written (w_url_full doc) (old ≫= url_full);
     url_raw := written (w_url_raw doc) (old ≫= url_raw);
     width := written (w_width doc) (old ≫= width);
     height := written (w_height doc) (old ≫= height);
     color := written (w_color doc) (old ≫= color);
     blur_hash := written (w_blur_hash doc) (old ≫= blur_hash);
     category := written (w_category doc) (old ≫= category);
     tags := w_tags doc;
     downloads := match old with Some d => downloads d | None => 0 end;
     is_featured := w_is_featured doc;
     is_ai_generated := w_is_ai_generated doc |}.

(** Another document already holds the index key of [d]. *)
Definition violatesIndex (k : string) (d : Wallpaper) (W : gmap string Wallpaper) : Prop :=
  map_Exists (λ k' d', k' ≠ k ∧ indexKey d' = indexKey d) W.

(** [{ updateOne: { filter: { _id }, update: { $set: doc }, upsert: true } }]
    and [findOneAndUpdate({ _id }, doc, { upsert: true, ... })].

    The collection above holds the documents whose [_id] is a string.  An
    operation whose [_id] is [undefined] is sent with the filter
    [{ _id: null }] and MongoDB stores its document under [_id: null], which
    has no place in this collection: the model stops at such an operation
    ([MissingId]) instead of following it, and every statement below about a
    write is about records that carry an id, as all the records of the
    normalizers do. *)
Definition updateOne_upsert (op : option string * WallpaperData)
    (W : gmap string Wallpaper) : Error + gmap string Wallpaper :=
  match op.1 with
  | None => inl MissingId
  | Some k =>
      let d := applySet op.2 (W !! k) in
      if decide (violatesIndex k d W) then inl (DuplicateKey k)
      else inr (<[k:=d]> W)
  end.

(** [Wallpaper.bulkWrite(ops)], ordered: the operations are applied one
    after the other and the first error stops the batch. *)
Fixpoint bulkWrite (ops : list (option string * WallpaperData))
    (W : gmap string Wallpaper) : option Error * gmap string Wallpaper :=
  match ops with
  | [] => (None, W)
  | op :: ops =>
      match updateOne_upsert op W with
      | inl e => (Some e, W)
      | inr W' => bulkWrite ops W'
      end
  end.

Definition Wallpaper_bulkWrite (ops : list (option string * WallpaperData)) : M unit := λ s,
  let '(r, W) := bulkWrite ops (wallpapers s) in
  (match r with None => Ok tt | Some e => Throw e end, set_wallpapers W s).

(** With [{ new: true }] the call returns the document as the update left
    it. *)
Definition Wallpaper_findOneAndUpdate (op : option string * WallpaperData) : M Wallpaper := λ s,
  match updateOne_upsert op (wallpapers s) with
  | inl e => (Throw e, s)
  | inr W =>
      match op.1 ≫= (W !!.) with
      | Some d => (Ok d, set_wallpapers W s)
      | None => (Throw MissingId, s)
      end
  end.

Definition Wallpaper_countDocuments (P : Wallpaper → Prop) `{!∀ d, Decision (P d)} : M Z :=
  λ s, (Ok (countDocuments P (wallpapers s)), s).

(** [Category.find()] *)
Definition Category_find : M (list (N * Category)) :=
  λ s, (Ok (map_to_list (categories s)), s).

Definition set_wallpaper_count (count : Z) (c : Category) : Category :=
  {| slug := slug c; name := name c; icon := icon c; cat_color := cat_color c;
     wallpaper_count := count; cover_image_url := cover_image_url c;
     search_query := search_query c |}.

(** [Category.updateOne({ _id }, { wallpaper_count: count })] *)
Definition Category_updateOne (_id : N) (count : Z) : M unit :=
  modify (λ s, set_categories (alter (set_wallpaper_count count) _id (categories s)) s).

(** *** The exported functions *)

(** [.sort({ name: 1 })] *)
Definition byName (c1 c2 : N * Category) : Prop := (name c1.2 ≤ name c2.2)%string.

#[global] Instance byName_dec : RelDecision byName.
Proof. intros c1 c2. unfold byName. apply _. Defined.

(** [Category.find().sort({ name: 1 }).lean()] *)
Definition getCategories : M (list (N * Category)) :=
  λ s, (Ok (merge_sort byName (map_to_list (categories s))), s).

(** The [try { JSON.parse } catch { [] }] applied to a [tags] that is a
    string. *)
Definition fixTags (tags : json) : json :=
  match tags with
  | JStr s =>
      match JSON_parse s with
      | Some v => v
      | None => JArr []
      end
  | v => v
  end.

(** The "fix ID mapping" and "fix tags" steps: an [id] that is truthy
    becomes the [_id]; the objects handled here carry no [_id] of their
    own. *)
Definition toDoc (w : WallpaperData) : option string * WallpaperData :=
  (if bool_decide (w_id w ≠ "") then Some (w_id w) else None,
   set_w_tags (fixTags (w_tags w)) w).

Definition insertWallpaper (wallpaperData : WallpaperData) : M Wallpaper :=
  Wallpaper_findOneAndUpdate (toDoc wallpaperData).

Definition insertWallpapers (wallpapers : list WallpaperData) : M unit :=
  let bulkOps := toDoc <$> wallpapers in
  if bool_decide (0 < length bulkOps)%nat then
    Wallpaper_bulkWrite bulkOps;;
    console_log ("✅ Inserted/Updated " +:+ pretty (length wallpapers) +:+ " wallpapers")
  else mret tt.

(** [Wallpaper.findByIdAndUpdate(id, { $inc: { downloads: 1 } })] *)
Definition incDownloads (d : Wallpaper) : Wallpaper :=
  {| source := source d; external_id := external_id d; title := title d;
     photographer := photographer d; photographer_url := photographer_url d;
     url_thumb := url_thumb d; url_regular := url_regular d;
     url_full := url_full d; url_raw := url_raw d; width := width d;
     height := height d; color := color d; blur_hash := blur_hash d;
     category := category d; tags := tags d; downloads := downloads d + 1;
     is_featured := is_featured d; is_ai_generated := is_ai_generated d |}.

Definition incrementDownloadCount (id : string) : M unit :=
  modify (λ s, set_wallpapers (alter incDownloads id (wallpapers s)) s).

Definition wallpaperExists (externalId src : string) : M bool :=
  count ← Wallpaper_countDocuments (matchesExternal externalId src);
  mret (bool_decide (0 < count)).

Definition updateCategoryCounts : M unit :=
  categories ← Category_find;
  for_of categories
    (λ _ cat,
       count ← Wallpaper_countDocuments (inCategory (slug cat.2));
       Category_updateOne cat.1 count)
    tt.
End database.
End Database.

(** ** jobs/fetchWallpapers.js *)

Module FetchWallpapers.
Section fetchWallpapers.
Context `{Runtime}.
Import Database.

(** The filter loop: [if (!exists) newWallpapers.push(w)]. *)
Definition filterNew (wallpapers : list WallpaperData) : M (list WallpaperData) :=
  for_of wallpapers
    (λ newWallpapers w,
       wallpaperExists (w_external_id w) (w_source w) ≫= λ found : bool,
       mret (if found then newWallpapers else newWallpapers ++ [w]))
    [].

(** The two nested [try]/[catch] blocks; [None] is the early [return 0]. *)
Definition fetchEither (category : Category) (perPage : Z) : M (option (list WallpaperData)) :=
  try_catch
    (wallpapers ← Unsplash.searchPhotos (search_query category) (Some (slug category)) 1 perPage;
     console_log ("  ✅ Got " +:+ pretty (length wallpapers) +:+ " from Unsplash");;
     mret (Some wallpapers))
    (λ error,
       console_log "  ⚠️ Unsplash failed, trying Pexels...";;
       try_catch
         (wallpapers ← Pexels.searchPhotos (search_query category) (Some (slug category)) 1 perPage;
          console_log ("  ✅ Got " +:+ pretty (length wallpapers) +:+ " from Pexels");;
          mret (Some wallpapers))
         (λ pexelsError,
            console_log ("  ❌ Both APIs failed for " +:+ name category);;
            mret None)).

Definition fetchCategoryWallpapers (category : Category) (perPage : Z) : M Z :=
  console_log (LF +:+ "📷 Fetching wallpapers for: " +:+ name category);;
  fetched ← fetchEither category perPage;
  match fetched with
  | None => mret 0
  | Some wallpapers =>
      newWallpapers ← filterNew wallpapers;
      (if bool_decide (0 < length newWallpapers)%nat then
         insertWallpapers newWallpapers;;
         console_log ("  💾 Saved " +:+ pretty (length newWallpapers) +:+ " new wallpapers")
       else
         console_log "  ℹ️ No new wallpapers to save");;
      mret (Z.of_nat (length newWallpapers))
  end.

(** The main job.  The one-second pause between categories has no effect on
    the state and is left out, as is the clock reading that ends the second
    log line. *)
Definition fetchAllCategoryWallpapers : M Z :=
  console_log (LF +:+ "🚀 Starting wallpaper fetch job...");;
  console_log "⏰ Time: ";;
  categories ← getCategories;
  totalNew ← for_of categories
    (λ totalNew category,
       try_catch
         (count ← fetchCategoryWallpapers category.2 20;
          mret (totalNew + count))
         (λ error,
            console_log ("❌ Error fetching " +:+ name category.2 +:+ ": " +:+ message error);;
            mret totalNew))
    0;
  updateCategoryCounts;;
  console_log (LF +:+ "✅ Fetch job complete! Added " +:+ pretty totalNew +:+ " new wallpapers.");;
  mret totalNew.
End fetchWallpapers.
End FetchWallpapers.

(** ** services/cronJobs.js: the page cursors *)

Module CronJobs.

(** [let currentPage = { unsplash: 1, pexels: 1 }] *)
Record Pages := { unsplash : Z; pexels : Z }.

Definition currentPage0 : Pages := {| unsplash := 1; pexels := 1 |}.

(** The window sizes written in [runFetchJob]. *)
Definition pexelsWindow : Z := 10.
Definition unsplashWindow : Z := 5.

(** [(page % window) + 1]; the JavaScript [%] is the truncated remainder. *)
Definition advance (window page : Z) : Z := Z.rem page window + 1.

(** The two assignments at the top of [runFetchJob]:
    [currentPage.pexels = (currentPage.pexels % 10) + 1;
     currentPage.unsplash = (currentPage.unsplash % 5) + 1;] *)
Definition incrementPages (cp : Pages) : Pages :=
  {| unsplash := advance unsplashWindow (unsplash cp);
     pexels := advance pexelsWindow (pexels cp) |}.

(** The cursor after [n] runs of the job since process start; nothing else
    in the module assigns [currentPage]. *)
Definition pagesAfter (n : nat) : Pages := Nat.iter n incrementPages currentPage0.

End CronJobs.

(** ** A reference runtime

    A concrete [JSON.stringify], a concrete reader for the JSON texts that
    are arrays of string literals, and a small scripted network.  The
    theorems below hold for every runtime; this one shows that their
    assumptions can be met and lets the examples run. *)

Module Codec.

Definition dquote : ascii := "034"%char.
Definition backslash : ascii := "092"%char.

Definition hexdigit (n : N) : ascii :=
  match n with
  | 0 => "0" | 1 => "1" | 2 => "2" | 3 => "3" | 4 => "4" | 5 => "5"
  | 6 => "6" | 7 => "7" | 8 => "8" | 9 => "9" | 10 => "a" | 11 => "b"
  | 12 => "c" | 13 => "d" | 14 => "e" | _ => "f"
  end%N%char.

Definition hexvalue (c : ascii) : option N :=
  let n := N_of_ascii c in
  if (48 <=? n)%N && (n <=? 57)%N then Some (n - 48)%N
  else if (97 <=? n)%N && (n <=? 102)%N then Some (n - 87)%N
  else if (65 <=? n)%N && (n <=? 70)%N then Some (n - 55)%N
  else None.

(** How [JSON.stringify] writes one character of a string. *)
Definition escape (c : ascii) : string :=
  let n := N_of_ascii c in
  if Ascii.eqb c dquote then String backslash (String dquote "")
  else if Ascii.eqb c backslash then String backslash (String backslash "")
  else if (n =? 8)%N then String backslash "b"
  else if (n =? 9)%N then String backslash "t"
  else if (n =? 10)%N then String backslash "n"
  else if (n =? 12)%N then String backslash "f"
  else if (n =? 13)%N then String backslash "r"
  else if (n <? 32)%N then
    String backslash
      (String "u" (String "0" (String "0"
        (String (hexdigit (n / 16)) (String (hexdigit (n mod 16)) "")))))
  else String c "".

Fixpoint quote_chars (s : string) : string :=
  match s with
  | "" => ""
  | String c s => escape c +:+ quote_chars s
  end.

Definition quote (s : string) : string :=
  String dquote (quote_chars s +:+ String dquote "").

Fixpoint join (l : list string) : string :=
  match l with
  | [] => ""
  | [x] => x
  | x :: l => x +:+ "," +:+ join l
  end.

Fixpoint stringify (v : json) : string :=
  match v with
  | JNull => "null"
  | JBool true => "true"
  | JBool false => "false"
  | JNum n => pretty n
  | JStr s => quote s
  | JArr l => "[" +:+ join (map stringify l) +:+ "]"
  | JObj l => "{" +:+ join (map (λ kv, quote kv.1 +:+ ":" +:+ stringify kv.2) l) +:+ "}"
  end.

(** The character a one-letter escape stands for. *)
Definition unescape (e : ascii) : option ascii :=
  if Ascii.eqb e dquote then Some dquote
  else if Ascii.eqb e backslash then Some backslash
  else if Ascii.eqb e "/" then Some "/"%char
  else if Ascii.eqb e "b" then Some "008"%char
  else if Ascii.eqb e "t" then Some "009"%char
  else if Ascii.eqb e "n" then Some "010"%char
  else if Ascii.eqb e "f" then Some "012"%char
  else if Ascii.eqb e "r" then Some "013"%char
  else None.

Definition hex4 (h1 h2 h3 h4 : ascii) : option ascii :=
  a ← hexvalue h1; b ← hexvalue h2; c ← hexvalue h3; d ← hexvalue h4;
  if ((a =? 0) && (b =? 0))%N then Some (ascii_of_N (c * 16 + d)) else None.

Definition prepend (c : ascii) (r : string * string) : string * string :=
  (String c r.1, r.2).

(** Reads the characters of a string literal after its opening quote:
    the decoded string and what follows the closing quote. *)
Fixpoint read_chars (s : string) : option (string * string) :=
  match s with
  | "" => None
  | String c s' =>
      if Ascii.eqb c dquote then Some ("", s')
      else if Ascii.eqb c backslash then
        match s' with
        | "" => None
        | String e s'' =>
            match unescape e with
            | Some c' => prepend c' <$> read_chars s''
            | None =>
                if Ascii.eqb e "u" then
                  match s'' with
                  | String h1 (String h2 (String h3 (String h4 s3))) =>
                      match hex4 h1 h2 h3 h4 with
                      | Some c' => prepend c' <$> read_chars s3
                      | None => None
                      end
                  | _ => None
                  end
                else None
            end
        end
      else if (N_of_ascii c <? 32)%N then None
      else prepend c <$> read_chars s'
  end.

(** Reads [lit , lit , ... lit ]] up to the end of the text. *)
Fixpoint read_elems (fuel : nat) (s : string) : option (list string) :=
  match fuel with
  | O => None
  | S fuel =>
      match s with
      | "" => None
      | String c s' =>
          if Ascii.eqb c dquote then
            match read_chars s' with
            | Some (x, String d rest) =>
                if Ascii.eqb d "]" then
                  (if String.eqb rest "" then Some [x] else None)
                else if Ascii.eqb d "," then (x ::.) <$> read_elems fuel rest
                else None
            | _ => None
            end
          else None
      end
  end.

(** A reader for arrays of string literals written without white space;
    every other text is refused. *)
Definition parse (s : string) : option json :=
  match s with
  | String "[" s' =>
      if String.eqb s' "]" then Some (JArr [])
      else (λ l, JArr (JStr <$> l)) <$> read_elems (String.length s) s'
  | _ => None
  end.

End Codec.

(** ** Vocabulary of the statements *)

Section vocabulary.
Context `{Runtime}.
Import Database.

(** Some stored document carries this [(external_id, source)] pair. *)
Definition existsIn (W : gmap string Wallpaper) (externalId src : string) : Prop :=
  map_Exists (λ _ d, matchesExternal externalId src d) W.

(** No two distinct stored documents share an [(external_id, source)] pair. *)
Definition uniqueIndex (W : gmap string Wallpaper) : Prop :=
  ∀ k1 k2 d1 d2,
    W !! k1 = Some d1 → W !! k2 = Some d2 → indexKey d1 = indexKey d2 → k1 = k2.

(** The id the data model derives from a pair: [{source}_{external_id}]. *)
Definition derivedId (src externalId : string) : string := src +:+ "_" +:+ externalId.

Definition isProvider (src : string) : Prop := src = "unsplash" ∨ src = "pexels".

(** A record a normalizer can have built: it comes from one of the two
    providers and its id is the derived one. *)
Definition normalized (w : WallpaperData) : Prop :=
  isProvider (w_source w) ∧ w_id w = derivedId (w_source w) (w_external_id w).

(** Every stored document of a provider sits under its derived id. *)
Definition providerKeyed (W : gmap string Wallpaper) : Prop :=
  ∀ k d e, W !! k = Some d → external_id d = Some e → isProvider (source d) →
           k = derivedId (source d) e.

(** The records of a batch that pass the existence check. *)
Definition newOnes (W : gmap string Wallpaper) (ws : list WallpaperData) : list WallpaperData :=
  filter (λ w, ¬ existsIn W (w_external_id w) (w_source w)) ws.

(** What the two adapters hand to [fetchCategoryWallpapers]: the primary's
    records, else the secondary's, else nothing. *)
Definition upstream (c : Category) (perPage : Z) : option (list WallpaperData) :=
  match unsplash_search (search_query c) 1 perPage with
  | Resolved results =>
      Some ((λ photo, Unsplash.normalizePhoto photo (Some (slug c))) <$> default [] results)
  | Rejected _ =>
      match pexels_search (search_query c) 1 perPage with
      | Resolved photos =>
          Some ((λ photo, Pexels.normalizePhoto photo (Some (slug c))) <$> default [] photos)
      | Rejected _ => None
      end
  end.

(** The request for page 1 of a category's query. *)
Definition searchRequest (p : Provider) (c : Category) (perPage : Z) : Request :=
  {| req_provider := p; req_query := search_query c; req_page := 1;
     req_per_page := perPage |}.

(** The catalog after [fetchCategoryWallpapers] (with the error of the
    batch write, if any), and the count it returns. *)
Definition ingest (c : Category) (perPage : Z) (W : gmap string Wallpaper) :
    option Error * gmap string Wallpaper :=
  match upstream c perPage with
  | None => (None, W)
  | Some ws => bulkWrite (toDoc <$> newOnes W ws) W
  end.

Definition countNew (c : Category) (perPage : Z) (W : gmap string Wallpaper) : Z :=
  match upstream c perPage with
  | None => 0
  | Some ws => Z.of_nat (length (newOnes W ws))
  end.

(** What one category adds to the total of the job: its count, or nothing
    when its write threw. *)
Definition contribution (c : Category) (W : gmap string Wallpaper) : Z :=
  match (ingest c 20 W).1 with
  | None => countNew c 20 W
  | Some _ => 0
  end.

(** The catalog and the total after the loop of the job over [cs]. *)
Definition cycleW (cs : list Category) (W : gmap string Wallpaper) : gmap string Wallpaper :=
  foldl (λ W c, (ingest c 20 W).2) W cs.

Fixpoint cycleTotal (cs : list Category) (W : gmap string Wallpaper) : Z :=
  match cs with
  | [] => 0
  | c :: cs => contribution c W + cycleTotal cs (ingest c 20 W).2
  end.

(** The categories in the order [getCategories] returns them. *)
Definition sortedCategories (C : gmap N Category) : list Category :=
  (merge_sort byName (map_to_list C)).*2.







(** A category with its count set to what the catalog [W] holds for it. *)
Definition recountOne (W : gmap string Wallpaper) (c : Category) : Category :=
  set_wallpaper_count (countDocuments (inCategory (slug c)) W) c.

(** The line [fetchCategoryWallpapers] logs when both adapters failed. *)
Definition bothFailedLine (c : Category) : string := "  ❌ Both APIs failed for " +:+ name c.

(** "A cycle that fetches a record whose pair is already in the catalog
    refreshes the stored title and image URLs and keeps the downloads." *)
Definition cycleRefreshesExisting : Prop :=
  ∀ (s : State) c ws w k d,
    c ∈ sortedCategories (categories s) → upstream c 20 = Some ws → w ∈ ws →
    wallpapers s !! k = Some d →
    indexKey d = (Some (w_external_id w), w_source w) →
    ∃ d', wallpapers (FetchWallpapers.fetchAllCategoryWallpapers s).2 !! k = Some d' ∧
          title d' = Some (w_title w) ∧
          (∀ url, w_url_thumb w = Def url → url_thumb d' = Some url) ∧
          (∀ url, w_url_regular w = Def url → url_regular d' = Some url) ∧
          (∀ url, w_url_full w = Def url → url_full d' = Some url) ∧
          downloads d' = downloads d.

(** The enumeration as the specification words it, and its two readings:
    every source the schema admits is one of those three, and no upsert
    changes the source of a stored record. *)
Definition claimedSources : list string := ["unsplash"; "pexels"; "generated"].

Definition sourceEnumAsClaimed : Prop :=
  ∀ src, src ∈ source_enum → src ∈ claimedSources.

Definition sourceImmutable : Prop :=
  ∀ (s : State) (w : WallpaperData) k d d',
    wallpapers s !! k = Some d →
    wallpapers (insertWallpaper w s).2 !! k = Some d' →
    source d' = source d.

(** The fallback rule in the specification's words: the first candidate
    that is present, else the literal. *)
Fixpoint firstPresent (candidates : list (option string)) (literal : string) : string :=
  match candidates with
  | [] => literal
  | Some s :: rest => if bool_decide (s = "") then firstPresent rest literal else s
  | None :: rest => firstPresent rest literal
  end.

(** The shapes of [tags] the insert path is built for: the JSON text of an
    array of strings, as the normalizers emit it; a string that does not
    parse; an array of strings. *)
Definition encodedTags (v : json) : Prop :=
  ∃ l : list string, v = JStr (JSON_stringify (JArr (JStr <$> l))).

Definition malformedTags (v : json) : Prop :=
  ∃ s, v = JStr s ∧ JSON_parse s = None.

Definition pipelineTags (v : json) : Prop :=
  encodedTags v ∨ malformedTags v ∨ is_string_array v.

(** "Every record written through [insertWallpaper] is stored with [tags]
    an array of strings." *)
Definition tagsAlwaysStringArrays : Prop :=
  ∀ (s : State) (w : WallpaperData) d s',
    w_id w ≠ "" → Database.insertWallpaper w s = (Ok d, s') →
    is_string_array (tags d).

(** The category collection after a recount against [W]. *)
Definition recount (W : gmap string Wallpaper) (C : gmap N Category) : gmap N Category :=
  recountOne W <$> C.
End vocabulary.

Module Reference.

(** A runtime with the reference codec and the given scripted endpoints.
    A rejection of unsplash comes with the body of a rate-limit answer, one
    of pexels with none (the request did not get through). *)
Definition runtime
    (us : option string → Z → Z → Response UnsplashApi.Photo)
    (ps : option string → Z → Z → Response PexelsApi.Photo) : Runtime :=
  {| JSON_parse := Codec.parse; JSON_stringify := Codec.stringify;
     unsplash_search := us; pexels_search := ps;
     unsplash_search_data := λ _ _ _, Some "Rate Limit Exceeded";
     pexels_search_data := λ _ _ _, None |}.

(** Both providers are down. *)
Definition offline : Runtime :=
  runtime (λ _ _ _, Rejected "timeout") (λ _ _ _, Rejected "timeout").

Definition emptyState : State :=
  {| wallpapers := ∅; categories := ∅; console := []; requests := [] |}.

Definition record (id src ext ttl : string) : WallpaperData :=
  {| w_id := id; w_source := src; w_external_id := ext; w_title := ttl;
     w_photographer := "Unknown"; w_photographer_url := Null;
     w_url_thumb := Def ("https://img/" +:+ ext +:+ "/thumb");
     w_url_regular := Def ("https://img/" +:+ ext +:+ "/regular");
     w_url_full := Def ("https://img/" +:+ ext +:+ "/full");
     w_url_raw := Undefined; w_width := Undefined; w_height := Undefined;
     w_color := Undefined; w_blur_hash := Null; w_category := Def "nature";
     w_tags := JArr [];
     w_is_featured := false; w_is_ai_generated := false |}.

(** A stored document with the given download count. *)
Definition stored (src ext ttl : string) (n : Z) : Wallpaper :=
  {| source := src; external_id := Some ext; title := Some ttl;
     photographer := Some "Unknown"; photographer_url := None;
     url_thumb := Some ("https://old/" +:+ ext +:+ "/thumb");
     url_regular := Some ("https://old/" +:+ ext +:+ "/regular");
     url_full := Some ("https://old/" +:+ ext +:+ "/full");
     url_raw := None; width := None; height := None; color := None;
     blur_hash := None; category := Some "nature"; tags := JArr [];
     downloads := n; is_featured := false; is_ai_generated := false |}.

Definition withWallpapers (W : gmap string Wallpaper) : State :=
  set_wallpapers W emptyState.

Definition legacyState : State :=
  withWallpapers {[ "legacy_42" := stored "unsplash" "42" "Old title" 3 ]}.

(** The same photo as the normalizer delivers it. *)
Definition refetched : WallpaperData := record "unsplash_42" "unsplash" "42" "New title".

(** Photo 42 of unsplash as the search endpoint delivers it now. *)
Definition photo42 : UnsplashApi.Photo :=
  {| UnsplashApi.id := "42";
     UnsplashApi.description := Some "New title";
     UnsplashApi.alt_description := Some "a forest";
     UnsplashApi.user := Some {| UnsplashApi.user_name := Some "Ada";
                                 UnsplashApi.links_html := None |};
     UnsplashApi.urls :=
       Some {| UnsplashApi.thumb := Def "https://new/42/thumb";
               UnsplashApi.small := Undefined;
               UnsplashApi.regular := Def "https://new/42/regular";
               UnsplashApi.full := Def "https://new/42/full";
               UnsplashApi.raw := Undefined |};
     UnsplashApi.width := Def 1080; UnsplashApi.height := Def 1920;
     UnsplashApi.color := Undefined; UnsplashApi.blur_hash := Null;
     UnsplashApi.tags := Some [ {| UnsplashApi.tag_title := "forest" |} ] |}.

Definition pexelsPhoto (n : N) (caption : string) : PexelsApi.Photo :=
  {| PexelsApi.id := n; PexelsApi.alt := Some caption;
     PexelsApi.photographer := None; PexelsApi.photographer_url := None;
     PexelsApi.src :=
       Some {| PexelsApi.tiny := Def "https://px/tiny"; PexelsApi.small := Undefined;
               PexelsApi.large := Def "https://px/large"; PexelsApi.medium := Undefined;
               PexelsApi.large2x := Def "https://px/large2x";
               PexelsApi.original := Def "https://px/original" |};
     PexelsApi.width := Undefined; PexelsApi.height := Undefined;
     PexelsApi.avg_color := Null |}.

Definition mkCategory (slug' name' query : string) : Category :=
  {| slug := slug'; name := name'; icon := None; cat_color := None;
     wallpaper_count := 0; cover_image_url := None; search_query := Some query |}.

Definition nature : Category := mkCategory "nature" "Nature" "nature landscape".
Definition abstract : Category := mkCategory "abstract" "Abstract" "abstract art".
Definition city : Category := mkCategory "city" "City & Urban" "city urban".

(** Unsplash answers every search with photo 42; pexels is down. *)
Definition unsplashHas42 : Runtime :=
  runtime (λ _ _ _, Resolved (Some [photo42])) (λ _ _ _, Rejected "timeout").

(** The catalog already holds photo 42 of unsplash, downloaded three
    times, under its derived id; there is one category. *)
Definition catalogWith42 : State :=
  {| wallpapers := {[ "unsplash_42" := stored "unsplash" "42" "Old title" 3 ]};
     categories := {[ 1%N := nature ]};
     console := []; requests := [] |}.

(** A catalog with one pexels photo and two categories, photo 42 still
    to be fetched. *)
Definition catalogWithout42 : State :=
  {| wallpapers := {[ "pexels_7" := stored "pexels" "7" "Lake" 1 ]};
     categories := {[ 1%N := nature; 2%N := city ]};
     console := []; requests := [] |}.

(** Unsplash is down; pexels answers every search with photos 7 and 8. *)
Definition unsplashDown : Runtime :=
  runtime (λ _ _ _, Rejected "503")
          (λ _ _ _, Resolved (Some [pexelsPhoto 7 "Lake"; pexelsPhoto 8 "River"])).

(** Every search for the query of [city] fails at both providers: unsplash
    answers only the query of [nature], with photo 42, and pexels only that
    of [abstract], with photos 7, 8 and 9. *)
Definition cityDown : Runtime :=
  runtime (λ q _ _, if decide (q = search_query nature) then Resolved (Some [photo42])
                    else Rejected "503")
          (λ q _ _, if decide (q = search_query abstract)
                    then Resolved (Some [pexelsPhoto 7 "Lake"; pexelsPhoto 8 "River";
                                         pexelsPhoto 9 "Dunes"])
                    else Rejected "timeout").

Definition threeCategories : State :=
  {| wallpapers := {[ "pexels_7" := stored "pexels" "7" "Lake" 1 ]};
     categories := {[ 1%N := nature; 2%N := city; 3%N := abstract ]};
     console := []; requests := [] |}.

(** A catalog with one generated picture stored under its own id. *)
Definition generatedState : State :=
  withWallpapers {[ "ai_1" := stored "gemini" "1" "Dream" 0 ]}.

(** A runtime whose [JSON.parse] also reads the text null, as the built-in
    does, and a record whose [tags] is that text. *)
Definition readsNull : Runtime :=
  {| JSON_parse := λ text, if decide (text = "null") then Some JNull else Codec.parse text;
     JSON_stringify := Codec.stringify;
     unsplash_search := λ _ _ _, Rejected "timeout";
     pexels_search := λ _ _ _, Rejected "timeout";
     unsplash_search_data := λ _ _ _, None;
     pexels_search_data := λ _ _ _, None |}.

Definition nullTagsRecord : WallpaperData :=
  set_w_tags (JStr "null") (record "pexels_9" "pexels" "9" "Dunes").


End Reference.

(** ** The other adapter functions, the featured job and the seeding *)

(** The outcome of an HTTP GET for one resource. *)
Inductive Reply (A : Type) :=
  | Refused (message : string)
  | Replied (data : A).
Arguments Refused {A} _.
Arguments Replied {A} _.

(** The remaining endpoints: the popular and curated feeds (by page and
    page size), one photo by id, and the download ping of unsplash; and,
    for the requests whose failure is logged with it, the body of the error
    answer. *)
Class Endpoints := {
  unsplash_photos : Z → Z → Response UnsplashApi.Photo;
  unsplash_photo : string → Reply UnsplashApi.Photo;
  unsplash_download : string → Reply unit;
  pexels_curated : Z → Z → Response PexelsApi.Photo;
  pexels_photo : string → Reply PexelsApi.Photo;
  unsplash_photos_data : Z → Z → option string;
  unsplash_photo_data : string → option string;
  pexels_curated_data : Z → Z → option string;
  pexels_photo_data : string → option string
}.

Definition set_w_is_featured (b : bool) (w : WallpaperData) : WallpaperData :=
  {| w_id := w_id w; w_source := w_source w; w_external_id := w_external_id w;
     w_title := w_title w; w_photographer := w_photographer w;
     w_photographer_url := w_photographer_url w; w_url_thumb := w_url_thumb w;
     w_url_regular := w_url_regular w; w_url_full := w_url_full w;
     w_url_raw := w_url_raw w; w_width := w_width w; w_height := w_height w;
     w_color := w_color w; w_blur_hash := w_blur_hash w;
     w_category := w_category w; w_tags := w_tags w;
     w_is_featured := b; w_is_ai_generated := w_is_ai_generated w |}.

Module UnsplashPhotos.
Section unsplashPhotos.
Context {rt : Runtime} {ep : Endpoints}.

(** [category || 'featured'] *)
Definition getPopularPhotos (category : option string) (page perPage : Z) :
    M (list WallpaperData) :=
  try_catch
    (match unsplash_photos page perPage with
     | Rejected msg => throw (RequestFailed FromUnsplash msg)
     | Resolved data =>
         let photos := default [] data in
         mret ((λ photo, Unsplash.normalizePhoto photo
                           (Some (js_or_lit category "featured"))) <$> photos)
     end)
    (λ error,
       console_log ("❌ Unsplash popular photos error: " +:+
                    js_or_lit (unsplash_photos_data page perPage) (message error));;
       throw error).

Definition getPhotoById (photoId : string) : M WallpaperData :=
  try_catch
    (match unsplash_photo photoId with
     | Refused msg => throw (RequestFailed FromUnsplash msg)
     | Replied data => mret (Unsplash.normalizePhoto data None)
     end)
    (λ error,
       console_log ("❌ Unsplash get photo error: " +:+
                    js_or_lit (unsplash_photo_data photoId) (message error));;
       throw error).

(** "Don't throw, just log - this is non-critical" *)
Definition trackDownload (photoId : string) : M unit :=
  try_catch
    (match unsplash_download photoId with
     | Refused msg => throw (RequestFailed FromUnsplash msg)
     | Replied _ => console_log ("📥 Tracked download for " +:+ photoId)
     end)
    (λ error, console_log ("⚠️ Failed to track download: " +:+ message error)).
End unsplashPhotos.
End UnsplashPhotos.

Module PexelsPhotos.
Section pexelsPhotos.
Context {rt : Runtime} {ep : Endpoints}.

Definition getCuratedPhotos (category : option string) (page perPage : Z) :
    M (list WallpaperData) :=
  try_catch
    (match pexels_curated page perPage with
     | Rejected msg => throw (RequestFailed FromPexels msg)
     | Resolved data =>
         let photos := default [] data in
         mret ((λ photo, Pexels.normalizePhoto photo
                           (Some (js_or_lit category "featured"))) <$> photos)
     end)
    (λ error,
       console_log ("❌ Pexels curated photos error: " +:+
                    js_or_lit (pexels_curated_data page perPage) (message error));;
       throw error).

Definition getPhotoById (photoId : string) : M WallpaperData :=
  try_catch
    (match pexels_photo photoId with
     | Refused msg => throw (RequestFailed FromPexels msg)
     | Replied data => mret (Pexels.normalizePhoto data None)
     end)
    (λ error,
       console_log ("❌ Pexels get photo error: " +:+
                    js_or_lit (pexels_photo_data photoId) (message error));;
       throw error).
End pexelsPhotos.
End PexelsPhotos.

Module FetchFeatured.
Section fetchFeatured.
Context {rt : Runtime} {ep : Endpoints}.
Import Database FetchWallpapers.

Definition fetchFeaturedWallpapers : M Z :=
  console_log (LF +:+ "⭐ Fetching featured wallpapers...");;
  try_catch
    (wallpapers ← UnsplashPhotos.getPopularPhotos (Some "featured") 1 30;
     let candidates := set_w_is_featured true <$> wallpapers in
     newWallpapers ← filterNew candidates;
     (if bool_decide (0 < length newWallpapers)%nat then
        insertWallpapers newWallpapers;;
        console_log ("💾 Saved " +:+ pretty (length newWallpapers) +:+ " featured wallpapers")
      else mret tt);;
     mret (Z.of_nat (length newWallpapers)))
    (λ error,
       console_log ("❌ Failed to fetch featured: " +:+ message error);;
       mret 0).

Definition seedDatabase : M unit :=
  console_log (LF +:+ "🌱 Seeding database with initial wallpapers..." +:+ LF);;
  fetchFeaturedWallpapers;;
  fetchAllCategoryWallpapers;;
  console_log (LF +:+ "🎉 Database seeding complete!").
End fetchFeatured.
End FetchFeatured.

(** ** services/cronJobs.js: the job and its schedule

    This module was written against synchronous store functions; the ones it
    imports are [async].  A call that is not awaited yields a promise, which
    is an object: it is truthy, and it is not iterable. *)

Module CronJob.

(** The promise of a computation that was started and not awaited. *)
Inductive Promise (A : Type) := PromiseOf (pending : M A).
Arguments PromiseOf {A} _.

(** [!p] for a promise [p]. *)
Definition not_promise {A} (p : Promise A) : bool := false.

(** A call whose promise is dropped: its effects on the store land, its
    result and its rejection, if any, go nowhere. *)
Definition detached {A} (p : Promise A) : M unit :=
  let 'PromiseOf pending := p in λ s, (Ok tt, (pending s).2).

Section fetchers.
Context {rt : Runtime}.
Import Database.

(** [wallpapers.filter(w => !wallpaperExists(w.external_id, w.source))] *)
Definition filterDuplicates (wallpapers : list WallpaperData) : list WallpaperData :=
  List.filter
    (λ w, not_promise (PromiseOf (wallpaperExists (w_external_id w) (w_source w))))
    wallpapers.

Definition fetchFromPexels (category : Category) (page : Z) : M Z :=
  try_catch
    (wallpapers ← Pexels.searchPhotos (search_query category) (Some (slug category)) page 80;
     let newWallpapers := filterDuplicates wallpapers in
     (if bool_decide (0 < length newWallpapers)%nat
      then detached (PromiseOf (insertWallpapers newWallpapers))
      else mret tt);;
     mret (Z.of_nat (length newWallpapers)))
    (λ error,
       console_log ("Pexels error for " +:+ slug category +:+ ": " +:+ message error);;
       mret 0).

Definition fetchFromUnsplash (category : Category) (page : Z) : M Z :=
  try_catch
    (wallpapers ← Unsplash.searchPhotos (search_query category) (Some (slug category)) page 30;
     let newWallpapers := filterDuplicates wallpapers in
     (if bool_decide (0 < length newWallpapers)%nat
      then detached (PromiseOf (insertWallpapers newWallpapers))
      else mret tt);;
     mret (Z.of_nat (length newWallpapers)))
    (λ error,
       console_log ("Unsplash error for " +:+ slug category +:+ ": " +:+ message error);;
       mret 0).
End fetchers.

(** The state of the process: the module variable [currentPage] beside the
    store and the console. *)
Record CronState := { currentPage : CronJobs.Pages; app : State }.

Definition set_currentPage (cp : CronJobs.Pages) (cs : CronState) : CronState :=
  {| currentPage := cp; app := app cs |}.
Definition set_app (s : State) (cs : CronState) : CronState :=
  {| currentPage := currentPage cs; app := s |}.

Inductive CronError :=
  | TypeError (msg : string)
  | Thrown (e : Error).

Definition cron_message (e : CronError) : string :=
  match e with
  | TypeError msg => msg
  | Thrown e => message e
  end.

Definition CronM (A : Type) : Type := CronState → (CronError + A) * CronState.

#[global] Instance CronM_ret : MRet CronM := λ A a cs, (inr a, cs).
#[global] Instance CronM_bind : MBind CronM := λ A B f m cs,
  match m cs with
  | (inr a, cs') => f a cs'
  | (inl e, cs') => (inl e, cs')
  end.

Definition cron_throw {A} (e : CronError) : CronM A := λ cs, (inl e, cs).

Definition cron_try {A} (m : CronM A) (handler : CronError → CronM A) : CronM A := λ cs,
  match m cs with
  | (inr a, cs') => (inr a, cs')
  | (inl e, cs') => handler e cs'
  end.

(** An awaited call of a store or adapter function. *)
Definition await {A} (m : M A) : CronM A := λ cs,
  let '(r, s) := m (app cs) in
  (match r with Ok a => inr a | Throw e => inl (Thrown e) end, set_app s cs).

Definition cron_log (line : string) : CronM unit := await (console_log line).

Definition get_pages : CronM CronJobs.Pages := λ cs, (inr (currentPage cs), cs).
Definition put_pages (cp : CronJobs.Pages) : CronM unit :=
  λ cs, (inr tt, set_currentPage cp cs).

(** [for (const x of p)] for a promise [p]: the loop asks [p] for its
    iterator, there is none, and a TypeError is thrown before the body runs. *)
Definition for_of_promise {A B} (name : string) (p : Promise (list A))
    (body : B → A → CronM B) (acc : B) : CronM B :=
  cron_throw (TypeError (name +:+ " is not iterable")).

(** ['='.repeat(50)] *)
Definition rule : string := String.concat "" (replicate 50 "=").

Section job.
Context {rt : Runtime}.
Import Database.

(** The clock reading of the second line is left out. *)
Definition runFetchJob : CronM Z :=
  cron_log (LF +:+ rule);;
  cron_log "🚀 Cron Job Started: ";;
  cron_log rule;;
  let categories := PromiseOf getCategories in
  cp ← get_pages;
  put_pages (CronJobs.incrementPages cp);;
  cp ← get_pages;
  cron_log ("📄 Pages: Pexels=" +:+ pretty (CronJobs.pexels cp)
            +:+ ", Unsplash=" +:+ pretty (CronJobs.unsplash cp));;
  totalNew ← for_of_promise "categories" categories
    (λ totalNew category,
       cron_log (LF +:+ "📷 Processing: " +:+ name category.2);;
       cp ← get_pages;
       pexelsCount ← await (fetchFromPexels category.2 (CronJobs.pexels cp));
       cron_log ("   Pexels: +" +:+ pretty pexelsCount +:+ " new");;
       cp ← get_pages;
       unsplashCount ← await (fetchFromUnsplash category.2 (CronJobs.unsplash cp));
       cron_log ("   Unsplash: +" +:+ pretty unsplashCount +:+ " new");;
       mret (totalNew + pexelsCount + unsplashCount))
    0;
  await (detached (PromiseOf updateCategoryCounts));;
  cron_log (LF +:+ rule);;
  cron_log ("✅ Cron Job Complete: Added " +:+ pretty totalNew +:+ " new wallpapers");;
  cron_log (rule +:+ LF);;
  mret totalNew.

(** The function [startCronJobs] hands to [cron.schedule]; when it runs is
    the scheduler's business. *)
Definition tick : CronM unit :=
  cron_try
    (runFetchJob;; mret tt)
    (λ error, cron_log ("❌ Cron job failed: " +:+ cron_message error)).

(** [n] ticks in a row. *)
Definition ticks (n : nat) : CronM unit :=
  Nat.iter n (λ rest, tick;; rest) (mret tt).
End job.

End CronJob.

(** ** Vocabulary for the rest of the code *)

Section more_vocabulary.
Context {rt : Runtime} {ep : Endpoints}.
Import Database.

(** The catalog after the records of a batch that pass the existence check
    have been written, with the error of the write, if any. *)
Definition writeNew (ws : list WallpaperData) (W : gmap string Wallpaper) :
    option Error * gmap string Wallpaper :=
  bulkWrite (toDoc <$> newOnes W ws) W.

(** The candidates of the featured job: the first 30 popular photos, marked
    featured; nothing when the feed fails. *)
Definition featuredFeed : option (list WallpaperData) :=
  match unsplash_photos 1 30 with
  | Resolved data =>
      Some (set_w_is_featured true <$>
              ((λ photo, Unsplash.normalizePhoto photo (Some "featured")) <$> default [] data))
  | Rejected _ => None
  end.

(** The catalog after [fetchFeaturedWallpapers]. *)
Definition featuredW (W : gmap string Wallpaper) : gmap string Wallpaper :=
  match featuredFeed with
  | Some ws => (writeNew ws W).2
  | None => W
  end.

(** The catalog after [seedDatabase]. *)
Definition seededW (C : gmap N Category) (W : gmap string Wallpaper) : gmap string Wallpaper :=
  cycleW (sortedCategories C) (featuredW W).

(** A document the featured job can have written. *)
Definition featuredDoc (d : Wallpaper) : Prop :=
  is_featured d = true ∧ category d = Some "featured" ∧ source d = "unsplash".
End more_vocabulary.

(** ** services/database.js: the read side and the category seed *)

(** What a rejected query reports. *)
Inductive QueryError :=
  | BadValue (msg : string).

(** What the server adds to a query: the [created_at] of the document under
    an [_id] (set once, when the document is inserted), and the [$sample]
    stage, which draws documents from its input for a given size, or is
    rejected. *)
Class Server := {
  created_at : string → Z;
  sample : Z → list (string * Wallpaper) → option (list (string * Wallpaper))
}.

Module DatabaseReads.

(** A document with its [_id]. *)
Definition Doc : Type := string * Wallpaper.

(** [.limit(n)]: 0 is no limit, a negative [n] is taken as [-n]. *)
Definition cursor_limit (n : Z) (l : list Doc) : list Doc :=
  if bool_decide (n = 0) then l else take (Z.abs_nat n) l.

(** [.skip(n)]: a negative [n] is rejected. *)
Definition cursor_skip (n : Z) (l : list Doc) : QueryError + list Doc :=
  if bool_decide (n < 0) then inl (BadValue "Skip value must be non-negative")
  else inr (drop (Z.to_nat n) l).

(** [if (category) query.category = category]: the filter of a listing. *)
Definition categoryQuery (wanted : option string) (d : Wallpaper) : Prop :=
  truthy wanted = true → category d = wanted.

#[global] Instance categoryQuery_dec c d : Decision (categoryQuery c d).
Proof. unfold categoryQuery. apply _. Defined.

(** [{ downloads: -1 }] *)
Definition byDownloads (x y : Doc) : Prop := downloads y.2 ≤ downloads x.2.

#[global] Instance byDownloads_dec : RelDecision byDownloads.
Proof. intros x y. unfold byDownloads. apply _. Defined.

(** [{ is_featured: true }] *)
Definition featured (d : Wallpaper) : Prop := is_featured d = true.

#[global] Instance featured_dec d : Decision (featured d).
Proof. unfold featured. apply _. Defined.

(** [{ category: category, _id: { $ne: wallpaperId } }]; a [category] that
    is [null] or [undefined] matches the documents without one. *)
Definition similarTo (wallpaperId : string) (wanted : option string) (kd : Doc) : Prop :=
  category kd.2 = wanted ∧ kd.1 ≠ wallpaperId.

#[global] Instance similarTo_dec i c kd : Decision (similarTo i c kd).
Proof. unfold similarTo. apply _. Defined.

(** [Model.find(query)]: the matching documents, in the order of the
    collection. *)
Definition find (P : Wallpaper → Prop) `{!∀ d, Decision (P d)}
    (W : gmap string Wallpaper) : list Doc :=
  filter (λ kd, P kd.2) (map_to_list W).

Section reads.
Context {rt : Runtime} {srv : Server}.
Import Database.

(** [{ created_at: -1 }] *)
Definition byNewest (x y : Doc) : Prop := created_at y.1 ≤ created_at x.1.

(** [{ downloads: -1, created_at: -1 }] *)
Definition byPopular (x y : Doc) : Prop :=
  downloads y.2 < downloads x.2 ∨
  (downloads y.2 = downloads x.2 ∧ created_at y.1 ≤ created_at x.1).

#[global] Instance byNewest_dec : RelDecision byNewest.
Proof. intros x y. unfold byNewest. apply _. Defined.
#[global] Instance byPopular_dec : RelDecision byPopular.
Proof. intros x y. unfold byPopular. apply _. Defined.

(** The [switch (sort)]: newest, else popular. *)
Definition sorted (sort : string) (l : list Doc) : list Doc :=
  if bool_decide (sort = "newest") then merge_sort byNewest l
  else merge_sort byPopular l.

(** The order a listing is sorted by. *)
Definition orderOf (sort : string) : relation Doc :=
  if bool_decide (sort = "newest") then byNewest else byPopular.

Definition getWallpapers (page limit : Z) (category : option string) (sort : string)
    (s : State) : QueryError + list Doc :=
  if bool_decide (sort = "random") then
    match sample limit (find (categoryQuery category) (wallpapers s)) with
    | Some drawn => inr drawn
    | None => inl (BadValue "$sample")
    end
  else
    let skip := (page - 1) * limit in
    match cursor_skip skip (sorted sort (find (categoryQuery category) (wallpapers s))) with
    | inl e => inl e
    | inr l => inr (cursor_limit limit l)
    end.

Definition getWallpaperCount (category : option string) : M Z :=
  Wallpaper_countDocuments (categoryQuery category).

(** [Wallpaper.findById(id).lean()]; [null] when there is none. *)
Definition getWallpaperById (id : string) : M (option Wallpaper) :=
  λ s, (Ok (wallpapers s !! id), s).

Definition getFeaturedWallpapers (limit : Z) (s : State) : list Doc :=
  cursor_limit limit (merge_sort byDownloads (find featured (wallpapers s))).

(** [Category.findOne({ slug }).lean()]: the first match in the order of the
    collection, [null] when there is none. *)
Definition getCategoryBySlug (slug' : string) : M (option Category) :=
  λ s, (Ok (snd ∘ snd <$> list_find (λ kc : N * Category, slug kc.2 = slug')
                                    (map_to_list (categories s))), s).

Definition getSimilarWallpapers (wallpaperId : string) (category : option string)
    (limit : Z) (s : State) : QueryError + list Doc :=
  match sample limit (filter (similarTo wallpaperId category) (map_to_list (wallpapers s))) with
  | Some drawn => inr drawn
  | None => inl (BadValue "$sample")
  end.

(** The defaults [initializeDatabase] seeds; [wallpaper_count] takes the
    schema default. *)
Definition defaultCategory (slug' name' icon' color' query : string) : Category :=
  {| slug := slug'; name := name'; icon := Some icon'; cat_color := Some color';
     wallpaper_count := 0; cover_image_url := None; search_query := Some query |}.

Definition defaultCategories : list Category :=
  [ defaultCategory "nature" "Nature" "🌿" "#22c55e" "nature landscape mountains forest";
    defaultCategory "wildlife" "Wildlife" "🦁" "#f59e0b" "wildlife animals lion tiger";
    defaultCategory "abstract" "Abstract" "🎨" "#8b5cf6" "abstract art patterns colorful";
    defaultCategory "anime" "Anime & Cartoons" "🧸" "#ec4899" "anime cartoon illustration art";
    defaultCategory "city" "City & Urban" "🏙️" "#6366f1" "city urban architecture skyline";
    defaultCategory "space" "Space & Galaxy" "🌌" "#1e3a8a" "space galaxy stars nebula cosmos";
    defaultCategory "minimal" "Minimal" "🌸" "#f43f5e" "minimal aesthetic simple clean";
    defaultCategory "gaming" "Gaming" "🎮" "#10b981" "gaming esports neon cyberpunk" ].

(** [Category.insertMany(docs)], ordered: each document gets a fresh [_id];
    the unique index on [slug] rejects a slug that is taken, and the first
    error stops the batch. *)
Fixpoint insertMany (docs : list Category) (C : gmap N Category) :
    option Error * gmap N Category :=
  match docs with
  | [] => (None, C)
  | c :: docs =>
      if decide (map_Exists (λ _ c', slug c' = slug c) C)
      then (Some (DuplicateKey (slug c)), C)
      else insertMany docs (<[fresh (dom C) := c]> C)
  end.

Definition Category_insertMany (docs : list Category) : M unit := λ s,
  let '(r, C) := insertMany docs (categories s) in
  (match r with None => Ok tt | Some e => Throw e end, set_categories C s).

(** [Category.countDocuments()] *)
Definition Category_countDocuments : M Z :=
  λ s, (Ok (Z.of_nat (size (categories s))), s).

Definition initializeDatabase : M unit :=
  console_log "✅ Database service initialized";;
  count ← Category_countDocuments;
  if bool_decide (count = 0) then
    console_log "⚠️ No categories found, seeding defaults...";;
    Category_insertMany defaultCategories;;
    console_log "✅ Default categories seeded"
  else mret tt.
End reads.
End DatabaseReads.

(** ** routes/wallpapers.js and routes/categories.js *)

Module Routes.

(** The status and the payload of a response. *)
Record HttpResponse (A : Type) := { status : Z; success : bool; data : option A }.
Arguments status {A} _.
Arguments success {A} _.
Arguments data {A} _.

Definition notFound {A} : HttpResponse A := {| status := 404; success := false; data := None |}.
Definition failed {A} : HttpResponse A := {| status := 500; success := false; data := None |}.
(** [res.json] answers with status 200. *)
Definition json_ok {A} (a : A) : HttpResponse A :=
  {| status := 200; success := true; data := Some a |}.

Section routes.
Context {rt : Runtime} {ep : Endpoints}.
Import Database DatabaseReads.


(** [POST /api/wallpapers/:id/download]; the payload is [downloadUrl]. *)
Definition postDownload (id : string) : M (HttpResponse (option string)) :=
  try_catch
    (wallpaper ← getWallpaperById id;
     match wallpaper with
     | None => mret notFound
     | Some wallpaper =>
         incrementDownloadCount id;;
         (if bool_decide (source wallpaper = "unsplash") && truthy (external_id wallpaper)
          then UnsplashPhotos.trackDownload (default "" (external_id wallpaper))
          else mret tt);;
         mret (json_ok (url_full wallpaper))
     end)
    (λ error,
       console_log ("Error tracking download: " +:+ message error);;
       mret failed).

(** [GET /api/categories/:slug] *)
Definition getCategory (slug' : string) : M (HttpResponse Category) :=
  try_catch
    (category ← getCategoryBySlug slug';
     match category with
     | None => mret notFound
     | Some category => mret (json_ok category)
     end)
    (λ error,
       console_log ("Error fetching category: " +:+ message error);;
       mret failed).

(** [GET /api/categories] *)
Definition getCategoryList : M (HttpResponse (list Category)) :=
  try_catch
    (categories ← getCategories;
     mret (json_ok categories.*2))
    (λ error,
       console_log ("Error fetching categories: " +:+ message error);;
       mret failed).
End routes.
End Routes.

(** ** The service as a whole *)

Module Service.

(** The entry points that write to the store: the category seed at start-up,
    the seeding, the featured job and the category job of
    jobs/fetchWallpapers.js, and the download route. *)
Inductive Action :=
  | Initialize
  | Seed
  | Featured
  | Cycle
  | Download (id : string).

Section service.
Context {rt : Runtime} {ep : Endpoints}.

Definition run (a : Action) : M unit :=
  match a with
  | Initialize => DatabaseReads.initializeDatabase
  | Seed => FetchFeatured.seedDatabase
  | Featured => FetchFeatured.fetchFeaturedWallpapers;; mret tt
  | Cycle => FetchWallpapers.fetchAllCategoryWallpapers;; mret tt
  | Download id => Routes.postDownload id;; mret tt
  end.

(** The actions one after the other, in any order and number. *)
Definition runAll (actions : list Action) : M unit :=
  for_of actions (λ _ a, run a) tt.
End service.
End Service.

(** ** Scripted endpoints for the examples *)

Module Sample.

Definition endpoints (popular : Response UnsplashApi.Photo)
    (download : string → Reply unit) : Endpoints :=
  {| unsplash_photos := λ _ _, popular;
     unsplash_photo := λ _, Refused "404";
     unsplash_download := download;
     pexels_curated := λ _ _, Rejected "timeout";
     pexels_photo := λ _, Refused "404";
     unsplash_photos_data := λ _ _, Some "Rate Limit Exceeded";
     unsplash_photo_data := λ _, Some "Not Found";
     pexels_curated_data := λ _ _, None;
     pexels_photo_data := λ _, Some "Not Found" |}.

(** The popular feed is photo 42; the download ping is refused. *)
Definition popular42 : Endpoints :=
  endpoints (Resolved (Some [Reference.photo42])) (λ _, Refused "rate limit").

(** Photo 42 as the featured job hands it to the store. *)
Definition featured42 : WallpaperData :=
  set_w_is_featured true
    (Unsplash.normalizePhoto (H:=Reference.unsplashHas42) Reference.photo42 (Some "featured")).

(** A server that stamps a document with the length of its [_id] and samples
    by taking the first documents; it rejects a size that is not positive. *)
Definition server : Server :=
  {| created_at := λ k, Z.of_nat (String.length k);
     sample := λ n l, if bool_decide (0 < n) then Some (take (Z.to_nat n) l) else None |}.

(** Two lakes and a forest, one of the lakes downloaded most. *)
Definition gallery : State :=
  {| wallpapers := {[ "pexels_7" := Reference.stored "pexels" "7" "Lake" 1;
                      "pexels_8" := Reference.stored "pexels" "8" "Lake at dawn" 5;
                      "unsplash_42" := Reference.stored "unsplash" "42" "Forest" 3 ]};
     categories := {[ 1%N := Reference.nature ]};
     console := []; requests := [] |}.

End Sample.

(** ** Properties *)

Section cursor.
Import CronJobs.

Lemma advance_range window page :
  0 < window → 0 ≤ page → 1 ≤ advance window page ≤ window.
Proof.
  intros Hw Hp. unfold advance.
  rewrite Z.rem_mod_nonneg by lia.
  pose proof (Z.mod_pos_bound page window Hw). lia.
Qed.

Lemma pagesAfter_range n :
  1 ≤ unsplash (pagesAfter n) ≤ unsplashWindow ∧
  1 ≤ pexels (pagesAfter n) ≤ pexelsWindow.
Proof.
  induction n as [|n [IHu IHp]]; [by vm_compute|].
  unfold pagesAfter in *. rewrite Nat.iter_succ. cbn [incrementPages unsplash pexels].
  split; apply advance_range; unfold unsplashWindow, pexelsWindow in *; lia.
Qed.

(** C4. The cursor advance of [runFetchJob] is [(page mod window) + 1] with
    window 10 for pexels and 5 for unsplash; from page 1, a window's worth
    of advances comes back to page 1, and every page the job ever produces
    lies in [1..window]: never 0, never beyond the window. *)
Theorem cursor_advance_cycles :
  (∀ cp, pexels (incrementPages cp) = (pexels cp) `rem` 10 + 1 ∧
         unsplash (incrementPages cp) = (unsplash cp) `rem` 5 + 1) ∧
  (∀ page, 0 ≤ page → advance pexelsWindow page = page `mod` 10 + 1 ∧
                       advance unsplashWindow page = page `mod` 5 + 1) ∧
  Nat.iter 10 (advance pexelsWindow) 1 = 1 ∧
  Nat.iter 5 (advance unsplashWindow) 1 = 1 ∧
  pexels (pagesAfter 10) = 1 ∧
  unsplash (pagesAfter 5) = 1 ∧
  (∀ n, 1 ≤ pexels (pagesAfter n) ≤ 10 ∧ 1 ≤ unsplash (pagesAfter n) ≤ 5) ∧
  (∀ n, pexels (pagesAfter n) ≠ 0 ∧ unsplash (pagesAfter n) ≠ 0).
Proof.
  split_and!.
  - by intros cp.
  - intros page Hp. unfold advance, pexelsWindow, unsplashWindow.
    by rewrite !Z.rem_mod_nonneg by lia.
  - by vm_compute.
  - by vm_compute.
  - by vm_compute.
  - by vm_compute.
  - intros n. destruct (pagesAfter_range n) as [Hu Hp].
    unfold unsplashWindow, pexelsWindow in *. lia.
  - intros n. destruct (pagesAfter_range n) as [Hu Hp]. lia.
Qed.

End cursor.

(** *** The model at work *)

Example cursor_first_runs :
  (λ n, CronJobs.pexels (CronJobs.pagesAfter n)) <$> seq 0 12
    = [1; 2; 3; 4; 5; 6; 7; 8; 9; 10; 1; 2] ∧
  (λ n, CronJobs.unsplash (CronJobs.pagesAfter n)) <$> seq 0 7 = [1; 2; 3; 4; 5; 1; 2].
Proof. by vm_compute. Qed.

Example normalize_photo42 :
  let w := Unsplash.normalizePhoto (H:=Reference.offline) Reference.photo42 (Some "nature") in
  w_id w = "unsplash_42" ∧ w_title w = "New title" ∧ w_photographer w = "Ada" ∧
  w_url_thumb w = Def "https://new/42/thumb" ∧ w_url_raw w = Undefined ∧
  w_blur_hash w = Null ∧
  Codec.parse (match w_tags w with JStr t => t | _ => "" end) = Some (JArr [JStr "forest"]).
Proof. by vm_compute. Qed.

Example normalize_pexels_untitled :
  let photo := {| PexelsApi.id := 7; PexelsApi.alt := Some "";
                  PexelsApi.photographer := None; PexelsApi.photographer_url := None;
                  PexelsApi.src := None; PexelsApi.width := Undefined;
                  PexelsApi.height := Undefined; PexelsApi.avg_color := Null |} in
  let w := Pexels.normalizePhoto (H:=Reference.offline) photo None in
  w_id w = "pexels_7" ∧ w_external_id w = "7" ∧ w_title w = "Untitled" ∧
  w_photographer w = "Unknown" ∧ w_url_thumb w = Undefined ∧
  w_photographer_url w = Null.
Proof. by vm_compute. Qed.

Example first_run_adds_photo42 :
  let run := FetchWallpapers.fetchAllCategoryWallpapers (H:=Reference.unsplashHas42)
               Reference.catalogWithout42 in
  run.1 = Ok 1 ∧
  title <$> wallpapers run.2 !! "unsplash_42" = Some (Some "New title") ∧
  category <$> wallpapers run.2 !! "unsplash_42" = Some (Some "city") ∧
  downloads <$> wallpapers run.2 !! "pexels_7" = Some 1 ∧
  wallpaper_count <$> categories run.2 !! 1%N = Some 1 ∧
  wallpaper_count <$> categories run.2 !! 2%N = Some 1 ∧
  length (requests run.2) = 2%nat.
Proof. by vm_compute. Qed.

Example duplicate_pair_is_refused :
  (Database.insertWallpapers (H:=Reference.offline) [Reference.refetched]
     Reference.legacyState).1 = Throw (DuplicateKey "unsplash_42").
Proof. by vm_compute. Qed.

(** *** The monad and the store primitives *)

Ltac unfold_M :=
  unfold mbind, mret, M_bind, M_ret, try_catch, throw, console_log, modify in *.

Lemma M_bind_run {A B} (f : A → M B) (m : M A) (s : State) :
  (m ≫= f) s =
    match m s with
    | (Ok a, s') => f a s'
    | (Throw e, s') => (Throw e, s')
    end.
Proof. done. Qed.

Lemma M_ret_run {A} (a : A) (s : State) : (mret a : M A) s = (Ok a, s).
Proof. done. Qed.

Section database_facts.
Context `{Runtime}.
Import Database.

Lemma countDocuments_pos (P : Wallpaper → Prop) `{!∀ d, Decision (P d)} W :
  0 < countDocuments P W ↔ map_Exists (λ _ d, P d) W.
Proof.
  unfold countDocuments, map_Exists. split.
  - intros Hpos.
    assert (size (filter (λ kd : string * Wallpaper, P kd.2) W) ≠ 0%nat) as Hne by lia.
    apply map_size_ne_0_lookup in Hne as [k [d Hd]].
    apply map_lookup_filter_Some in Hd as [Hd HP]. eauto.
  - intros (k & d & Hd & HP).
    assert (size (filter (λ kd : string * Wallpaper, P kd.2) W) ≠ 0%nat); [|lia].
    apply map_size_ne_0_lookup. exists k, d.
    by apply map_lookup_filter_Some.
Qed.

Lemma wallpaperExists_spec e src s :
  wallpaperExists e src s = (Ok (bool_decide (existsIn (wallpapers s) e src)), s).
Proof.
  unfold wallpaperExists, Wallpaper_countDocuments. unfold_M. do 2 f_equal.
  apply bool_decide_ext, countDocuments_pos.
Qed.
End database_facts.

Section upsert_facts.
Context `{Runtime}.
Import Database.

Lemma updateOne_upsert_inr op W W' :
  updateOne_upsert op W = inr W' →
  ∃ k, op.1 = Some k ∧ ¬ violatesIndex k (applySet op.2 (W !! k)) W ∧
       W' = <[k:=applySet op.2 (W !! k)]> W.
Proof.
  unfold updateOne_upsert. destruct (op.1) as [k|]; [|done].
  case_decide; [done|]. intros [= <-]. eauto.
Qed.

Lemma updateOne_upsert_unique op W W' :
  uniqueIndex W → updateOne_upsert op W = inr W' → uniqueIndex W'.
Proof.
  intros HW (k & _ & Hfree & ->)%updateOne_upsert_inr k1 k2 d1 d2 H1 H2 Hkey.
  apply lookup_insert_Some in H1 as [[<- <-]|[Hne1 H1]];
    apply lookup_insert_Some in H2 as [[? <-]|[Hne2 H2]]; [done| | |by eauto].
  - destruct Hfree. exists k2, d2. by eauto.
  - destruct Hfree. exists k1, d1. by eauto.
Qed.

Lemma bulkWrite_unique ops W : uniqueIndex W → uniqueIndex (bulkWrite ops W).2.
Proof.
  revert W. induction ops as [|op ops IH]; intros W HW; [done|]. simpl.
  destruct (updateOne_upsert op W) as [e|W'] eqn:Hop; [done|].
  eauto using updateOne_upsert_unique.
Qed.

Lemma insertWallpapers_wallpapers ws s :
  wallpapers (insertWallpapers ws s).2 = (bulkWrite (toDoc <$> ws) (wallpapers s)).2.
Proof.
  unfold insertWallpapers, Wallpaper_bulkWrite. unfold_M.
  case_bool_decide as Hlen.
  - destruct (bulkWrite _ _) as [[e|] W]; done.
  - destruct ws; [done|]. simpl in Hlen. lia.
Qed.

Lemma insertWallpapers_categories ws s :
  categories (insertWallpapers ws s).2 = categories s.
Proof.
  unfold insertWallpapers, Wallpaper_bulkWrite. unfold_M.
  case_bool_decide; [|done]. destruct (bulkWrite _ _) as [[e|] W]; done.
Qed.

Lemma insertWallpapers_result ws s :
  (insertWallpapers ws s).1 =
    match (bulkWrite (toDoc <$> ws) (wallpapers s)).1 with
    | None => Ok tt
    | Some e => Throw e
    end.
Proof.
  unfold insertWallpapers, Wallpaper_bulkWrite. unfold_M.
  case_bool_decide as Hlen.
  - destruct (bulkWrite _ _) as [[e|] W]; done.
  - destruct ws; [done|]. simpl in Hlen. lia.
Qed.




End upsert_facts.



(** *** The adapters and the job, step by step *)

Section job_facts.
Context `{Runtime}.
Import Database FetchWallpapers.

Lemma for_of_filterNew ws acc s :
  for_of ws
    (λ newWallpapers w,
       wallpaperExists (w_external_id w) (w_source w) ≫= λ found : bool,
       mret (if found then newWallpapers else newWallpapers ++ [w]))
    acc s
  = (Ok (acc ++ newOnes (wallpapers s) ws), s).
Proof.
  revert acc. induction ws as [|w ws IH]; intros acc; simpl.
  { unfold newOnes. by rewrite app_nil_r. }
  rewrite !M_bind_run, wallpaperExists_spec, M_ret_run, IH. unfold newOnes.
  rewrite filter_cons. case_bool_decide; case_decide; try done.
  by rewrite <- app_assoc.
Qed.

Lemma filterNew_spec ws s : filterNew ws s = (Ok (newOnes (wallpapers s) ws), s).
Proof. unfold filterNew. by rewrite for_of_filterNew. Qed.

Lemma fetchEither_result c n s : (fetchEither c n s).1 = Ok (upstream c n).
Proof.
  unfold fetchEither, upstream, Unsplash.searchPhotos, Pexels.searchPhotos,
    Unsplash.get_search, Pexels.get_search.
  unfold_M. simpl.
  destruct (unsplash_search _ _ _); simpl; [|done].
  by destruct (pexels_search _ _ _).
Qed.

Lemma fetchEither_wallpapers c n s : wallpapers (fetchEither c n s).2 = wallpapers s.
Proof.
  unfold fetchEither, Unsplash.searchPhotos, Pexels.searchPhotos,
    Unsplash.get_search, Pexels.get_search.
  unfold_M. simpl.
  destruct (unsplash_search _ _ _); simpl; [|done].
  by destruct (pexels_search _ _ _).
Qed.

Lemma fetchEither_categories c n s : categories (fetchEither c n s).2 = categories s.
Proof.
  unfold fetchEither, Unsplash.searchPhotos, Pexels.searchPhotos,
    Unsplash.get_search, Pexels.get_search.
  unfold_M. simpl.
  destruct (unsplash_search _ _ _); simpl; [|done].
  by destruct (pexels_search _ _ _).
Qed.

(** The requests a category sends: the primary's, and the secondary's only
    after the primary has failed. *)
Lemma fetchEither_requests c n s :
  requests (fetchEither c n s).2 =
    requests s ++
      match unsplash_search (search_query c) 1 n with
      | Resolved _ => [searchRequest FromUnsplash c n]
      | Rejected _ => [searchRequest FromUnsplash c n; searchRequest FromPexels c n]
      end.
Proof.
  unfold fetchEither, Unsplash.searchPhotos, Pexels.searchPhotos,
    Unsplash.get_search, Pexels.get_search.
  unfold_M. simpl.
  destruct (unsplash_search _ _ _); simpl; [|done].
  destruct (pexels_search _ _ _); simpl; by rewrite <- app_assoc.
Qed.

Lemma console_log_run line s : console_log line s = (Ok tt, add_console line s).
Proof. done. Qed.

Lemma fetchEither_console c n s : console s `prefix_of` console (fetchEither c n s).2.
Proof.
  unfold fetchEither, Unsplash.searchPhotos, Pexels.searchPhotos,
    Unsplash.get_search, Pexels.get_search.
  unfold_M. simpl.
  destruct (unsplash_search _ _ _); simpl.
  - destruct (pexels_search _ _ _); simpl;
      rewrite <- !app_assoc; by apply prefix_app_r.
  - by apply prefix_app_r.
Qed.

Lemma fetchEither_console_failed c n s :
  upstream c n = None → bothFailedLine c ∈ console (fetchEither c n s).2.
Proof.
  unfold upstream, fetchEither, Unsplash.searchPhotos, Pexels.searchPhotos,
    Unsplash.get_search, Pexels.get_search.
  unfold_M. simpl.
  destruct (unsplash_search _ _ _); simpl; [|done].
  destruct (pexels_search _ _ _); simpl; [|done].
  intros _. unfold bothFailedLine. set_solver.
Qed.

Lemma insertWallpapers_console ws s :
  console s `prefix_of` console (insertWallpapers ws s).2.
Proof.
  unfold insertWallpapers, Wallpaper_bulkWrite. unfold_M.
  case_bool_decide; [|done].
  destruct (bulkWrite _ _) as [[e|] W]; simpl; [done|].
  by apply prefix_app_r.
Qed.

(** [fetchCategoryWallpapers] in terms of [ingest] and [countNew]. *)
Lemma fetchCategoryWallpapers_spec c n s :
  ∃ s',
    fetchCategoryWallpapers c n s =
      (match (ingest c n (wallpapers s)).1 with
       | None => Ok (countNew c n (wallpapers s))
       | Some e => Throw e
       end, s') ∧
    wallpapers s' = (ingest c n (wallpapers s)).2 ∧
    categories s' = categories s ∧
    console s `prefix_of` console s' ∧
    (upstream c n = None → bothFailedLine c ∈ console s').
Proof.
  unfold fetchCategoryWallpapers, ingest, countNew.
  rewrite M_bind_run, console_log_run, M_bind_run.
  set (s0 := add_console (LF +:+ "📷 Fetching wallpapers for: " +:+ name c) s).
  assert (console s `prefix_of` console s0) as Hp0 by by apply prefix_app_r.
  pose proof (fetchEither_result c n s0) as Hr.
  pose proof (fetchEither_wallpapers c n s0) as Hw.
  pose proof (fetchEither_categories c n s0) as Hc.
  pose proof (fetchEither_console c n s0) as Hp.
  pose proof (fetchEither_console_failed c n s0) as Hf.
  destruct (fetchEither c n _) as [r s1]. simpl in Hr, Hw, Hc, Hp, Hf. subst r.
  assert (console s `prefix_of` console s1) as Hp1 by by etrans.
  destruct (upstream c n) as [ws|]; [|by eauto 10].
  rewrite M_bind_run, filterNew_spec, Hw, M_bind_run.
  case_bool_decide as Hlen.
  - rewrite M_bind_run.
    pose proof (insertWallpapers_result (newOnes (wallpapers s) ws) s1) as Hir.
    pose proof (insertWallpapers_wallpapers (newOnes (wallpapers s) ws) s1) as Hiw.
    pose proof (insertWallpapers_categories (newOnes (wallpapers s) ws) s1) as Hic.
    pose proof (insertWallpapers_console (newOnes (wallpapers s) ws) s1) as Hip.
    destruct (insertWallpapers _ s1) as [r s2]. simpl in Hir, Hiw, Hic, Hip.
    rewrite Hw in Hir, Hiw. rewrite Hir.
    assert (console s `prefix_of` console s2) as Hp2 by by etrans.
    destruct (bulkWrite _ _) as [[e|] W']; simpl in *.
    + eexists. split; [done|]. split_and!; [congruence..|done|done].
    + eexists. split; [reflexivity|]. simpl.
      split_and!; [congruence..| |done]. by apply prefix_app_r.
  - destruct (newOnes (wallpapers s) ws) as [|w ws']; [|simpl in Hlen; lia].
    rewrite console_log_run, M_ret_run. simpl.
    eexists. split; [done|]. simpl. split_and!; [done..| |done].
    by apply prefix_app_r.
Qed.

(** The loop of [updateCategoryCounts]. *)
Lemma updateCategoryCounts_loop (l : list (N * Category)) s :
  NoDup l.*1 →
  (∀ k c, (k, c) ∈ l → categories s !! k = Some c) →
  ∃ s',
    for_of l
      (λ _ cat,
         count ← Wallpaper_countDocuments (inCategory (slug cat.2));
         Category_updateOne cat.1 count) tt s = (Ok tt, s') ∧
    wallpapers s' = wallpapers s ∧
    console s' = console s ∧
    ∀ k, categories s' !! k =
           if decide (k ∈ l.*1) then recountOne (wallpapers s) <$> categories s !! k
           else categories s !! k.
Proof.
  revert s. induction l as [|[k0 c0] l IH]; intros s Hnd Hl.
  { exists s. by split_and!. }
  rewrite fmap_cons in Hnd. apply NoDup_cons in Hnd as [Hk0 Hnd].
  cbn [for_of]. rewrite M_bind_run.
  unfold Wallpaper_countDocuments, Category_updateOne. rewrite M_bind_run.
  unfold modify. cbn [fst snd].
  set (s1 := set_categories _ s).
  destruct (IH s1 Hnd) as (s' & Hrun & Hw & Hcon & Hcat).
  { intros k c Hin. subst s1. simpl. rewrite lookup_alter_ne.
    - apply Hl. by right.
    - intros ->. apply Hk0. apply list_elem_of_fmap. by exists (k, c). }
  exists s'. split; [done|]. split; [done|]. split; [done|].
  intros k. rewrite Hcat. subst s1. cbn [categories wallpapers set_categories].
  rewrite fmap_cons. cbn [fst]. simpl in Hk0.
  destruct (decide (k = k0)) as [->|Hne].
  - rewrite decide_False by done. rewrite decide_True by by left.
    rewrite lookup_alter_eq, (Hl k0 c0) by by left. done.
  - rewrite lookup_alter_ne by done.
    destruct (decide (k ∈ l.*1)) as [Hin|Hnin].
    + rewrite decide_True by by right. done.
    + rewrite decide_False; [done|]. by intros [?|?]%elem_of_cons.
Qed.

Lemma updateCategoryCounts_spec s :
  ∃ s',
    updateCategoryCounts s = (Ok tt, s') ∧
    wallpapers s' = wallpapers s ∧
    console s' = console s ∧
    categories s' = recount (wallpapers s) (categories s).
Proof.
  unfold updateCategoryCounts, Category_find. rewrite M_bind_run.
  destruct (updateCategoryCounts_loop (map_to_list (categories s)) s)
    as (s' & Hrun & Hw & Hcon & Hcat).
  { apply NoDup_fst_map_to_list. }
  { intros k c Hin. by apply elem_of_map_to_list. }
  exists s'. split; [done|]. split; [done|]. split; [done|].
  apply map_eq. intros k. rewrite Hcat. unfold recount. rewrite lookup_fmap.
  case_decide as Hin; [done|].
  destruct (categories s !! k) as [c|] eqn:Hk; [|done].
  destruct Hin. apply list_elem_of_fmap. exists (k, c).
  split; [done|]. by apply elem_of_map_to_list.
Qed.

(** The loop of the job. *)
Lemma job_loop (l : list (N * Category)) acc s :
  ∃ s',
    for_of l
      (λ totalNew category,
         try_catch
           (count ← fetchCategoryWallpapers category.2 20;
            mret (totalNew + count))
           (λ error,
              console_log ("❌ Error fetching " +:+ name category.2 +:+ ": " +:+ message error);;
              mret totalNew))
      acc s = (Ok (acc + cycleTotal l.*2 (wallpapers s)), s') ∧
    wallpapers s' = cycleW l.*2 (wallpapers s) ∧
    categories s' = categories s ∧
    console s `prefix_of` console s' ∧
    (∀ c, c ∈ l.*2 → upstream c 20 = None → bothFailedLine c ∈ console s').
Proof.
  revert acc s. induction l as [|[k c] l IH]; intros acc s.
  { exists s. rewrite Z.add_0_r. split_and!; try done. intros c Hc. by apply elem_of_nil in Hc. }
  cbn [for_of]. rewrite M_bind_run. unfold try_catch at 1. rewrite M_bind_run.
  destruct (fetchCategoryWallpapers_spec c 20 s) as (s1 & Hrun & Hw & Hc & Hp & Hf).
  cbn [snd]. rewrite Hrun.
  rewrite fmap_cons. cbn [snd cycleTotal cycleW foldl]. unfold contribution.
  destruct ((ingest c 20 (wallpapers s)).1) as [e|].
  - rewrite M_bind_run, console_log_run, M_ret_run.
    set (s2 := add_console _ s1).
    destruct (IH acc s2) as (s' & Hrun' & Hw' & Hc' & Hp' & Hf').
    exists s'. rewrite Hrun'. subst s2. simpl in *. rewrite Hw in *.
    split; [by rewrite Z.add_0_l|]. split; [done|]. split; [congruence|].
    assert (console s1 `prefix_of` console s') as Hp1.
    { etrans; [|done]. by apply prefix_app_r. }
    split; [by etrans|].
    intros c' [->|Hin]%elem_of_cons Hnone; [|by eauto].
    eapply elem_of_prefix; eauto.
  - rewrite M_ret_run.
    destruct (IH (acc + countNew c 20 (wallpapers s)) s1) as (s' & Hrun' & Hw' & Hc' & Hp' & Hf').
    exists s'. rewrite Hrun'. rewrite Hw in *.
    split; [by rewrite Z.add_assoc|]. split; [done|]. split; [congruence|].
    split; [by etrans|].
    intros c' [->|Hin]%elem_of_cons Hnone; [|by eauto].
    eapply elem_of_prefix; eauto.
Qed.

(** The whole job in terms of [cycleW], [cycleTotal] and [recount]: it
    always returns, never throws. *)
Lemma fetchAllCategoryWallpapers_spec s :
  ∃ s',
    fetchAllCategoryWallpapers s =
      (Ok (cycleTotal (sortedCategories (categories s)) (wallpapers s)), s') ∧
    wallpapers s' = cycleW (sortedCategories (categories s)) (wallpapers s) ∧
    categories s' = recount (wallpapers s') (categories s) ∧
    console s `prefix_of` console s' ∧
    (∀ c, c ∈ sortedCategories (categories s) → upstream c 20 = None →
          bothFailedLine c ∈ console s').
Proof.
  unfold fetchAllCategoryWallpapers, sortedCategories.
  rewrite M_bind_run, console_log_run, M_bind_run, console_log_run, M_bind_run.
  unfold getCategories. rewrite M_bind_run.
  set (s0 := add_console "⏰ Time: "
                 (add_console (LF +:+ "🚀 Starting wallpaper fetch job...") s)).
  destruct (job_loop (merge_sort byName (map_to_list (categories s0))) 0 s0)
    as (s1 & Hrun & Hw & Hc & Hp & Hf).
  rewrite Hrun, M_bind_run.
  destruct (updateCategoryCounts_spec s1) as (s2 & Hrun2 & Hw2 & Hcon2 & Hc2).
  rewrite Hrun2, M_bind_run, console_log_run, M_ret_run.
  eexists. split; [by rewrite Z.add_0_l|]. subst s0. simpl in *.
  split; [congruence|]. split; [congruence|].
  split.
  - apply prefix_app_r. rewrite Hcon2. etrans; [|done].
    rewrite <- app_assoc. by apply prefix_app_r.
  - intros c Hin Hnone. rewrite Hcon2. apply elem_of_app. left. by apply Hf.
Qed.
End job_facts.

(** *** Records built by the normalizers *)

Section normalized_facts.
Context `{Runtime}.
Import Database.

Lemma derivedId_inj src1 e1 src2 e2 :
  isProvider src1 → isProvider src2 →
  derivedId src1 e1 = derivedId src2 e2 → src1 = src2 ∧ e1 = e2.
Proof. intros [->| ->] [->| ->]; unfold derivedId; simpl; intros [=]; auto. Qed.

Lemma derivedId_nonempty src e : isProvider src → derivedId src e ≠ "".
Proof. by intros [->| ->]. Qed.

Lemma Unsplash_normalized photo c : normalized (Unsplash.normalizePhoto photo c).
Proof. split; [by left|done]. Qed.

Lemma Pexels_normalized photo c : normalized (Pexels.normalizePhoto photo c).
Proof. split; [by right|done]. Qed.

Lemma upstream_normalized c n ws : upstream c n = Some ws → Forall normalized ws.
Proof.
  unfold upstream. intros Hup. apply Forall_forall. intros w Hw.
  destruct (unsplash_search _ _ _).
  - destruct (pexels_search _ _ _); simplify_eq.
    apply list_elem_of_fmap in Hw as (photo & -> & _). apply Pexels_normalized.
  - simplify_eq.
    apply list_elem_of_fmap in Hw as (photo & -> & _). apply Unsplash_normalized.
Qed.

Lemma newOnes_subseteq W ws : newOnes W ws ⊆ ws.
Proof. intros w. unfold newOnes. rewrite list_elem_of_filter. tauto. Qed.

Lemma toDoc_normalized w :
  normalized w → toDoc w = (Some (w_id w), set_w_tags (fixTags (w_tags w)) w).
Proof.
  intros [Hsrc Hid]. unfold toDoc. rewrite bool_decide_true; [done|].
  rewrite Hid. by apply derivedId_nonempty.
Qed.

Lemma indexKey_applySet w old :
  indexKey (applySet (toDoc w).2 old) = (Some (w_external_id w), w_source w).
Proof. done. Qed.

Lemma existsIn_alt W e src :
  existsIn W e src ↔ ∃ k d, W !! k = Some d ∧ indexKey d = (Some e, src).
Proof.
  unfold existsIn, map_Exists, matchesExternal, indexKey. split.
  - intros (k & d & Hk & He & Hs). exists k, d. by rewrite He, Hs.
  - intros (k & d & Hk & [= He Hs]). eauto.
Qed.
End normalized_facts.

(** *** What a batch write does to the catalog *)

Section batch_facts.
Context `{Runtime}.
Import Database.

Lemma bulkWrite_cons op ops W :
  bulkWrite (op :: ops) W =
    match updateOne_upsert op W with
    | inl e => (Some e, W)
    | inr W' => bulkWrite ops W'
    end.
Proof. done. Qed.

(** No write changes a downloads counter. *)
Lemma bulkWrite_downloads ops W k d :
  W !! k = Some d →
  ∃ d', (bulkWrite ops W).2 !! k = Some d' ∧ downloads d' = downloads d.
Proof.
  revert W d. induction ops as [|op ops IH]; intros W d Hk; [by eauto|].
  rewrite bulkWrite_cons.
  destruct (updateOne_upsert op W) as [e|W'] eqn:Hop; [by eauto|].
  apply updateOne_upsert_inr in Hop as (k0 & _ & _ & ->).
  destruct (decide (k0 = k)) as [->|Hne].
  - destruct (IH (<[k:=applySet op.2 (W !! k)]> W) (applySet op.2 (W !! k)))
      as (d' & Hd' & Hdl); [by rewrite lookup_insert_eq|].
    exists d'. split; [done|]. rewrite Hdl, Hk. done.
  - apply IH. by rewrite lookup_insert_ne.
Qed.

(** A document no operation of the batch addresses is left alone. *)
Lemma bulkWrite_frame ops W k :
  (∀ op, op ∈ ops → op.1 ≠ Some k) → (bulkWrite ops W).2 !! k = W !! k.
Proof.
  revert W. induction ops as [|op ops IH]; intros W Hops; [done|].
  rewrite bulkWrite_cons.
  destruct (updateOne_upsert op W) as [e|W'] eqn:Hop; [done|].
  apply updateOne_upsert_inr in Hop as (k0 & Hk0 & _ & ->).
  rewrite IH by (intros op' Hin; apply Hops; by right).
  apply lookup_insert_ne. intros ->. by apply (Hops op); [left|].
Qed.

(** A document of the result was there before or was written by an
    operation of the batch. *)
Lemma bulkWrite_provenance ops W k d :
  (bulkWrite ops W).2 !! k = Some d →
  W !! k = Some d ∨ ∃ op old, op ∈ ops ∧ op.1 = Some k ∧ d = applySet op.2 old.
Proof.
  revert W. induction ops as [|op ops IH]; intros W; [by left|].
  rewrite bulkWrite_cons.
  destruct (updateOne_upsert op W) as [e|W'] eqn:Hop; [by left|].
  apply updateOne_upsert_inr in Hop as (k0 & Hk0 & _ & ->).
  intros [Hk|(op' & old & Hin & Hk' & ->)]%IH.
  - apply lookup_insert_Some in Hk as [[<- <-]|[_ Hk]]; [|by left].
    right. exists op, (W !! k0). split; [by left|done].
  - right. exists op', old. split; [by right|done].
Qed.

(** A provider's document under its derived id keeps its pair through a
    batch of normalized records. *)
Lemma bulkWrite_keeps_pair ws W k d e src :
  Forall normalized ws → isProvider src → k = derivedId src e →
  W !! k = Some d → indexKey d = (Some e, src) →
  ∃ d', (bulkWrite (toDoc <$> ws) W).2 !! k = Some d' ∧ indexKey d' = (Some e, src).
Proof.
  intros Hws Hsrc ->. revert W d.
  induction Hws as [|w ws Hw Hws IH]; intros W d Hk Hd; [by eauto|].
  rewrite fmap_cons, bulkWrite_cons.
  destruct (updateOne_upsert (toDoc w) W) as [err|W'] eqn:Hop; [by eauto|].
  apply updateOne_upsert_inr in Hop as (k0 & Hk0 & _ & ->).
  rewrite toDoc_normalized in Hk0 by done. simpl in Hk0. simplify_eq.
  destruct (decide (w_id w = derivedId src e)) as [Heq|Hne].
  - rewrite Heq. eapply IH; [by rewrite lookup_insert_eq|].
    rewrite indexKey_applySet. destruct Hw as [Hp Hid]. rewrite Hid in Heq.
    by apply derivedId_inj in Heq as [-> ->].
  - eapply IH; [|done]. by rewrite lookup_insert_ne.
Qed.

(** A batch of normalized records none of whose pairs is held under a
    foreign id is written without error, and every record of it is in the
    catalog afterwards. *)
Lemma bulkWrite_normalized ws W :
  Forall normalized ws →
  (∀ k d w, W !! k = Some d → w ∈ ws →
            indexKey d = (Some (w_external_id w), w_source w) → k = w_id w) →
  (bulkWrite (toDoc <$> ws) W).1 = None ∧
  ∀ w, w ∈ ws →
    ∃ d, (bulkWrite (toDoc <$> ws) W).2 !! w_id w = Some d ∧
         indexKey d = (Some (w_external_id w), w_source w).
Proof.
  intros Hws. revert W. induction Hws as [|w ws Hw Hws IH]; intros W HW.
  { split; [done|]. intros w Hin. by apply elem_of_nil in Hin. }
  rewrite fmap_cons, bulkWrite_cons. unfold updateOne_upsert.
  rewrite toDoc_normalized by done. cbn [fst snd].
  rewrite decide_False; last first.
  { intros (k' & d' & Hk' & Hne & Hkey). apply Hne.
    eapply HW; [done|by left|]. by rewrite Hkey. }
  set (d := applySet _ _). set (W1 := <[w_id w:=d]> W).
  destruct (IH W1) as [Herr Hall].
  { intros k' d' w2 Hk' Hin2 Hkey.
    apply lookup_insert_Some in Hk' as [[<- <-]|[Hne Hk']].
    - change (indexKey d) with (Some (w_external_id w), w_source w) in Hkey.
      injection Hkey as He Hs.
      destruct Hw as [_ ->]. rewrite Forall_forall in Hws.
      destruct (Hws w2 Hin2) as [_ ->]. by rewrite He, Hs.
    - eapply HW; [done|by right|done]. }
  split; [done|].
  intros w2 [->|Hin2]%elem_of_cons; [|by auto].
  destruct Hw as [Hp Hid].
  apply (bulkWrite_keeps_pair ws W1 (w_id w) d); try done.
  subst W1. by rewrite lookup_insert_eq.
Qed.

Lemma bulkWrite_providerKeyed ws W :
  Forall normalized ws → providerKeyed W →
  providerKeyed (bulkWrite (toDoc <$> ws) W).2.
Proof.
  intros Hws HW k d e [Hk|(op & old & Hin & Hop & ->)]%bulkWrite_provenance He Hsrc;
    [by eauto|].
  apply list_elem_of_fmap in Hin as (w & -> & Hin).
  rewrite Forall_forall in Hws. destruct (Hws w Hin) as [Hp Hid].
  rewrite toDoc_normalized in Hop by by split.
  simpl in *. by simplify_eq.
Qed.
End batch_facts.

(** *** One category, then the whole loop, on the catalog *)

Section ingest_facts.
Context `{Runtime}.
Import Database.

Lemma newOnes_absent W ws w :
  w ∈ newOnes W ws → ¬ existsIn W (w_external_id w) (w_source w).
Proof. unfold newOnes. rewrite list_elem_of_filter. tauto. Qed.

Lemma newOnes_normalized W ws : Forall normalized ws → Forall normalized (newOnes W ws).
Proof.
  rewrite !Forall_forall. intros Hws w Hw. apply Hws. by eapply newOnes_subseteq.
Qed.

Lemma newOnes_foreign W ws k d w :
  W !! k = Some d → w ∈ newOnes W ws →
  indexKey d = (Some (w_external_id w), w_source w) → k = w_id w.
Proof.
  intros Hk Hw Hkey. apply newOnes_absent in Hw. destruct Hw.
  apply existsIn_alt. eauto.
Qed.

(** The batch a category writes never fails. *)
Lemma ingest_no_error c n W : (ingest c n W).1 = None.
Proof.
  unfold ingest. destruct (upstream c n) as [ws|] eqn:Hup; [|done].
  apply bulkWrite_normalized.
  - eauto using newOnes_normalized, upstream_normalized.
  - eauto using newOnes_foreign.
Qed.

Lemma contribution_countNew c W : contribution c W = countNew c 20 W.
Proof. unfold contribution. by rewrite ingest_no_error. Qed.

Lemma ingest_stores c n W ws w :
  upstream c n = Some ws → w ∈ newOnes W ws →
  ∃ d, (ingest c n W).2 !! w_id w = Some d ∧
       indexKey d = (Some (w_external_id w), w_source w).
Proof.
  intros Hup Hw. unfold ingest. rewrite Hup.
  apply bulkWrite_normalized; [| |done].
  - eauto using newOnes_normalized, upstream_normalized.
  - eauto using newOnes_foreign.
Qed.

Lemma ingest_provenance c n W k d :
  (ingest c n W).2 !! k = Some d →
  W !! k = Some d ∨
  ∃ ws w old, upstream c n = Some ws ∧ w ∈ newOnes W ws ∧ k = w_id w ∧
              d = applySet (toDoc w).2 old.
Proof.
  unfold ingest. destruct (upstream c n) as [ws|] eqn:Hup; [|by left].
  intros [Hk|(op & old & Hin & Hop & ->)]%bulkWrite_provenance; [by left|].
  right. apply list_elem_of_fmap in Hin as (w & -> & Hin).
  assert (normalized w) as Hw.
  { eapply Forall_forall; [|done].
    eauto using newOnes_normalized, upstream_normalized. }
  rewrite toDoc_normalized in Hop by done. simpl in Hop. simplify_eq.
  by exists ws, w, old.
Qed.

Lemma ingest_downloads c n W k d :
  W !! k = Some d →
  ∃ d', (ingest c n W).2 !! k = Some d' ∧ downloads d' = downloads d.
Proof.
  intros Hk. unfold ingest. destruct (upstream c n); [|by eauto].
  by apply bulkWrite_downloads.
Qed.

(** A provider's record stored under its derived id is not touched. *)
Lemma ingest_frame c n W k d e :
  W !! k = Some d → external_id d = Some e → isProvider (source d) →
  k = derivedId (source d) e →
  (ingest c n W).2 !! k = Some d.
Proof.
  intros Hk He Hsrc ->. unfold ingest.
  destruct (upstream c n) as [ws|] eqn:Hup; [|done].
  rewrite bulkWrite_frame; [done|].
  intros op (w & -> & Hin)%list_elem_of_fmap Hop.
  assert (normalized w) as Hw.
  { eapply Forall_forall; [|done].
    eauto using newOnes_normalized, upstream_normalized. }
  rewrite toDoc_normalized in Hop by done. simpl in Hop.
  destruct Hw as [Hp Hid]. rewrite Hid in Hop.
  injection Hop as Hop. apply derivedId_inj in Hop as [Hs Hext]; [|done..].
  apply newOnes_absent in Hin. destruct Hin.
  exists (derivedId (source d) e), d. split; [done|].
  split; [by rewrite Hext|done].
Qed.

Lemma ingest_providerKeyed c n W : providerKeyed W → providerKeyed (ingest c n W).2.
Proof.
  intros HW. unfold ingest. destruct (upstream c n) as [ws|] eqn:Hup; [|done].
  apply bulkWrite_providerKeyed; [|done].
  eauto using newOnes_normalized, upstream_normalized.
Qed.

(** In a catalog keyed by derived ids, a provider's pair that exists keeps
    existing. *)
Lemma ingest_exists_mono c n W e src :
  providerKeyed W → isProvider src →
  existsIn W e src → existsIn (ingest c n W).2 e src.
Proof.
  intros HW Hsrc (k & d & Hk & He & Hs). subst src.
  exists k, d. split; [|done].
  eapply ingest_frame; eauto.
Qed.

(** After a category has been processed, every record its adapters
    delivered is in the catalog. *)
Lemma ingest_all_exist c n W ws w :
  providerKeyed W → upstream c n = Some ws → w ∈ ws →
  existsIn (ingest c n W).2 (w_external_id w) (w_source w).
Proof.
  intros HW Hup Hw.
  assert (normalized w) as [Hp Hid].
  { eapply Forall_forall; [|done]. eauto using upstream_normalized. }
  destruct (decide (existsIn W (w_external_id w) (w_source w))) as [Hex|Hnew].
  - by apply ingest_exists_mono.
  - destruct (ingest_stores c n W ws w Hup) as (d & Hd & Hkey).
    { unfold newOnes. by apply list_elem_of_filter. }
    apply existsIn_alt. eauto.
Qed.

(** A category all of whose records are in the catalog changes nothing. *)
Lemma ingest_fixed c n W :
  (∀ ws w, upstream c n = Some ws → w ∈ ws →
           existsIn W (w_external_id w) (w_source w)) →
  ingest c n W = (None, W) ∧ countNew c n W = 0.
Proof.
  intros Hall. unfold ingest, countNew.
  destruct (upstream c n) as [ws|] eqn:Hup; [|done].
  assert (newOnes W ws = []) as ->; [|done].
  destruct (newOnes W ws) as [|w l] eqn:Hnew; [done|].
  assert (w ∈ newOnes W ws) as Hw by (rewrite Hnew; by left).
  destruct (newOnes_absent _ _ _ Hw). apply (Hall ws); [done|].
  by eapply newOnes_subseteq.
Qed.

Lemma cycleW_cons c cs W : cycleW (c :: cs) W = cycleW cs (ingest c 20 W).2.
Proof. done. Qed.

Lemma cycleW_downloads cs W k d :
  W !! k = Some d → ∃ d', cycleW cs W !! k = Some d' ∧ downloads d' = downloads d.
Proof.
  revert W d. induction cs as [|c cs IH]; intros W d Hk; [by eauto|].
  rewrite cycleW_cons.
  destruct (ingest_downloads c 20 W k d Hk) as (d1 & Hd1 & Hdl1).
  destruct (IH _ _ Hd1) as (d' & Hd' & Hdl). exists d'. split; [done|congruence].
Qed.

Lemma cycleW_frame cs W k d e :
  W !! k = Some d → external_id d = Some e → isProvider (source d) →
  k = derivedId (source d) e →
  cycleW cs W !! k = Some d.
Proof.
  revert W. induction cs as [|c cs IH]; intros W Hk He Hsrc Hid; [done|].
  rewrite cycleW_cons. apply IH; [|done..]. by eapply ingest_frame.
Qed.

Lemma cycleW_providerKeyed cs W : providerKeyed W → providerKeyed (cycleW cs W).
Proof.
  revert W. induction cs as [|c cs IH]; intros W HW; [done|].
  rewrite cycleW_cons. by apply IH, ingest_providerKeyed.
Qed.

Lemma cycleW_exists_mono cs W e src :
  providerKeyed W → isProvider src →
  existsIn W e src → existsIn (cycleW cs W) e src.
Proof.
  revert W. induction cs as [|c cs IH]; intros W HW Hsrc Hex; [done|].
  rewrite cycleW_cons. apply IH; [by apply ingest_providerKeyed|done|].
  by apply ingest_exists_mono.
Qed.

(** After the loop, every record delivered for any of its categories is in
    the catalog. *)
Lemma cycleW_all_exist cs W c ws w :
  providerKeyed W → c ∈ cs → upstream c 20 = Some ws → w ∈ ws →
  existsIn (cycleW cs W) (w_external_id w) (w_source w).
Proof.
  revert W. induction cs as [|c0 cs IH]; intros W HW Hc Hup Hw.
  { by apply elem_of_nil in Hc. }
  rewrite cycleW_cons. apply elem_of_cons in Hc as [->|Hc].
  - assert (normalized w) as [Hp _].
    { eapply Forall_forall; [|done]. eauto using upstream_normalized. }
    apply cycleW_exists_mono; [by apply ingest_providerKeyed|done|].
    by eapply ingest_all_exist.
  - apply IH; [by apply ingest_providerKeyed|done..].
Qed.

(** A loop over categories whose records are all in the catalog leaves it
    as it is and counts nothing. *)
Lemma cycle_fixed cs W :
  (∀ c ws w, c ∈ cs → upstream c 20 = Some ws → w ∈ ws →
             existsIn W (w_external_id w) (w_source w)) →
  cycleW cs W = W ∧ cycleTotal cs W = 0.
Proof.
  induction cs as [|c cs IH]; intros Hall; [done|].
  destruct (ingest_fixed c 20 W) as [Hi Hn].
  { intros ws w. apply Hall. by left. }
  rewrite cycleW_cons. cbn [cycleTotal]. rewrite contribution_countNew, Hi, Hn.
  cbn [snd]. destruct IH as [-> ->]; [|done].
  intros c' ws w Hc'. apply Hall. by right.
Qed.
End ingest_facts.

(** *** The job as a whole *)

Section cycle_facts.
Context `{Runtime}.
Import Database FetchWallpapers.

Lemma upstream_recountOne W c n : upstream (recountOne W c) n = upstream c n.
Proof. done. Qed.

Lemma recount_idemp W C : recount W (recount W C) = recount W C.
Proof.
  unfold recount. rewrite <- map_fmap_compose. apply map_fmap_ext.
  intros k c _. done.
Qed.

Lemma sortedCategories_lookup C c :
  c ∈ sortedCategories C ↔ ∃ k, C !! k = Some c.
Proof.
  unfold sortedCategories. rewrite list_elem_of_fmap. split.
  - intros ([k c'] & -> & Hin). exists k.
    rewrite merge_sort_Permutation in Hin. by apply elem_of_map_to_list.
  - intros [k Hk]. exists (k, c). split; [done|].
    rewrite merge_sort_Permutation. by apply elem_of_map_to_list.
Qed.

Lemma sortedCategories_recount W C c' :
  c' ∈ sortedCategories (recount W C) →
  ∃ c, c ∈ sortedCategories C ∧ c' = recountOne W c.
Proof.
  intros [k Hk]%sortedCategories_lookup. unfold recount in Hk.
  rewrite lookup_fmap in Hk. destruct (C !! k) as [c|] eqn:HCk; [|done].
  exists c. split; [|by simplify_eq/=].
  apply sortedCategories_lookup. eauto.
Qed.

(** C7. [updateCategoryCounts] always completes, leaves the wallpapers
    alone, and afterwards the [wallpaper_count] of every category in the
    store is exactly the number of wallpaper documents whose [category] is
    that category's slug; no category is added, lost or renamed. *)
Theorem updateCategoryCounts_exact (s : State) :
  ∃ s',
    Database.updateCategoryCounts s = (Ok tt, s') ∧
    wallpapers s' = wallpapers s ∧
    (∀ k c, categories s' !! k = Some c →
       wallpaper_count c =
         Z.of_nat (size (filter (λ kd, category kd.2 = Some (slug c)) (wallpapers s')))) ∧
    (∀ k, slug <$> categories s' !! k = slug <$> categories s !! k).
Proof.
  destruct (updateCategoryCounts_spec s) as (s' & Hrun & Hw & _ & Hc).
  exists s'. split; [done|]. split; [done|]. rewrite Hc, Hw. unfold recount. split.
  - intros k c. rewrite lookup_fmap. intros Hk.
    destruct (categories s !! k) as [c0|]; [|done]. by simplify_eq/=.
  - intros k. rewrite lookup_fmap. by destruct (categories s !! k).
Qed.

(** C3. On a catalog whose provider records sit under their derived ids
    (the id rule of the data model, which the job itself maintains), a second
    run of [fetchAllCategoryWallpapers] against the same upstream responses
    adds nothing: it returns 0 and leaves the wallpapers, hence their number,
    and the categories with their counts exactly as the first run left
    them. *)
Theorem ingestion_cycle_idempotent (s : State) :
  providerKeyed (wallpapers s) →
  let s1 := (fetchAllCategoryWallpapers s).2 in
  let second := fetchAllCategoryWallpapers s1 in
  second.1 = Ok 0 ∧
  wallpapers second.2 = wallpapers s1 ∧
  categories second.2 = categories s1 ∧
  size (wallpapers second.2) = size (wallpapers s1) ∧
  providerKeyed (wallpapers s1).
Proof.
  intros Hkeyed s1 second. subst second s1.
  destruct (fetchAllCategoryWallpapers_spec s) as (s1 & Hrun1 & Hw1 & Hc1 & _).
  rewrite Hrun1. cbn [snd].
  destruct (fetchAllCategoryWallpapers_spec s1) as (s2 & Hrun2 & Hw2 & Hc2 & _).
  rewrite Hrun2. cbn [fst snd].
  destruct (cycle_fixed (sortedCategories (categories s1)) (wallpapers s1)) as [HW Htot].
  { intros c' ws w Hc' Hup Hw. rewrite Hc1 in Hc'.
    apply sortedCategories_recount in Hc' as (c & Hc & ->).
    rewrite upstream_recountOne in Hup. rewrite Hw1.
    by eapply cycleW_all_exist. }
  rewrite Htot. rewrite HW in Hw2.
  split; [done|]. split; [done|]. split; [|split; [by rewrite Hw2|]].
  - rewrite Hc2, Hw2, Hc1. apply recount_idemp.
  - rewrite Hw1. by apply cycleW_providerKeyed.
Qed.
End cycle_facts.

Section frame_facts.
Context `{Runtime}.
Import Database FetchWallpapers.

(** C2, as the code has it.  A record whose [(external_id, source)] pair is
    already in the catalog is dropped by the existence check and is never
    written by the cycle.  [fetchAllCategoryWallpapers] changes no downloads
    counter, and a provider's record stored under its derived id comes out
    of the cycle exactly as it went in: title, image URLs and downloads.
    Title and URLs are refreshed only by an upsert that does reach the
    record (one with its [_id]): that write replaces the title, replaces an
    image URL when the record carries one (a value or [null]) and leaves it
    as stored when the record has none, and keeps the downloads; the counter
    moves only with [incrementDownloadCount], by one. *)
Theorem ingestion_leaves_existing_record (s : State) (k : string) (d : Wallpaper) :
  wallpapers s !! k = Some d →
  let s' := (fetchAllCategoryWallpapers s).2 in
  (∀ c n ws w, upstream c n = Some ws →
     indexKey d = (Some (w_external_id w), w_source w) →
     w ∉ newOnes (wallpapers s) ws) ∧
  (∃ d', wallpapers s' !! k = Some d' ∧ downloads d' = downloads d) ∧
  (∀ e, external_id d = Some e → isProvider (source d) →
        k = derivedId (source d) e → wallpapers s' !! k = Some d) ∧
  (∀ w, w_id w = k → w_id w ≠ "" → (insertWallpapers [w] s).1 = Ok tt →
     ∃ d', wallpapers (insertWallpapers [w] s).2 !! k = Some d' ∧
           title d' = Some (w_title w) ∧
           url_thumb d' = written (w_url_thumb w) (url_thumb d) ∧
           url_regular d' = written (w_url_regular w) (url_regular d) ∧
           url_full d' = written (w_url_full w) (url_full d) ∧
           downloads d' = downloads d) ∧
  downloads <$> wallpapers (incrementDownloadCount k s).2 !! k = Some (downloads d + 1).
Proof.
  intros Hk s'. subst s'.
  destruct (fetchAllCategoryWallpapers_spec s) as (s' & Hrun & Hw & _).
  rewrite Hrun. cbn [snd]. rewrite Hw. split_and!.
  - intros c n ws w Hup Hkey Hin. apply newOnes_absent in Hin. destruct Hin.
    apply existsIn_alt. eauto.
  - by apply cycleW_downloads.
  - intros e He Hsrc Hid. by eapply cycleW_frame.
  - intros w Hid _. rewrite insertWallpapers_result, insertWallpapers_wallpapers.
    simpl. destruct (updateOne_upsert (toDoc w) (wallpapers s)) as [e|W'] eqn:Hop;
      [done|].
    intros _. apply updateOne_upsert_inr in Hop as (k' & Hk' & _ & ->).
    unfold toDoc in Hk'. simpl in Hk'. case_bool_decide; [|done].
    simplify_eq. cbn [snd]. rewrite lookup_insert_eq, Hk. eauto 10.
  - unfold incrementDownloadCount, modify. cbn [snd wallpapers set_wallpapers].
    by rewrite lookup_alter_eq, Hk.
Qed.
End frame_facts.

(** C2, as stated, fails: the catalog holds photo 42 of unsplash with an old
    title; unsplash delivers the same photo with a new title and new URLs;
    after the cycle the stored title is still the old one. *)
Lemma cycle_does_not_refresh : ¬ @cycleRefreshesExisting Reference.unsplashHas42.
Proof.
  intros Hclaim.
  destruct (Hclaim Reference.catalogWith42 Reference.nature
              [Unsplash.normalizePhoto (H:=Reference.unsplashHas42)
                 Reference.photo42 (Some "nature")]
              (Unsplash.normalizePhoto (H:=Reference.unsplashHas42)
                 Reference.photo42 (Some "nature"))
              "unsplash_42" (Reference.stored "unsplash" "42" "Old title" 3))
    as (d' & Hd' & Htitle & _).
  - apply sortedCategories_lookup. by exists 1%N.
  - done.
  - by left.
  - done.
  - done.
  - vm_compute in Hd'. by simplify_eq.
Qed.

Lemma ingestion_leaves_existing_record_witness :
  wallpapers Reference.catalogWith42 !! "unsplash_42"
    = Some (Reference.stored "unsplash" "42" "Old title" 3) ∧
  wallpapers (FetchWallpapers.fetchAllCategoryWallpapers (H:=Reference.unsplashHas42)
                Reference.catalogWith42).2 !! "unsplash_42"
    = Some (Reference.stored "unsplash" "42" "Old title" 3).
Proof.
  assert (wallpapers Reference.catalogWith42 !! "unsplash_42"
          = Some (Reference.stored "unsplash" "42" "Old title" 3)) as Hk
    by reflexivity.
  split; [exact Hk|].
  exact (proj1 (proj2 (proj2 (ingestion_leaves_existing_record
                                (H:=Reference.unsplashHas42)
                                Reference.catalogWith42 "unsplash_42" _ Hk)))
           "42" eq_refl (or_introl eq_refl) eq_refl).
Defined.

Section failure_facts.
Context `{Runtime}.
Import Database FetchWallpapers.

Lemma insertWallpapers_requests ws s : requests (insertWallpapers ws s).2 = requests s.
Proof.
  unfold insertWallpapers, Wallpaper_bulkWrite. unfold_M.
  case_bool_decide; [|done]. by destruct (bulkWrite _ _) as [[e|] W].
Qed.

Lemma fetchCategoryWallpapers_requests c n s :
  requests (fetchCategoryWallpapers c n s).2 =
    requests s ++
      match unsplash_search (search_query c) 1 n with
      | Resolved _ => [searchRequest FromUnsplash c n]
      | Rejected _ => [searchRequest FromUnsplash c n; searchRequest FromPexels c n]
      end.
Proof.
  unfold fetchCategoryWallpapers.
  rewrite M_bind_run, console_log_run, M_bind_run.
  set (s0 := add_console (LF +:+ "📷 Fetching wallpapers for: " +:+ name c) s).
  pose proof (fetchEither_requests c n s0) as Hreq.
  pose proof (fetchEither_result c n s0) as Hr.
  destruct (fetchEither c n s0) as [r s1]. simpl in Hreq, Hr. subst r.
  destruct (upstream c n) as [ws|]; [|done].
  rewrite M_bind_run, filterNew_spec, M_bind_run.
  case_bool_decide.
  - rewrite M_bind_run.
    pose proof (insertWallpapers_requests (newOnes (wallpapers s1) ws) s1) as Hir.
    destruct (insertWallpapers _ s1) as [[[]|e] s2]; simpl in *; congruence.
  - done.
Qed.

Lemma fetchCategoryWallpapers_result c n s :
  (fetchCategoryWallpapers c n s).1 = Ok (countNew c n (wallpapers s)).
Proof.
  destruct (fetchCategoryWallpapers_spec c n s) as (s' & -> & _).
  by rewrite ingest_no_error.
Qed.

Lemma fetchCategoryWallpapers_wallpapers c n s :
  wallpapers (fetchCategoryWallpapers c n s).2 = (ingest c n (wallpapers s)).2.
Proof.
  destruct (fetchCategoryWallpapers_spec c n s) as (s' & Hrun & Hw & _).
  by rewrite Hrun.
Qed.

Lemma upstream_both_failed c n m1 m2 :
  unsplash_search (search_query c) 1 n = Rejected m1 →
  pexels_search (search_query c) 1 n = Rejected m2 →
  upstream c n = None.
Proof. unfold upstream. by intros -> ->. Qed.

(** C5. When the unsplash adapter fails for a category, the job asks the
    pexels adapter next, with the same query and page 1.  If pexels answers,
    the category's run returns the number of its records that were not in
    the catalog (positive as soon as there is one), each of them is stored
    afterwards, and every document the run added or changed has source
    pexels. *)
Theorem fallback_to_secondary (c : Category) (n : Z) (s : State)
    (msg : string) (photos : option (list PexelsApi.Photo)) :
  unsplash_search (search_query c) 1 n = Rejected msg →
  pexels_search (search_query c) 1 n = Resolved photos →
  let ws := (λ photo, Pexels.normalizePhoto photo (Some (slug c))) <$> default [] photos in
  let new := newOnes (wallpapers s) ws in
  let run := fetchCategoryWallpapers c n s in
  requests run.2 =
    requests s ++
      [ {| req_provider := FromUnsplash; req_query := search_query c;
           req_page := 1; req_per_page := n |};
        {| req_provider := FromPexels; req_query := search_query c;
           req_page := 1; req_per_page := n |} ] ∧
  run.1 = Ok (Z.of_nat (length new)) ∧
  (new ≠ [] → 0 < Z.of_nat (length new)) ∧
  (∀ w, w ∈ new →
     ∃ d, wallpapers run.2 !! w_id w = Some d ∧ source d = "pexels" ∧
          external_id d = Some (w_external_id w)) ∧
  (∀ k d, wallpapers run.2 !! k = Some d →
     wallpapers s !! k = Some d ∨ source d = "pexels").
Proof.
  intros Hu Hp ws new run.
  assert (upstream c n = Some ws) as Hup.
  { unfold upstream. by rewrite Hu, Hp. }
  subst run. rewrite fetchCategoryWallpapers_requests, fetchCategoryWallpapers_result,
    fetchCategoryWallpapers_wallpapers, Hu.
  split; [done|]. split; [by unfold countNew; rewrite Hup|].
  split; [by destruct new; [|simpl; lia]|]. split.
  - intros w Hw.
    destruct (ingest_stores c n (wallpapers s) ws w Hup Hw) as (d & Hd & Hkey).
    exists d. split; [done|]. injection Hkey as He Hs.
    apply newOnes_subseteq in Hw.
    apply list_elem_of_fmap in Hw as (photo & -> & _). done.
  - intros k d [Hk|(ws' & w & old & Hup' & Hw & -> & ->)]%ingest_provenance;
      [by left|].
    right. rewrite Hup in Hup'. simplify_eq.
    apply newOnes_subseteq in Hw.
    apply list_elem_of_fmap in Hw as (photo & -> & _). done.
Qed.

(** C6. A category for which both adapters fail returns 0 and leaves the
    catalog alone, and the job goes on: over three categories the second of
    which fails at both providers, the job returns, as a value and not as
    an error, what the first category and the third one added, and the
    console holds the line that reports the second one's failure. *)
Theorem partial_failure_is_isolated (s : State) (c1 c2 c3 : Category)
    (m1 m2 : string) :
  sortedCategories (categories s) = [c1; c2; c3] →
  unsplash_search (search_query c2) 1 20 = Rejected m1 →
  pexels_search (search_query c2) 1 20 = Rejected m2 →
  let first := fetchCategoryWallpapers c1 20 s in
  let run := fetchAllCategoryWallpapers s in
  (∀ s0, (fetchCategoryWallpapers c2 20 s0).1 = Ok 0 ∧
         wallpapers (fetchCategoryWallpapers c2 20 s0).2 = wallpapers s0) ∧
  (∃ n1 n3,
     first.1 = Ok n1 ∧
     (∀ s0, wallpapers s0 = wallpapers first.2 →
            (fetchCategoryWallpapers c3 20 s0).1 = Ok n3) ∧
     run.1 = Ok (n1 + n3)) ∧
  ("  ❌ Both APIs failed for " +:+ name c2) ∈ console run.2.
Proof.
  intros Hcs Hu Hp first run.
  pose proof (upstream_both_failed c2 20 m1 m2 Hu Hp) as Hnone.
  assert (∀ W, ingest c2 20 W = (None, W)) as Hskip.
  { intros W. unfold ingest. by rewrite Hnone. }
  split_and!.
  - intros s0. rewrite fetchCategoryWallpapers_result, fetchCategoryWallpapers_wallpapers.
    rewrite Hskip. unfold countNew. by rewrite Hnone.
  - exists (countNew c1 20 (wallpapers s)),
           (countNew c3 20 (ingest c1 20 (wallpapers s)).2).
    subst first run. split; [apply fetchCategoryWallpapers_result|]. split.
    + intros s0 Hs0. rewrite fetchCategoryWallpapers_result, Hs0.
      by rewrite fetchCategoryWallpapers_wallpapers.
    + destruct (fetchAllCategoryWallpapers_spec s) as (s' & -> & _).
      rewrite Hcs. cbn [fst cycleTotal]. rewrite !contribution_countNew, Hskip.
      cbn [snd]. unfold countNew at 2. rewrite Hnone. f_equal. lia.
  - subst run.
    destruct (fetchAllCategoryWallpapers_spec s) as (s' & -> & _ & _ & _ & Hlog).
    cbn [snd]. apply (Hlog c2); [|done]. rewrite Hcs. set_solver.
Qed.
End failure_facts.

Lemma fallback_to_secondary_witness :
  let run := FetchWallpapers.fetchCategoryWallpapers (H:=Reference.unsplashDown)
               Reference.nature 20 Reference.catalogWithout42 in
  unsplash_search (Runtime:=Reference.unsplashDown)
    (search_query Reference.nature) 1 20 = Rejected "503" ∧
  pexels_search (Runtime:=Reference.unsplashDown)
    (search_query Reference.nature) 1 20
    = Resolved (Some [Reference.pexelsPhoto 7 "Lake"; Reference.pexelsPhoto 8 "River"]) ∧
  run.1 = Ok 1 ∧
  ∀ k d, wallpapers run.2 !! k = Some d →
         wallpapers Reference.catalogWithout42 !! k = Some d ∨ source d = "pexels".
Proof.
  pose proof (fallback_to_secondary (H:=Reference.unsplashDown) Reference.nature 20
                Reference.catalogWithout42 "503"
                (Some [Reference.pexelsPhoto 7 "Lake"; Reference.pexelsPhoto 8 "River"])
                eq_refl eq_refl) as (_ & Hcount & _ & _ & Hsrc).
  split; [reflexivity|]. split; [reflexivity|].
  split; [exact Hcount|exact Hsrc].
Defined.

Lemma partial_failure_is_isolated_witness :
  sortedCategories (categories Reference.threeCategories)
    = [Reference.abstract; Reference.city; Reference.nature] ∧
  unsplash_search (Runtime:=Reference.cityDown)
    (search_query Reference.city) 1 20 = Rejected "503" ∧
  pexels_search (Runtime:=Reference.cityDown)
    (search_query Reference.city) 1 20 = Rejected "timeout" ∧
  (FetchWallpapers.fetchAllCategoryWallpapers (H:=Reference.cityDown)
     Reference.threeCategories).1 = Ok 3 ∧
  "  ❌ Both APIs failed for City & Urban"
    ∈ console (FetchWallpapers.fetchAllCategoryWallpapers (H:=Reference.cityDown)
                 Reference.threeCategories).2.
Proof.
  pose proof (partial_failure_is_isolated (H:=Reference.cityDown)
                Reference.threeCategories
                Reference.abstract Reference.city Reference.nature "503" "timeout"
                eq_refl eq_refl eq_refl) as (_ & (n1 & n3 & Hn1 & Hn3 & Hrun) & Hlog).
  split; [reflexivity|]. split; [reflexivity|]. split; [reflexivity|].
  split; [|exact Hlog].
  rewrite Hrun. vm_compute in Hn1. injection Hn1 as <-.
  specialize (Hn3 _ eq_refl). vm_compute in Hn3. injection Hn3 as <-. reflexivity.
Defined.

(** *** The reference codec reads back what it writes *)

Section codec_facts.
Import Codec.

Lemma string_app_assoc (s t u : string) : (s +:+ t) +:+ u = s +:+ (t +:+ u).
Proof. induction s as [|c s IH]; [done|]. exact (f_equal (String c) IH). Qed.

Lemma string_length_app (s t : string) :
  String.length (s +:+ t) = (String.length s + String.length t)%nat.
Proof. induction s as [|c s IH]; [done|]. exact (f_equal S IH). Qed.

Lemma read_chars_escape (c : ascii) (t : string) :
  read_chars (escape c +:+ t) = prepend c <$> read_chars t.
Proof.
  destruct c as [[] [] [] [] [] [] [] []]; try reflexivity.
Qed.

Lemma read_chars_quote (x rest : string) :
  read_chars (quote_chars x +:+ String dquote rest) = Some (x, rest).
Proof.
  induction x as [|c x IH]; [done|].
  change (quote_chars (String c x)) with (escape c +:+ quote_chars x).
  by rewrite string_app_assoc, read_chars_escape, IH.
Qed.

Lemma read_elems_quote (fuel : nat) (x rest : string) :
  read_elems (S fuel) (quote x +:+ rest) =
    match rest with
    | "" => None
    | String d rest' =>
        if Ascii.eqb d "]" then (if String.eqb rest' "" then Some [x] else None)
        else if Ascii.eqb d "," then (x ::.) <$> read_elems fuel rest'
        else None
    end.
Proof.
  change (quote x +:+ rest)
    with (String dquote ((quote_chars x +:+ String dquote "") +:+ rest)).
  rewrite string_app_assoc.
  change (String dquote "" +:+ rest) with (String dquote rest).
  cbn [read_elems]. change (Ascii.eqb dquote dquote) with true. cbv iota.
  by rewrite read_chars_quote.
Qed.

Lemma map_stringify_strings (l : list string) :
  map stringify (JStr <$> l) = quote <$> l.
Proof. induction l as [|x l IH]; [done|]. exact (f_equal (cons (quote x)) IH). Qed.

Lemma read_elems_join (l : list string) (fuel : nat) :
  l ≠ [] → (length l ≤ fuel)%nat →
  read_elems fuel (join (quote <$> l) +:+ "]") = Some l.
Proof.
  revert fuel. induction l as [|x l IH]; intros fuel Hne Hlen; [done|].
  destruct fuel as [|fuel]; [simpl in Hlen; lia|].
  destruct l as [|y l].
  - change (join (quote <$> [x])) with (quote x).
    by rewrite read_elems_quote.
  - change (join (quote <$> x :: y :: l))
      with (quote x +:+ ("," +:+ join (quote <$> y :: l))).
    rewrite string_app_assoc, read_elems_quote.
    change (("," +:+ join (quote <$> y :: l)) +:+ "]")
      with (String "," (join (quote <$> y :: l) +:+ "]")).
    cbv iota. change (Ascii.eqb "," "]") with false.
    change (Ascii.eqb "," ",") with true. cbv iota.
    rewrite IH; [done|done|simpl in *; lia].
Qed.

Lemma join_quote_length (l : list string) :
  (length l ≤ String.length (join (quote <$> l)))%nat.
Proof.
  induction l as [|x l IH]; [done|].
  destruct l as [|y l].
  - change (join (quote <$> [x])) with (String dquote (quote_chars x +:+ String dquote "")).
    simpl. lia.
  - change (join (quote <$> x :: y :: l))
      with (String dquote ((quote_chars x +:+ String dquote "")
                           +:+ ("," +:+ join (quote <$> y :: l)))).
    cbn [String.length]. rewrite string_length_app.
    change (String.length ("," +:+ join (quote <$> y :: l)))
      with (S (String.length (join (quote <$> y :: l)))).
    simpl in *. lia.
Qed.

(** What [stringify] writes for an array of strings, [parse] reads back. *)
Lemma parse_stringify (l : list string) :
  parse (stringify (JArr (JStr <$> l))) = Some (JArr (JStr <$> l)).
Proof.
  destruct l as [|x l]; [done|].
  change (stringify (JArr (JStr <$> x :: l)))
    with (String "[" (join (map stringify (JStr <$> x :: l)) +:+ "]")).
  rewrite map_stringify_strings. unfold parse.
  destruct (String.eqb _ "]") eqn:Heq.
  - apply String.eqb_eq in Heq. exfalso. revert Heq.
    destruct l as [|y l].
    + change (join (quote <$> [x]) +:+ "]")
        with (String dquote ((quote_chars x +:+ String dquote "") +:+ "]")).
      done.
    + change (join (quote <$> x :: y :: l) +:+ "]")
        with (String dquote (((quote_chars x +:+ String dquote "")
                              +:+ ("," +:+ join (quote <$> y :: l))) +:+ "]")).
      done.
  - rewrite read_elems_join; [done|done|].
    cbn [String.length]. rewrite string_length_app.
    pose proof (join_quote_length (x :: l)). lia.
Qed.
End codec_facts.

Section record_facts.
Context `{Runtime}.
Import Database FetchWallpapers.

Lemma isProvider_enum src : isProvider src → src ∈ source_enum.
Proof. intros [->| ->]; unfold source_enum; set_solver. Qed.

Lemma cycleW_provenance cs W k d :
  cycleW cs W !! k = Some d → W !! k = Some d ∨ isProvider (source d).
Proof.
  revert W. induction cs as [|c cs IH]; intros W; [by left|].
  rewrite cycleW_cons. intros [Hk|Hp]%IH; [|by right].
  apply ingest_provenance in Hk as [Hk|(ws & w & old & Hup & Hw & -> & ->)]; [by left|].
  right. apply upstream_normalized in Hup. rewrite Forall_forall in Hup.
  apply newOnes_subseteq in Hw. by destruct (Hup w Hw).
Qed.

(** C8, as the code has it.  The store does not check the source of what
    an upsert writes, and an upsert writes the source along with the rest.
    What the ingestion cycle guarantees is this: the normalizers only
    produce unsplash and pexels, so every document found after a cycle is
    either a document that was there before it, unchanged, or has source
    unsplash or pexels, both in the enumeration of the schema; and the
    cycle leaves a provider's record stored under its derived id, and with
    it its source, exactly as it was. *)
Theorem source_of_ingested_records (s : State) :
  let s' := (fetchAllCategoryWallpapers s).2 in
  (∀ photo c, w_source (Unsplash.normalizePhoto photo c) = "unsplash") ∧
  (∀ photo c, w_source (Pexels.normalizePhoto photo c) = "pexels") ∧
  (∀ k d, wallpapers s' !! k = Some d →
          wallpapers s !! k = Some d ∨
          ((source d = "unsplash" ∨ source d = "pexels") ∧ source d ∈ source_enum)) ∧
  (∀ k d e, wallpapers s !! k = Some d → external_id d = Some e →
            isProvider (source d) → k = derivedId (source d) e →
            wallpapers s' !! k = Some d).
Proof.
  intros s'. subst s'.
  destruct (fetchAllCategoryWallpapers_spec s) as (s' & -> & Hw & _).
  cbn [snd]. rewrite Hw. split_and!; try done.
  - intros k d [Hk|Hp]%cycleW_provenance; [by left|right].
    split; [done|by apply isProvider_enum].
  - intros k d e Hk He Hp Hid. by eapply cycleW_frame.
Qed.

(** C9. Both normalizers derive the id as [{source}_{external_id}], take as
    title the first caption field that is present (description, then
    alt_description, for unsplash; alt, the only one, for pexels) and else
    the literal Untitled, and take as photographer the name the provider
    supplies and else the literal Unknown. *)
Theorem normalizer_fallbacks :
  (∀ photo c,
     let w := Unsplash.normalizePhoto photo c in
     w_id w = w_source w +:+ "_" +:+ w_external_id w ∧
     w_title w =
       firstPresent [UnsplashApi.description photo; UnsplashApi.alt_description photo]
         "Untitled" ∧
     w_photographer w =
       firstPresent [UnsplashApi.user photo ≫= UnsplashApi.user_name] "Unknown") ∧
  (∀ photo c,
     let w := Pexels.normalizePhoto photo c in
     w_id w = w_source w +:+ "_" +:+ w_external_id w ∧
     w_title w = firstPresent [PexelsApi.alt photo; None] "Untitled" ∧
     w_photographer w = firstPresent [PexelsApi.photographer photo] "Unknown").
Proof.
  split; intros photo c w; subst w; (split; [done|]); simpl.
  - unfold js_or, js_or_lit, truthy.
    destruct (UnsplashApi.description photo) as [t|];
      destruct (UnsplashApi.alt_description photo) as [t'|];
      destruct (UnsplashApi.user photo ≫= UnsplashApi.user_name) as [u|];
      repeat case_bool_decide; first [done|congruence].
  - unfold js_or_lit.
    destruct (PexelsApi.alt photo) as [t|];
      destruct (PexelsApi.photographer photo) as [u|];
      repeat case_bool_decide; first [done|congruence].
Qed.

Lemma fixTags_pipeline v :
  (∀ l : list string,
     JSON_parse (JSON_stringify (JArr (JStr <$> l))) = Some (JArr (JStr <$> l))) →
  pipelineTags v → is_string_array (fixTags v).
Proof.
  intros Hjson [[l ->]|[(t & -> & Hbad)|[l ->]]]; simpl.
  - rewrite Hjson. by exists l.
  - rewrite Hbad. by exists [].
  - by exists l.
Qed.

(** When a batch has gone through, every key one of its operations
    addresses holds what an operation of the batch wrote there. *)
Lemma bulkWrite_written ops W W' k :
  bulkWrite ops W = (None, W') →
  (∃ op, op ∈ ops ∧ op.1 = Some k) →
  ∃ op old, op ∈ ops ∧ op.1 = Some k ∧ W' !! k = Some (applySet op.2 old).
Proof.
  revert W. induction ops as [|op0 ops IH]; intros W Hrun Hex.
  { destruct Hex as (op & Hin & _). by apply elem_of_nil in Hin. }
  rewrite bulkWrite_cons in Hrun.
  destruct (updateOne_upsert op0 W) as [e|W1] eqn:Hop0; [done|].
  destruct (decide (Exists (λ op, op.1 = Some k) ops)) as [Hlater|Hnot].
  - apply Exists_exists in Hlater as (op & Hin & Hkey).
    destruct (IH W1 Hrun) as (op' & old & Hin' & Hkey' & Hk); [by eauto|].
    exists op', old. split; [by right|done].
  - assert (op0.1 = Some k) as Hkey0.
    { destruct Hex as (op & [->|Hin]%elem_of_cons & Hkey); [done|].
      destruct Hnot. apply Exists_exists. eauto. }
    apply updateOne_upsert_inr in Hop0 as (k0 & Hk0 & _ & ->).
    assert (k0 = k) as -> by congruence.
    exists op0, (W !! k). split; [by left|]. split; [done|].
    replace W' with (bulkWrite ops (<[k:=applySet op0.2 (W !! k)]> W)).2
      by by rewrite Hrun.
    rewrite bulkWrite_frame, lookup_insert_eq; [done|].
    intros op Hin Hkey. apply Hnot, Exists_exists. eauto.
Qed.

(** C10, as the code has it.  Provided [JSON.parse] reads back the text
    [JSON.stringify] writes for an array of strings: the normalizers emit
    [tags] as such a text; the insert path turns that text back into the
    array and a string that does not parse into the empty array, the write
    going on exactly as for a record with no tags.  So a record with an id
    whose [tags] is such a text, a string that does not parse, or an array
    of strings is stored, by [insertWallpaper] and by [insertWallpapers],
    under its id with an array of strings as [tags].  The insert path does
    not look at what a text parses to. *)
Theorem tags_stored_as_string_array :
  (∀ l : list string,
     JSON_parse (JSON_stringify (JArr (JStr <$> l))) = Some (JArr (JStr <$> l))) →
  (∀ photo c, encodedTags (w_tags (Unsplash.normalizePhoto photo c))) ∧
  (∀ photo c, encodedTags (w_tags (Pexels.normalizePhoto photo c))) ∧
  (∀ w, malformedTags (w_tags w) → toDoc w = toDoc (set_w_tags (JArr []) w)) ∧
  (∀ w s d s',
     w_id w ≠ "" → pipelineTags (w_tags w) → insertWallpaper w s = (Ok d, s') →
     wallpapers s' !! w_id w = Some d ∧
     is_string_array (tags d) ∧
     (∀ l, w_tags w = JStr (JSON_stringify (JArr (JStr <$> l))) →
           tags d = JArr (JStr <$> l)) ∧
     (malformedTags (w_tags w) → tags d = JArr [])) ∧
  (∀ ws s,
     Forall (λ w, w_id w ≠ "" ∧ pipelineTags (w_tags w)) ws →
     (insertWallpapers ws s).1 = Ok tt →
     (∀ w, w ∈ ws →
        ∃ d, wallpapers (insertWallpapers ws s).2 !! w_id w = Some d ∧
             is_string_array (tags d)) ∧
     (∀ k d, wallpapers (insertWallpapers ws s).2 !! k = Some d →
             wallpapers s !! k = Some d ∨ is_string_array (tags d))).
Proof.
  intros Hjson. split_and!.
  - intros photo c. by eexists.
  - intros photo c. by exists [].
  - intros w (t & Hw & Hbad). unfold toDoc. simpl. by rewrite Hw; simpl; rewrite Hbad.
  - intros w s d s' Hid Hw. unfold insertWallpaper, Wallpaper_findOneAndUpdate.
    destruct (updateOne_upsert _ _) as [e|W'] eqn:Hop; [done|].
    apply updateOne_upsert_inr in Hop as (k & Hk & _ & ->). rewrite Hk. simpl.
    rewrite lookup_insert_eq. intros [= <- <-].
    unfold toDoc in Hk. simpl in Hk. rewrite bool_decide_true in Hk by done.
    simplify_eq. cbn [wallpapers set_wallpapers]. rewrite lookup_insert_eq.
    split; [done|]. split; [by apply fixTags_pipeline|]. split.
    + intros l Hl. simpl. by rewrite Hl; simpl; rewrite Hjson.
    + intros (t & Ht & Hbad). simpl. by rewrite Ht; simpl; rewrite Hbad.
  - intros ws s Hws. rewrite insertWallpapers_result, insertWallpapers_wallpapers.
    rewrite Forall_forall in Hws. intros Hok. split.
    + intros w Hin.
      destruct (bulkWrite (toDoc <$> ws) (wallpapers s)) as [[e|] W'] eqn:Hrun; [done|].
      destruct (bulkWrite_written (toDoc <$> ws) (wallpapers s) W' (w_id w) Hrun)
        as (op & old & (w' & -> & Hin')%list_elem_of_fmap & _ & Hk).
      { exists (toDoc w). split; [by apply list_elem_of_fmap_2|].
        unfold toDoc. cbn [fst]. rewrite bool_decide_true; [done|]. by apply Hws. }
      eexists. split; [exact Hk|]. simpl. by apply fixTags_pipeline, Hws.
    + intros k d [Hk|(op & old & Hin & _ & ->)]%bulkWrite_provenance; [by left|].
      right. apply list_elem_of_fmap in Hin as (w & -> & Hin).
      simpl. by apply fixTags_pipeline, Hws.
Qed.
End record_facts.

(** C8, as stated, fails on both counts: the schema admits gemini, which is
    not among unsplash, pexels and generated; and an upsert with the id of a
    stored gemini record and source pexels replaces the stored source. *)
Lemma source_claim_fails : ¬ sourceEnumAsClaimed ∧ ¬ @sourceImmutable Reference.offline.
Proof.
  split.
  - intros Hclaim.
    assert ("gemini" ∉ claimedSources) as Hnot by by apply (bool_decide_unpack _).
    apply Hnot, Hclaim. by apply (bool_decide_unpack _).
  - intros Hclaim.
    specialize (Hclaim Reference.generatedState
                  (Reference.record "ai_1" "pexels" "9" "Dunes") "ai_1"
                  (Reference.stored "gemini" "1" "Dream" 0)
                  (Database.applySet (Reference.record "ai_1" "pexels" "9" "Dunes")
                     (Some (Reference.stored "gemini" "1" "Dream" 0)))).
    by discriminate Hclaim.
Qed.

(** C10, as stated, fails: the text null is well-formed JSON, the insert
    path parses it and writes what it reads, and the record is stored with
    [tags] null, which is not an array. *)
Lemma tags_claim_fails : ¬ @tagsAlwaysStringArrays Reference.readsNull.
Proof.
  intros Hclaim.
  destruct (Hclaim Reference.emptyState Reference.nullTagsRecord _ _ ltac:(done) eq_refl)
    as [l Hl].
  vm_compute in Hl. discriminate Hl.
Qed.

Lemma tags_stored_as_string_array_witness :
  (∀ l : list string,
     Codec.parse (Codec.stringify (JArr (JStr <$> l))) = Some (JArr (JStr <$> l))) ∧
  ∃ d s',
    Database.insertWallpaper (H:=Reference.offline)
      (Unsplash.normalizePhoto (H:=Reference.offline) Reference.photo42 (Some "nature"))
      Reference.emptyState = (Ok d, s') ∧
    wallpapers s' !! "unsplash_42" = Some d ∧
    tags d = JArr [JStr "forest"].
Proof.
  split; [exact parse_stringify|].
  pose proof (tags_stored_as_string_array (H:=Reference.offline) parse_stringify)
    as (_ & _ & _ & Hone & _).
  eexists _, _. split; [reflexivity|].
  destruct (Hone (Unsplash.normalizePhoto (H:=Reference.offline) Reference.photo42
                    (Some "nature"))
              Reference.emptyState _ _ ltac:(done)
              (or_introl (ex_intro _ ["forest"] eq_refl)) eq_refl)
    as (Hstored & _ & Henc & _).
  split; [exact Hstored|]. exact (Henc ["forest"] eq_refl).
Defined.

Lemma ingestion_cycle_idempotent_witness :
  providerKeyed (wallpapers Reference.catalogWithout42) ∧
  let s1 := (FetchWallpapers.fetchAllCategoryWallpapers (H:=Reference.unsplashHas42)
               Reference.catalogWithout42).2 in
  let second := FetchWallpapers.fetchAllCategoryWallpapers (H:=Reference.unsplashHas42) s1 in
  second.1 = Ok 0 ∧
  wallpapers second.2 = wallpapers s1 ∧
  categories second.2 = categories s1 ∧
  size (wallpapers second.2) = size (wallpapers s1) ∧
  providerKeyed (wallpapers s1).
Proof.
  assert (providerKeyed (wallpapers Reference.catalogWithout42)) as Hkeyed.
  { intros k d e Hk. unfold Reference.catalogWithout42 in Hk. cbn [wallpapers] in Hk.
    apply lookup_singleton_Some in Hk as [<- <-]. simpl. by intros [= <-] _. }
  split; [exact Hkeyed|].
  exact (ingestion_cycle_idempotent (H:=Reference.unsplashHas42)
           Reference.catalogWithout42 Hkeyed).
Defined.

(** *** Batches of new records in general *)

Section write_facts.
Context {rt : Runtime}.
Import Database.

Lemma bulkWrite_dom ops W k : is_Some (W !! k) → is_Some ((bulkWrite ops W).2 !! k).
Proof.
  intros [d Hd]. destruct (bulkWrite_downloads ops W k d Hd) as (d' & Hd' & _). eauto.
Qed.

Lemma bulkWrite_size ops W :
  (size W ≤ size (bulkWrite ops W).2 ≤ size W + length ops)%nat.
Proof.
  revert W. induction ops as [|op ops IH]; intros W; [simpl; lia|].
  rewrite bulkWrite_cons.
  destruct (updateOne_upsert op W) as [e|W'] eqn:Hop; [simpl; lia|].
  apply updateOne_upsert_inr in Hop as (k & _ & _ & ->).
  specialize (IH (<[k:=applySet op.2 (W !! k)]> W)).
  rewrite map_size_insert in IH. simpl.
  destruct (W !! k); simpl in IH; lia.
Qed.

Lemma writeNew_no_error ws W : Forall normalized ws → (writeNew ws W).1 = None.
Proof.
  intros Hws. apply bulkWrite_normalized.
  - by apply newOnes_normalized.
  - eauto using newOnes_foreign.
Qed.

(** Every new record is in the catalog afterwards, as written by a record
    of the batch with the same id. *)
Lemma writeNew_stores ws W w :
  Forall normalized ws → w ∈ newOnes W ws →
  ∃ w' old, w' ∈ newOnes W ws ∧ w_id w' = w_id w ∧
            (writeNew ws W).2 !! w_id w = Some (applySet (toDoc w').2 old).
Proof.
  intros Hws Hw. unfold writeNew.
  destruct (bulkWrite_normalized (newOnes W ws) W) as [_ Hall].
  { by apply newOnes_normalized. }
  { eauto using newOnes_foreign. }
  destruct (Hall w Hw) as (d & Hd & Hkey).
  apply bulkWrite_provenance in Hd as Hprov.
  destruct Hprov as [Hold|(op & old & Hin & Hop & ->)].
  - apply newOnes_absent in Hw. destruct Hw. apply existsIn_alt. eauto.
  - apply list_elem_of_fmap in Hin as (w' & -> & Hin).
    assert (normalized w') as Hn'.
    { eapply Forall_forall; [by apply newOnes_normalized|done]. }
    rewrite toDoc_normalized in Hop by done. simpl in Hop.
    exists w', old. split; [done|]. split; [congruence|]. by rewrite Hd.
Qed.

Lemma writeNew_frame ws W k d e :
  Forall normalized ws →
  W !! k = Some d → external_id d = Some e → isProvider (source d) →
  k = derivedId (source d) e →
  (writeNew ws W).2 !! k = Some d.
Proof.
  intros Hws Hk He Hsrc ->. unfold writeNew.
  rewrite bulkWrite_frame; [done|].
  intros op (w & -> & Hin)%list_elem_of_fmap Hop.
  assert (normalized w) as Hw.
  { eapply Forall_forall; [by apply newOnes_normalized|done]. }
  rewrite toDoc_normalized in Hop by done. simpl in Hop.
  destruct Hw as [Hp Hid]. rewrite Hid in Hop.
  injection Hop as Hop. apply derivedId_inj in Hop as [Hs Hext]; [|done..].
  apply newOnes_absent in Hin. destruct Hin.
  exists (derivedId (source d) e), d. split; [done|].
  split; [by rewrite Hext|done].
Qed.

Lemma writeNew_providerKeyed ws W :
  Forall normalized ws → providerKeyed W → providerKeyed (writeNew ws W).2.
Proof. intros Hws HW. apply bulkWrite_providerKeyed; [by apply newOnes_normalized|done]. Qed.

Lemma writeNew_all_exist ws W w :
  Forall normalized ws → providerKeyed W → w ∈ ws →
  existsIn (writeNew ws W).2 (w_external_id w) (w_source w).
Proof.
  intros Hws HW Hw.
  assert (normalized w) as [Hp Hid] by by eapply Forall_forall.
  destruct (decide (existsIn W (w_external_id w) (w_source w))) as [Hex|Hnew].
  - destruct Hex as (k & d & Hk & He & Hs). exists k, d. split; [|done].
    assert (isProvider (source d)) as Hpd by by rewrite Hs.
    eapply writeNew_frame; eauto.
  - destruct (writeNew_stores ws W w Hws) as (w' & old & Hin' & Hid' & Hd).
    { unfold newOnes. by apply list_elem_of_filter. }
    apply existsIn_alt. eexists _, _. split; [done|].
    rewrite indexKey_applySet.
    assert (normalized w') as [Hp' Hid''].
    { eapply Forall_forall; [by apply newOnes_normalized|done]. }
    rewrite Hid, Hid'' in Hid'.
    by apply derivedId_inj in Hid' as [-> ->].
Qed.

Lemma writeNew_fixed ws W :
  (∀ w, w ∈ ws → existsIn W (w_external_id w) (w_source w)) →
  newOnes W ws = [] ∧ writeNew ws W = (None, W).
Proof.
  intros Hall. assert (newOnes W ws = []) as Hnil.
  { destruct (newOnes W ws) as [|w l] eqn:Hnew; [done|].
    assert (w ∈ newOnes W ws) as Hw by (rewrite Hnew; by left).
    destruct (newOnes_absent _ _ _ Hw). apply Hall. by eapply newOnes_subseteq. }
  split; [done|]. unfold writeNew. by rewrite Hnil.
Qed.

Lemma newOnes_length W ws : (length (newOnes W ws) ≤ length ws)%nat.
Proof. unfold newOnes. apply length_filter. Qed.
End write_facts.

(** *** The featured job and the seeding *)

Section featured_facts.
Context {rt : Runtime} {ep : Endpoints}.
Import Database FetchWallpapers FetchFeatured.

Lemma set_w_is_featured_normalized b w : normalized w → normalized (set_w_is_featured b w).
Proof. by intros [Hp Hid]. Qed.

Lemma featuredFeed_normalized ws : featuredFeed = Some ws → Forall normalized ws.
Proof.
  unfold featuredFeed. destruct (unsplash_photos 1 30); [done|]. intros [= <-].
  apply Forall_forall. intros w (w0 & -> & (photo & -> & _)%list_elem_of_fmap)%list_elem_of_fmap.
  apply set_w_is_featured_normalized, Unsplash_normalized.
Qed.

Lemma featuredFeed_marked ws w old :
  featuredFeed = Some ws → w ∈ ws → featuredDoc (applySet (toDoc w).2 old).
Proof.
  unfold featuredFeed. destruct (unsplash_photos 1 30); [done|]. intros [= <-].
  intros (w0 & -> & (photo & -> & _)%list_elem_of_fmap)%list_elem_of_fmap. done.
Qed.

Lemma getPopularPhotos_featured s :
  UnsplashPhotos.getPopularPhotos (Some "featured") 1 30 s =
    match unsplash_photos 1 30 with
    | Resolved data =>
        (Ok ((λ photo, Unsplash.normalizePhoto photo (Some "featured")) <$> default [] data), s)
    | Rejected msg =>
        (Throw (RequestFailed FromUnsplash msg),
         add_console ("❌ Unsplash popular photos error: " +:+
                      js_or_lit (unsplash_photos_data 1 30) msg) s)
    end.
Proof.
  unfold UnsplashPhotos.getPopularPhotos. unfold_M.
  by destruct (unsplash_photos 1 30).
Qed.

(** [fetchFeaturedWallpapers] in terms of [featuredFeed] and [writeNew]. *)
Lemma fetchFeaturedWallpapers_spec s :
  ∃ s',
    fetchFeaturedWallpapers s =
      (Ok (match featuredFeed with
           | Some ws => Z.of_nat (length (newOnes (wallpapers s) ws))
           | None => 0
           end), s') ∧
    wallpapers s' = featuredW (wallpapers s) ∧
    categories s' = categories s ∧
    requests s' = requests s ∧
    console s `prefix_of` console s' ∧
    (∀ msg, unsplash_photos 1 30 = Rejected msg →
            ("❌ Failed to fetch featured: " +:+ msg) ∈ console s').
Proof.
  unfold fetchFeaturedWallpapers.
  rewrite M_bind_run, console_log_run. unfold try_catch at 1.
  rewrite M_bind_run, getPopularPhotos_featured.
  set (s0 := add_console (LF +:+ "⭐ Fetching featured wallpapers...") s).
  assert (console s `prefix_of` console s0) as Hp0 by by apply prefix_app_r.
  pose proof featuredFeed_normalized as Hnorm.
  unfold featuredW, featuredFeed in *.
  destruct (unsplash_photos 1 30) as [msg|data].
  - rewrite M_bind_run, console_log_run, M_ret_run.
    eexists. split; [done|]. simpl. split_and!; try done.
    + rewrite <- app_assoc. by apply prefix_app_r.
    + intros ? [= <-]. set_solver.
  - set (ws := set_w_is_featured true <$> _).
    specialize (Hnorm ws eq_refl).
    rewrite M_bind_run, filterNew_spec.
    change (wallpapers s0) with (wallpapers s).
    rewrite M_bind_run.
    pose proof (writeNew_no_error ws (wallpapers s) Hnorm) as Hok.
    unfold writeNew in *.
    case_bool_decide as Hlen.
    + rewrite M_bind_run.
      pose proof (insertWallpapers_result (newOnes (wallpapers s) ws) s0) as Hir.
      pose proof (insertWallpapers_wallpapers (newOnes (wallpapers s) ws) s0) as Hiw.
      pose proof (insertWallpapers_categories (newOnes (wallpapers s) ws) s0) as Hic.
      pose proof (insertWallpapers_console (newOnes (wallpapers s) ws) s0) as Hip.
      pose proof (insertWallpapers_requests (newOnes (wallpapers s) ws) s0) as Hiq.
      destruct (insertWallpapers _ s0) as [r s2]. simpl in Hir, Hiw, Hic, Hip, Hiq.
      change (wallpapers s0) with (wallpapers s) in Hir, Hiw.
      rewrite Hok in Hir. subst r.
      rewrite console_log_run, M_ret_run.
      eexists. split; [done|]. simpl. split_and!; try done.
      apply prefix_app_r. by etrans.
    + destruct (newOnes (wallpapers s) ws) as [|w l]; [|simpl in Hlen; lia].
      rewrite !M_ret_run. eexists. split; [done|]. by split_and!.
Qed.

(** A new photo of the feed is in the catalog afterwards, under its id, as
    a featured document. *)
Lemma featuredW_stores W ws w :
  featuredFeed = Some ws → w ∈ newOnes W ws →
  ∃ d, featuredW W !! w_id w = Some d ∧ featuredDoc d ∧
       external_id d = Some (w_external_id w).
Proof.
  intros Hfeed Hnew.
  pose proof (featuredFeed_normalized ws Hfeed) as Hnorm.
  destruct (writeNew_stores ws W w Hnorm Hnew) as (w' & old & Hin' & Hid & Hstored).
  assert (w ∈ ws) as Hin by by eapply newOnes_subseteq.
  assert (w' ∈ ws) as Hw' by by eapply newOnes_subseteq.
  pose proof (featuredFeed_marked ws w' old Hfeed Hw') as Hmark.
  rewrite Forall_forall in Hnorm.
  destruct (Hnorm w Hin) as [_ Hwid]. destruct (Hnorm w' Hw') as [_ Hwid'].
  assert (w_source w' = "unsplash") as Hsrc' by apply Hmark.
  assert (w_source w = "unsplash") as Hsrc.
  { pose proof (featuredFeed_marked ws w None Hfeed Hin) as Hm. apply Hm. }
  assert (w_external_id w' = w_external_id w) as Hext.
  { rewrite Hwid, Hwid', Hsrc, Hsrc' in Hid.
    apply derivedId_inj in Hid as [_ ?]; [done|by left..]. }
  exists (applySet (toDoc w').2 old). unfold featuredW. rewrite Hfeed.
  split; [done|]. split; [done|]. simpl. by rewrite Hext.
Qed.

(** X1. [fetchFeaturedWallpapers] never throws.  When the popular feed fails
    it returns 0, leaves the catalog as it was and logs the failure.  When
    the feed answers, it returns exactly the number of photos of the feed
    whose [(external_id, source)] pair was not in the catalog, and each of
    those is in the catalog afterwards, under its id, as a featured document
    of unsplash with its [external_id]; the catalog grows by no more than
    that number. *)
Theorem featured_job_never_throws (s : State) :
  ∃ count s',
    fetchFeaturedWallpapers s = (Ok count, s') ∧
    categories s' = categories s ∧
    (∀ msg, unsplash_photos 1 30 = Rejected msg →
       count = 0 ∧ wallpapers s' = wallpapers s ∧
       ("❌ Failed to fetch featured: " +:+ msg) ∈ console s') ∧
    (∀ data, unsplash_photos 1 30 = Resolved data →
       let feed :=
         (λ photo, set_w_is_featured true
                     (Unsplash.normalizePhoto photo (Some "featured")))
           <$> default [] data in
       let new :=
         filter (λ w, ¬ existsIn (wallpapers s) (w_external_id w) (w_source w)) feed in
       count = Z.of_nat (length new) ∧
       (∀ w, w ∈ new →
          ∃ d, wallpapers s' !! w_id w = Some d ∧
               is_featured d = true ∧ source d = "unsplash" ∧
               external_id d = Some (w_external_id w)) ∧
       (size (wallpapers s) ≤ size (wallpapers s')
          ≤ size (wallpapers s) + length new)%nat).
Proof.
  destruct (fetchFeaturedWallpapers_spec s) as (s' & Hrun & Hw & Hc & _ & _ & Hlog).
  eexists _, s'. split; [done|]. split; [done|]. rewrite Hw. split.
  - intros msg Hmsg. unfold featuredW, featuredFeed. rewrite Hmsg. eauto.
  - intros data Hdata feed new.
    assert (featuredFeed = Some feed) as Hfeed.
    { unfold featuredFeed. rewrite Hdata. subst feed. by rewrite <- list_fmap_compose. }
    change new with (newOnes (wallpapers s) feed). rewrite Hfeed. split; [done|]. split.
    + intros w Hnew.
      destruct (featuredW_stores (wallpapers s) feed w Hfeed Hnew)
        as (d & Hd & (Hf & _ & Hsrc) & Hext).
      by exists d.
    + unfold featuredW. rewrite Hfeed.
      pose proof (bulkWrite_size (toDoc <$> newOnes (wallpapers s) feed) (wallpapers s))
        as Hsize.
      rewrite length_fmap in Hsize. done.
Qed.
End featured_facts.

Section seed_facts.
Context {rt : Runtime} {ep : Endpoints}.
Import Database FetchWallpapers FetchFeatured.

Lemma writeNew_provenance ws W k d :
  (writeNew ws W).2 !! k = Some d →
  W !! k = Some d ∨ ∃ w old, w ∈ newOnes W ws ∧ d = applySet (toDoc w).2 old.
Proof.
  intros [?|(op & old & (w & -> & Hw)%list_elem_of_fmap & _ & ->)]%bulkWrite_provenance;
    [by left|right; eauto].
Qed.

Lemma featuredW_frame W k d e :
  W !! k = Some d → external_id d = Some e → isProvider (source d) →
  k = derivedId (source d) e → featuredW W !! k = Some d.
Proof.
  intros. unfold featuredW. destruct featuredFeed as [ws|] eqn:Hfeed; [|done].
  eapply writeNew_frame; eauto using featuredFeed_normalized.
Qed.

Lemma featuredW_providerKeyed W : providerKeyed W → providerKeyed (featuredW W).
Proof.
  intros. unfold featuredW. destruct featuredFeed as [ws|] eqn:Hfeed; [|done].
  eapply writeNew_providerKeyed; eauto using featuredFeed_normalized.
Qed.

Lemma featuredW_fixed W :
  (∀ ws w, featuredFeed = Some ws → w ∈ ws → existsIn W (w_external_id w) (w_source w)) →
  featuredW W = W ∧
  match featuredFeed with
  | Some ws => Z.of_nat (length (newOnes W ws))
  | None => 0
  end = 0.
Proof.
  intros Hall. unfold featuredW. destruct featuredFeed as [ws|]; [|done].
  destruct (writeNew_fixed ws W) as [-> ->]; eauto.
Qed.

(** X2. Whatever the feed delivers, [fetchFeaturedWallpapers] only adds:
    every document of the catalog afterwards is either a document that was
    there, unchanged, or one the job wrote, and those are marked featured,
    filed under the category featured and come from unsplash.  A provider's
    record stored under its derived id is left exactly as it was (so a photo
    already ingested for a category is never promoted), and no download
    counter changes. *)
Theorem featured_job_marks_only_new (s : State) :
  ∃ count s',
    fetchFeaturedWallpapers s = (Ok count, s') ∧
    (∀ k d, wallpapers s' !! k = Some d →
            wallpapers s !! k = Some d ∨ featuredDoc d) ∧
    (∀ k d e, wallpapers s !! k = Some d → external_id d = Some e →
              isProvider (source d) → k = derivedId (source d) e →
              wallpapers s' !! k = Some d) ∧
    (∀ k d, wallpapers s !! k = Some d →
            ∃ d', wallpapers s' !! k = Some d' ∧ downloads d' = downloads d).
Proof.
  destruct (fetchFeaturedWallpapers_spec s) as (s' & Hrun & Hw & _).
  eexists _, s'. split; [done|]. rewrite Hw. split_and!.
  - intros k d. unfold featuredW. destruct featuredFeed as [ws|] eqn:Hfeed; [|by left].
    intros [?|(w & old & Hin & ->)]%writeNew_provenance; [by left|right].
    eapply featuredFeed_marked; [done|]. by eapply newOnes_subseteq.
  - intros k d e. apply featuredW_frame.
  - intros k d Hk. unfold featuredW. destruct featuredFeed as [ws|]; [|eauto].
    by apply bulkWrite_downloads.
Qed.

(** X3. On a catalog whose provider records sit under their derived ids, a
    second run of [fetchFeaturedWallpapers] against the same feed returns 0
    and leaves the wallpapers and the categories as the first run left
    them. *)
Theorem featured_job_idempotent (s : State) :
  providerKeyed (wallpapers s) →
  let s1 := (fetchFeaturedWallpapers s).2 in
  let second := fetchFeaturedWallpapers s1 in
  second.1 = Ok 0 ∧
  wallpapers second.2 = wallpapers s1 ∧
  categories second.2 = categories s1.
Proof.
  intros Hkeyed s1 second. subst second s1.
  destruct (fetchFeaturedWallpapers_spec s) as (s1 & Hrun1 & Hw1 & _).
  rewrite Hrun1. cbn [snd].
  destruct (fetchFeaturedWallpapers_spec s1) as (s2 & Hrun2 & Hw2 & Hc2 & _).
  rewrite Hrun2. cbn [fst snd].
  destruct (featuredW_fixed (wallpapers s1)) as [HW Hn].
  { intros ws w Hfeed Hin. rewrite Hw1. unfold featuredW. rewrite Hfeed.
    eapply writeNew_all_exist; eauto using featuredFeed_normalized. }
  rewrite Hn, Hw2, HW. done.
Qed.

(** [seedDatabase] in terms of [seededW] and [recount]. *)
Lemma seedDatabase_spec s :
  ∃ s',
    seedDatabase s = (Ok tt, s') ∧
    wallpapers s' = seededW (categories s) (wallpapers s) ∧
    categories s' = recount (wallpapers s') (categories s).
Proof.
  unfold seedDatabase. rewrite M_bind_run, console_log_run, M_bind_run.
  set (s0 := add_console _ s).
  destruct (fetchFeaturedWallpapers_spec s0) as (s1 & Hrun1 & Hw1 & Hc1 & _).
  rewrite Hrun1, M_bind_run.
  destruct (fetchAllCategoryWallpapers_spec s1) as (s2 & Hrun2 & Hw2 & Hc2 & _).
  rewrite Hrun2, console_log_run.
  eexists. split; [done|]. cbn [wallpapers categories add_console].
  rewrite Hw2, Hc2, Hw2, Hc1, Hw1. done.
Qed.

(** X4. [seedDatabase] runs the featured job before the category job, and
    the category job skips what is stored: a photo of the popular feed whose
    pair was not in the catalog ends up stored under its id as a featured
    document of the category featured, whatever the category searches
    deliver afterwards. *)
Theorem seed_files_popular_as_featured (s : State) (ws : list WallpaperData)
    (w : WallpaperData) :
  featuredFeed = Some ws → w ∈ ws →
  ¬ existsIn (wallpapers s) (w_external_id w) (w_source w) →
  ∃ s' d,
    seedDatabase s = (Ok tt, s') ∧
    wallpapers s' !! w_id w = Some d ∧
    featuredDoc d ∧
    external_id d = Some (w_external_id w).
Proof.
  intros Hfeed Hin Hnew.
  destruct (seedDatabase_spec s) as (s' & Hrun & Hw & _).
  pose proof (featuredFeed_normalized ws Hfeed) as Hnorm.
  assert (w ∈ newOnes (wallpapers s) ws) as Hnew' by by apply list_elem_of_filter.
  destruct (writeNew_stores ws (wallpapers s) w Hnorm Hnew')
    as (w' & old & Hin' & Hid & Hstored).
  assert (w' ∈ ws) as Hw' by by eapply newOnes_subseteq.
  pose proof (featuredFeed_marked ws w' old Hfeed Hw') as Hmark.
  rewrite Forall_forall in Hnorm.
  destruct (Hnorm w Hin) as [_ Hwid]. destruct (Hnorm w' Hw') as [Hp' Hwid'].
  assert (w_source w' = "unsplash") as Hsrc' by apply Hmark.
  assert (w_source w = "unsplash") as Hsrc.
  { pose proof (featuredFeed_marked ws w None Hfeed Hin) as Hm. apply Hm. }
  assert (w_external_id w' = w_external_id w) as Hext.
  { rewrite Hwid, Hwid', Hsrc, Hsrc' in Hid.
    apply derivedId_inj in Hid as [_ ?]; [done|by left..]. }
  exists s', (applySet (toDoc w').2 old). split; [done|]. rewrite Hw.
  split; [|split; [done|by simpl; rewrite Hext]].
  unfold seededW. eapply cycleW_frame.
  - unfold featuredW. by rewrite Hfeed.
  - done.
  - done.
  - cbn [source applySet toDoc snd set_w_tags w_source]. rewrite Hwid, Hsrc, Hsrc'.
    by rewrite <- Hext.
Qed.

(** X5. On a catalog whose provider records sit under their derived ids,
    seeding twice against the same responses is seeding once: the second
    [seedDatabase] leaves the wallpapers and the categories with their
    counts as the first left them. *)
Theorem seedDatabase_idempotent (s : State) :
  providerKeyed (wallpapers s) →
  let s1 := (seedDatabase s).2 in
  let second := seedDatabase s1 in
  second.1 = Ok tt ∧
  wallpapers second.2 = wallpapers s1 ∧
  categories second.2 = categories s1.
Proof.
  intros Hkeyed s1 second. subst second s1.
  destruct (seedDatabase_spec s) as (s1 & Hrun1 & Hw1 & Hc1).
  rewrite Hrun1. cbn [snd].
  destruct (seedDatabase_spec s1) as (s2 & Hrun2 & Hw2 & Hc2).
  rewrite Hrun2. cbn [fst snd]. split; [done|].
  pose proof (featuredW_providerKeyed _ Hkeyed) as Hkeyed'.
  assert (providerKeyed (wallpapers s1)) as Hkeyed1.
  { rewrite Hw1. by apply cycleW_providerKeyed. }
  assert (featuredW (wallpapers s1) = wallpapers s1) as Hfix.
  { apply featuredW_fixed. intros ws w Hfeed Hin. rewrite Hw1.
    pose proof (featuredFeed_normalized ws Hfeed) as Hnorm.
    apply cycleW_exists_mono; [done| |].
    - rewrite Forall_forall in Hnorm. by apply Hnorm.
    - unfold featuredW. rewrite Hfeed. by eapply writeNew_all_exist. }
  assert (wallpapers s2 = wallpapers s1) as Hsame.
  { rewrite Hw2. unfold seededW. rewrite Hfix.
    apply cycle_fixed. intros c' ws w Hc' Hup Hw. rewrite Hc1 in Hc'.
    apply sortedCategories_recount in Hc' as (c & Hc & ->).
    rewrite upstream_recountOne in Hup. rewrite Hw1.
    by eapply cycleW_all_exist. }
  split; [done|]. rewrite Hc2, Hsame, Hc1. apply recount_idemp.
Qed.
End seed_facts.

Lemma catalogWithout42_providerKeyed :
  providerKeyed (wallpapers Reference.catalogWithout42).
Proof.
  intros k d e Hk. unfold Reference.catalogWithout42 in Hk. cbn [wallpapers] in Hk.
  apply lookup_singleton_Some in Hk as [<- <-]. simpl. by intros [= <-] _.
Defined.

Lemma featured_job_idempotent_witness :
  providerKeyed (wallpapers Reference.catalogWithout42) ∧
  let s1 := (FetchFeatured.fetchFeaturedWallpapers (rt:=Reference.unsplashHas42)
               (ep:=Sample.popular42) Reference.catalogWithout42).2 in
  let second := FetchFeatured.fetchFeaturedWallpapers (rt:=Reference.unsplashHas42)
                  (ep:=Sample.popular42) s1 in
  second.1 = Ok 0 ∧
  wallpapers second.2 = wallpapers s1 ∧
  categories second.2 = categories s1.
Proof.
  split; [exact catalogWithout42_providerKeyed|].
  exact (featured_job_idempotent (rt:=Reference.unsplashHas42) (ep:=Sample.popular42)
           Reference.catalogWithout42 catalogWithout42_providerKeyed).
Defined.

Lemma seed_files_popular_as_featured_witness :
  ∃ s' d,
    FetchFeatured.seedDatabase (rt:=Reference.unsplashHas42) (ep:=Sample.popular42)
      Reference.catalogWithout42 = (Ok tt, s') ∧
    wallpapers s' !! "unsplash_42" = Some d ∧
    featuredDoc d ∧
    external_id d = Some "42".
Proof.
  refine (seed_files_popular_as_featured (rt:=Reference.unsplashHas42)
            (ep:=Sample.popular42) Reference.catalogWithout42
            [Sample.featured42] Sample.featured42 eq_refl _ _).
  - by left.
  - intros (k & d & Hk & Hd)%map_Exists_lookup. revert Hk Hd.
    unfold Reference.catalogWithout42. cbn [wallpapers].
    intros [<- <-]%lookup_singleton_Some [Hext _]. discriminate Hext.
Defined.

Lemma seedDatabase_idempotent_witness :
  providerKeyed (wallpapers Reference.catalogWithout42) ∧
  let s1 := (FetchFeatured.seedDatabase (rt:=Reference.unsplashHas42)
               (ep:=Sample.popular42) Reference.catalogWithout42).2 in
  let second := FetchFeatured.seedDatabase (rt:=Reference.unsplashHas42)
                  (ep:=Sample.popular42) s1 in
  second.1 = Ok tt ∧
  wallpapers second.2 = wallpapers s1 ∧
  categories second.2 = categories s1.
Proof.
  split; [exact catalogWithout42_providerKeyed|].
  exact (seedDatabase_idempotent (rt:=Reference.unsplashHas42) (ep:=Sample.popular42)
           Reference.catalogWithout42 catalogWithout42_providerKeyed).
Defined.

(** *** The remaining adapter functions *)

Section adapter_facts.
Context {rt : Runtime} {ep : Endpoints}.

Lemma trackDownload_run photoId s :
  ∃ line, UnsplashPhotos.trackDownload photoId s = (Ok tt, add_console line s).
Proof.
  unfold UnsplashPhotos.trackDownload, try_catch.
  destruct (unsplash_download photoId); by eexists.
Qed.

(** X6. [trackDownload] is best effort: it always completes without
    throwing, whatever unsplash answers, and all it does to the state is
    one console line, which tells the outcome; the store is not touched. *)
Theorem trackDownload_never_throws (photoId : string) (s : State) :
  ∃ line,
    UnsplashPhotos.trackDownload photoId s = (Ok tt, add_console line s) ∧
    (∀ u, unsplash_download photoId = Replied u →
          line = "📥 Tracked download for " +:+ photoId) ∧
    (∀ msg, unsplash_download photoId = Refused msg →
            line = "⚠️ Failed to track download: " +:+ msg).
Proof.
  unfold UnsplashPhotos.trackDownload, try_catch.
  destruct (unsplash_download photoId) as [msg|u].
  - eexists. split; [done|]. split; [done|]. by intros ? [= <-].
  - eexists. split; [done|]. split; [done|]. done.
Qed.

Lemma js_or_lit_nonempty o lit : lit ≠ "" → js_or_lit o lit ≠ "".
Proof. intros Hlit. destruct o as [x|]; simpl; [|done]. by case_bool_decide. Qed.

Lemma js_or_lit_falsy o lit : truthy o = false → js_or_lit o lit = lit.
Proof.
  destruct o as [x|]; simpl; [|done]. case_bool_decide; [done|]. done.
Qed.

Lemma js_or_lit_truthy o lit : truthy o = true → Some (js_or_lit o lit) = o.
Proof.
  destruct o as [x|]; simpl; [|done]. by case_bool_decide.
Qed.

(** X7. The popular feed of unsplash and the curated feed of pexels never
    deliver a record without a category: a category that is [null],
    [undefined] or empty is replaced by featured, any other is kept.  The
    records are normalized and none is marked featured by the adapter; a
    successful call leaves the state alone, a failed one rethrows the
    provider's error after one console line, which shows the body of the
    provider's answer when there is one and it is not empty, and the
    message of the error otherwise. *)
Theorem feeds_default_to_featured (category : option string) (page perPage : Z) (s : State) :
  let labelled (ws : list WallpaperData) :=
    ∀ w, w ∈ ws →
      normalized w ∧ w_is_featured w = false ∧
      w_category w ≠ Undefined ∧ w_category w ≠ Null ∧ w_category w ≠ Def "" ∧
      (truthy category = true → w_category w = or_null category) ∧
      (truthy category = false → w_category w = Def "featured") in
  let shown (data : option string) (msg : string) :=
    match data with
    | Some body => if bool_decide (body = "") then msg else body
    | None => msg
    end in
  (match unsplash_photos page perPage with
   | Resolved data =>
       ∃ ws, UnsplashPhotos.getPopularPhotos category page perPage s = (Ok ws, s) ∧
             length ws = length (default [] data) ∧ labelled ws
   | Rejected msg =>
       UnsplashPhotos.getPopularPhotos category page perPage s =
         (Throw (RequestFailed FromUnsplash msg),
          add_console ("❌ Unsplash popular photos error: " +:+
                       shown (unsplash_photos_data page perPage) msg) s)
   end) ∧
  (match pexels_curated page perPage with
   | Resolved data =>
       ∃ ws, PexelsPhotos.getCuratedPhotos category page perPage s = (Ok ws, s) ∧
             length ws = length (default [] data) ∧ labelled ws
   | Rejected msg =>
       PexelsPhotos.getCuratedPhotos category page perPage s =
         (Throw (RequestFailed FromPexels msg),
          add_console ("❌ Pexels curated photos error: " +:+
                       shown (pexels_curated_data page perPage) msg) s)
   end).
Proof.
  intros labelled shown.
  assert (∀ w, w_category w = Def (js_or_lit category "featured") →
               w_category w ≠ Undefined ∧ w_category w ≠ Null ∧ w_category w ≠ Def "" ∧
               (truthy category = true → w_category w = or_null category) ∧
               (truthy category = false → w_category w = Def "featured")) as Hcat.
  { intros w ->. split; [done|]. split; [done|]. split.
    - intros [= Hempty]. by apply (js_or_lit_nonempty category "featured").
    - split; intros Ht.
      + by rewrite <- (js_or_lit_truthy category "featured") at 2.
      + by rewrite js_or_lit_falsy. }
  assert (∀ data msg, js_or_lit data msg = shown data msg) as Hshown.
  { intros [body|] msg; simpl; [|done]. by repeat case_bool_decide. }
  split.
  - unfold UnsplashPhotos.getPopularPhotos, try_catch.
    destruct (unsplash_photos page perPage) as [msg|data];
      [by unfold_M; simpl; rewrite Hshown|].
    eexists. split; [done|]. split; [by rewrite length_fmap|].
    intros w (photo & -> & _)%list_elem_of_fmap.
    split; [apply Unsplash_normalized|]. split; [done|]. by apply Hcat.
  - unfold PexelsPhotos.getCuratedPhotos, try_catch.
    destruct (pexels_curated page perPage) as [msg|data];
      [by unfold_M; simpl; rewrite Hshown|].
    eexists. split; [done|]. split; [by rewrite length_fmap|].
    intros w (photo & -> & _)%list_elem_of_fmap.
    split; [apply Pexels_normalized|]. split; [done|]. by apply Hcat.
Qed.

(** X8. The ids the two normalizers build identify the photo: two records
    of the same provider have the same id exactly when their photos have the
    same provider id, a record of unsplash and a record of pexels never share
    an id, and no id is empty, so every record is written under an [_id]. *)
Theorem normalizer_ids_identify (p1 p2 : UnsplashApi.Photo) (q1 q2 : PexelsApi.Photo)
    (c1 c2 : option string) :
  (w_id (Unsplash.normalizePhoto p1 c1) = w_id (Unsplash.normalizePhoto p2 c2)
     ↔ UnsplashApi.id p1 = UnsplashApi.id p2) ∧
  (w_id (Pexels.normalizePhoto q1 c1) = w_id (Pexels.normalizePhoto q2 c2)
     ↔ PexelsApi.id q1 = PexelsApi.id q2) ∧
  w_id (Unsplash.normalizePhoto p1 c1) ≠ w_id (Pexels.normalizePhoto q1 c2) ∧
  (Database.toDoc (Unsplash.normalizePhoto p1 c1)).1
     = Some (w_id (Unsplash.normalizePhoto p1 c1)) ∧
  (Database.toDoc (Pexels.normalizePhoto q1 c1)).1
     = Some (w_id (Pexels.normalizePhoto q1 c1)).
Proof.
  split_and!.
  - split; [|by intros Heq; simpl; rewrite Heq]. intros Hid.
    apply (derivedId_inj "unsplash" _ "unsplash") in Hid as [_ ?]; [done|by left..].
  - split; [|by intros Heq; simpl; rewrite Heq]. intros Hid.
    apply (derivedId_inj "pexels" _ "pexels") in Hid as [_ Hp]; [|by right..].
    simpl in Hp. by apply (inj pretty) in Hp.
  - intros Hid.
    by apply (derivedId_inj "unsplash" _ "pexels") in Hid as [? _]; [|by left|by right].
  - unfold Database.toDoc. cbn [fst]. rewrite bool_decide_true; [done|].
    apply (derivedId_nonempty "unsplash"). by left.
  - unfold Database.toDoc. cbn [fst]. rewrite bool_decide_true; [done|].
    apply (derivedId_nonempty "pexels"). by right.
Qed.
End adapter_facts.

(** *** services/cronJobs.js as it runs *)

Section cron_facts.
Context {rt : Runtime}.
Import Database CronJob.

(** The filter keeps nothing: the negation of a promise is [false]. *)
Lemma filterDuplicates_nil ws : filterDuplicates ws = [].
Proof. unfold filterDuplicates. by induction ws. Qed.

Lemma Pexels_searchPhotos_run q c page n s :
  ∃ r s',
    Pexels.searchPhotos q c page n s = (r, s') ∧
    wallpapers s' = wallpapers s ∧ categories s' = categories s ∧
    requests s' = requests s ++ [{| req_provider := FromPexels; req_query := q;
                                    req_page := page; req_per_page := n |}] ∧
    console s `prefix_of` console s' ∧
    (∀ msg, pexels_search q page n = Rejected msg →
            r = Throw (RequestFailed FromPexels msg)) ∧
    (∀ data, pexels_search q page n = Resolved data → ∃ ws, r = Ok ws).
Proof.
  unfold Pexels.searchPhotos, Pexels.get_search, try_catch. unfold_M.
  destruct (pexels_search q page n) as [msg|data]; simpl.
  - eexists _, _. split; [done|]. split_and!; try done.
    + by apply prefix_app_r.
    + by intros ? [= <-].
  - eexists _, _. split; [done|]. split_and!; try done. eauto.
Qed.

Lemma Unsplash_searchPhotos_run q c page n s :
  ∃ r s',
    Unsplash.searchPhotos q c page n s = (r, s') ∧
    wallpapers s' = wallpapers s ∧ categories s' = categories s ∧
    requests s' = requests s ++ [{| req_provider := FromUnsplash; req_query := q;
                                    req_page := page; req_per_page := n |}] ∧
    console s `prefix_of` console s' ∧
    (∀ msg, unsplash_search q page n = Rejected msg →
            r = Throw (RequestFailed FromUnsplash msg)) ∧
    (∀ data, unsplash_search q page n = Resolved data → ∃ ws, r = Ok ws).
Proof.
  unfold Unsplash.searchPhotos, Unsplash.get_search, try_catch. unfold_M.
  destruct (unsplash_search q page n) as [msg|data]; simpl.
  - eexists _, _. split; [done|]. split_and!; try done.
    + by apply prefix_app_r.
    + by intros ? [= <-].
  - eexists _, _. split; [done|]. split_and!; try done. eauto.
Qed.

(** X9. The two fetchers of the cron job store nothing.  The duplicate
    filter negates the promise [wallpaperExists] returns, not its result, so
    it keeps no record: whatever the provider delivers, each fetcher sends
    its one request (the given page, 80 records for pexels, 30 for
    unsplash), returns 0 and leaves the wallpapers and the categories as
    they were; a provider failure is logged and swallowed. *)
Theorem cron_fetchers_store_nothing (category : Category) (page : Z) (s : State) :
  (∃ s', fetchFromPexels category page s = (Ok 0, s') ∧
         wallpapers s' = wallpapers s ∧ categories s' = categories s ∧
         requests s' = requests s ++
           [{| req_provider := FromPexels; req_query := search_query category;
               req_page := page; req_per_page := 80 |}] ∧
         (∀ msg, pexels_search (search_query category) page 80 = Rejected msg →
                 ("Pexels error for " +:+ slug category +:+ ": " +:+ msg) ∈ console s')) ∧
  (∃ s', fetchFromUnsplash category page s = (Ok 0, s') ∧
         wallpapers s' = wallpapers s ∧ categories s' = categories s ∧
         requests s' = requests s ++
           [{| req_provider := FromUnsplash; req_query := search_query category;
               req_page := page; req_per_page := 30 |}] ∧
         (∀ msg, unsplash_search (search_query category) page 30 = Rejected msg →
                 ("Unsplash error for " +:+ slug category +:+ ": " +:+ msg) ∈ console s')).
Proof.
  split.
  - unfold fetchFromPexels, try_catch at 1. rewrite M_bind_run.
    destruct (Pexels_searchPhotos_run (search_query category) (Some (slug category))
                page 80 s) as (r & s1 & -> & Hw & Hc & Hq & _ & Hbad & Hgood).
    destruct (pexels_search (search_query category) page 80) as [msg|data].
    + rewrite (Hbad msg eq_refl). rewrite M_bind_run, console_log_run, M_ret_run.
      eexists. split; [done|]. simpl. split_and!; try done.
      intros ? [= <-]. set_solver.
    + destruct (Hgood data eq_refl) as [ws ->].
      rewrite filterDuplicates_nil. simpl.
      eexists. split; [done|]. by split_and!.
  - unfold fetchFromUnsplash, try_catch at 1. rewrite M_bind_run.
    destruct (Unsplash_searchPhotos_run (search_query category) (Some (slug category))
                page 30 s) as (r & s1 & -> & Hw & Hc & Hq & _ & Hbad & Hgood).
    destruct (unsplash_search (search_query category) page 30) as [msg|data].
    + rewrite (Hbad msg eq_refl). rewrite M_bind_run, console_log_run, M_ret_run.
      eexists. split; [done|]. simpl. split_and!; try done.
      intros ? [= <-]. set_solver.
    + destruct (Hgood data eq_refl) as [ws ->].
      rewrite filterDuplicates_nil. simpl.
      eexists. split; [done|]. by split_and!.
Qed.

Lemma runFetchJob_run cs :
  ∃ cs',
    runFetchJob cs = (inl (TypeError "categories is not iterable"), cs') ∧
    currentPage cs' = CronJobs.incrementPages (currentPage cs) ∧
    wallpapers (app cs') = wallpapers (app cs) ∧
    categories (app cs') = categories (app cs) ∧
    requests (app cs') = requests (app cs) ∧
    console (app cs) `prefix_of` console (app cs').
Proof.
  unfold runFetchJob, for_of_promise, cron_throw, cron_log, await, get_pages, put_pages,
    console_log, modify, mbind, CronM_bind, mret, CronM_ret.
  cbn. eexists. split; [done|]. cbn. split_and!; try done.
  rewrite <- !app_assoc. by apply prefix_app_r.
Qed.

(** X10. [runFetchJob] never gets to a category.  It calls [getCategories]
    without awaiting it and iterates over the promise, which is not
    iterable: every run rejects with that TypeError, after the cursors have
    been advanced and before any request is sent; the wallpapers and the
    categories are as they were, and the counts are not refreshed. *)
Theorem runFetchJob_always_rejects (cs : CronState) :
  ∃ cs',
    runFetchJob cs = (inl (TypeError "categories is not iterable"), cs') ∧
    currentPage cs' = CronJobs.incrementPages (currentPage cs) ∧
    wallpapers (app cs') = wallpapers (app cs) ∧
    categories (app cs') = categories (app cs) ∧
    requests (app cs') = requests (app cs).
Proof.
  destruct (runFetchJob_run cs) as (cs' & ? & ? & ? & ? & ? & _). by exists cs'.
Qed.

Lemma tick_run cs :
  ∃ cs',
    tick cs = (inr tt, cs') ∧
    currentPage cs' = CronJobs.incrementPages (currentPage cs) ∧
    wallpapers (app cs') = wallpapers (app cs) ∧
    categories (app cs') = categories (app cs) ∧
    requests (app cs') = requests (app cs) ∧
    console (app cs) `prefix_of` console (app cs') ∧
    "❌ Cron job failed: categories is not iterable" ∈ console (app cs').
Proof.
  destruct (runFetchJob_run cs) as (cs1 & Hrun & Hp & Hw & Hc & Hq & Hl).
  unfold tick, cron_try. unfold mbind at 1, CronM_bind at 1. rewrite Hrun.
  unfold cron_log, await, console_log, modify. cbn.
  eexists. split; [done|]. cbn. split_and!; try done.
  - by apply prefix_app_r.
  - set_solver.
Qed.

(** X11. The scheduled callback swallows the rejection, so the schedule
    goes on: [n] ticks in a row all complete, each logs the failure, and
    all they change is the cursor, which moves [n] steps (from the initial
    cursor, to [pagesAfter n]); no request is ever sent and the store stays
    as it was. *)
Theorem ticks_only_move_the_cursor (n : nat) (cs : CronState) :
  ∃ cs',
    ticks n cs = (inr tt, cs') ∧
    currentPage cs' = Nat.iter n CronJobs.incrementPages (currentPage cs) ∧
    (currentPage cs = CronJobs.currentPage0 → currentPage cs' = CronJobs.pagesAfter n) ∧
    wallpapers (app cs') = wallpapers (app cs) ∧
    categories (app cs') = categories (app cs) ∧
    requests (app cs') = requests (app cs) ∧
    ((0 < n)%nat →
     "❌ Cron job failed: categories is not iterable" ∈ console (app cs')).
Proof.
  assert (∀ n cs, ∃ cs',
    ticks n cs = (inr tt, cs') ∧
    currentPage cs' = Nat.iter n CronJobs.incrementPages (currentPage cs) ∧
    wallpapers (app cs') = wallpapers (app cs) ∧
    categories (app cs') = categories (app cs) ∧
    requests (app cs') = requests (app cs) ∧
    console (app cs) `prefix_of` console (app cs') ∧
    ((0 < n)%nat →
     "❌ Cron job failed: categories is not iterable" ∈ console (app cs'))) as Hticks.
  { clear n cs. induction n as [|n IH]; intros cs.
    - exists cs. split; [done|]. split_and!; try done. lia.
    - destruct (tick_run cs) as (cs1 & Hrun & Hp & Hw & Hc & Hq & Hl & Hline).
      destruct (IH cs1) as (cs2 & Hrun2 & Hp2 & Hw2 & Hc2 & Hq2 & Hl2 & _).
      exists cs2. split.
      { change (ticks (S n)) with (tick ≫= λ _, ticks n).
        unfold mbind, CronM_bind. by rewrite Hrun. }
      split_and!; try congruence.
      + rewrite Hp2, Hp. by rewrite Nat.iter_succ_r.
      + by etrans.
      + intros _. destruct Hl2 as [l ->]. set_solver. }
  destruct (Hticks n cs) as (cs' & Hrun & Hp & Hw & Hc & Hq & _ & Hline).
  exists cs'. split_and!; try done.
  intros Hcp. by rewrite Hp, Hcp.
Qed.
End cron_facts.

(** *** The store between the jobs and the routes *)

Section store_facts.
Context {rt : Runtime}.
Import Database FetchWallpapers DatabaseReads.

Lemma cycleW_size cs W :
  0 ≤ cycleTotal cs W ∧
  (size W ≤ size (cycleW cs W) ≤ size W + Z.to_nat (cycleTotal cs W))%nat.
Proof.
  revert W. induction cs as [|c cs IH]; intros W; [simpl; lia|].
  rewrite cycleW_cons. cbn [cycleTotal]. rewrite contribution_countNew.
  destruct (IH (ingest c 20 W).2) as [Hpos Hsize].
  assert (0 ≤ countNew c 20 W ∧
          (size W ≤ size (ingest c 20 W).2 ≤ size W + Z.to_nat (countNew c 20 W))%nat)
    as [Hc Hi].
  { unfold countNew, ingest. destruct (upstream c 20) as [ws|]; [|simpl; lia].
    pose proof (bulkWrite_size (toDoc <$> newOnes W ws) W) as Hb.
    rewrite length_fmap in Hb. lia. }
  lia.
Qed.

(** X12. The category job only adds.  Whenever it completes, the total it
    returns is not negative, every document that was in the catalog is still
    there under its [_id] with the download counter it had, and the number
    of wallpapers has grown by no more than that total. *)
Theorem ingestion_only_adds (s : State) (total : Z) (s' : State) :
  fetchAllCategoryWallpapers s = (Ok total, s') →
  0 ≤ total ∧
  (size (wallpapers s) ≤ size (wallpapers s')
     ≤ size (wallpapers s) + Z.to_nat total)%nat ∧
  (∀ k d, wallpapers s !! k = Some d →
          ∃ d', wallpapers s' !! k = Some d' ∧ downloads d' = downloads d).
Proof.
  destruct (fetchAllCategoryWallpapers_spec s) as (s1 & Hrun & Hw & _).
  rewrite Hrun. intros [= <- <-]. rewrite Hw.
  destruct (cycleW_size (sortedCategories (categories s)) (wallpapers s)) as [Hpos Hsize].
  split; [done|]. split; [done|]. intros k d. apply cycleW_downloads.
Qed.

#[local] Instance byName_trans : Transitive byName.
Proof. intros x y z. unfold byName. apply transitivity. Qed.

#[local] Instance byName_total : Total byName.
Proof. intros x y. unfold byName. apply total, _. Qed.

(** X13. [getCategories] reads and does not write: it returns every
    category of the collection exactly once, ordered by name, and the route
    that lists the categories answers 200 with that list. *)
Theorem getCategories_sorted_by_name (s : State) :
  ∃ l,
    getCategories s = (Ok l, s) ∧
    StronglySorted byName l ∧
    l ≡ₚ map_to_list (categories s) ∧
    (∀ k c, (k, c) ∈ l ↔ categories s !! k = Some c) ∧
    length l = size (categories s) ∧
    Routes.getCategoryList s = (Ok (Routes.json_ok l.*2), s).
Proof.
  eexists. split; [done|]. split_and!.
  - apply StronglySorted_merge_sort; apply _.
  - apply merge_sort_Permutation.
  - intros k c. rewrite merge_sort_Permutation. apply elem_of_map_to_list.
  - by rewrite merge_sort_Permutation, length_map_to_list.
  - done.
Qed.


Lemma countDocuments_alter (P : Wallpaper → Prop) `{!∀ d, Decision (P d)} f i W :
  (∀ d, P (f d) ↔ P d) → countDocuments P (alter f i W) = countDocuments P W.
Proof.
  intros HP. unfold countDocuments. f_equal.
  rewrite <- !size_dom. f_equal. apply set_eq. intros k.
  rewrite !elem_of_dom. unfold is_Some.
  setoid_rewrite map_lookup_filter_Some. cbn [snd].
  destruct (decide (k = i)) as [->|Hne].
  - rewrite lookup_alter_eq. destruct (W !! i) as [d|]; simpl.
    + split.
      * intros (x & [= <-] & Hx). exists d. split; [done|]. by apply HP.
      * intros (x & [= <-] & Hx). exists (f d). split; [done|]. by apply HP.
    + split; intros (x & ? & _); done.
  - by rewrite lookup_alter_ne.
Qed.

(** X15. [incrementDownloadCount] touches one counter.  For an id that is
    not stored it changes nothing; for a stored one the counter goes up by
    exactly one and the pair, the category and the image of the document
    stay.  No other document changes, so the unique index keeps holding,
    [wallpaperExists] answers as before, and every category count stays. *)
Theorem incrementDownloadCount_one_counter (id : string) (s : State) :
  ∃ s',
    incrementDownloadCount id s = (Ok tt, s') ∧
    categories s' = categories s ∧
    (wallpapers s !! id = None → wallpapers s' = wallpapers s) ∧
    (∀ d, wallpapers s !! id = Some d →
       ∃ d', wallpapers s' !! id = Some d' ∧
             downloads d' = downloads d + 1 ∧
             indexKey d' = indexKey d ∧ category d' = category d ∧
             url_full d' = url_full d ∧ is_featured d' = is_featured d) ∧
    (∀ k, k ≠ id → wallpapers s' !! k = wallpapers s !! k) ∧
    (uniqueIndex (wallpapers s) → uniqueIndex (wallpapers s')) ∧
    (∀ e src, existsIn (wallpapers s') e src ↔ existsIn (wallpapers s) e src) ∧
    (∀ c, countDocuments (inCategory c) (wallpapers s')
            = countDocuments (inCategory c) (wallpapers s)) ∧
    size (wallpapers s') = size (wallpapers s).
Proof.
  eexists. split; [done|]. cbn [wallpapers categories set_wallpapers].
  assert (∀ k d', alter incDownloads id (wallpapers s) !! k = Some d' →
                  ∃ d, wallpapers s !! k = Some d ∧ indexKey d' = indexKey d) as Hback.
  { intros k d'. destruct (decide (k = id)) as [->|Hne].
    - rewrite lookup_alter_eq. destruct (wallpapers s !! id) as [d|]; [|done].
      intros [= <-]. eauto.
    - rewrite lookup_alter_ne by done. eauto. }
  assert (∀ k d, wallpapers s !! k = Some d →
                 ∃ d', alter incDownloads id (wallpapers s) !! k = Some d' ∧
                       indexKey d' = indexKey d) as Hforth.
  { intros k d Hk. destruct (decide (k = id)) as [->|Hne].
    - rewrite lookup_alter_eq, Hk. eauto.
    - rewrite lookup_alter_ne by done. eauto. }
  split_and!.
  - done.
  - intros Hnone. apply map_eq. intros k. destruct (decide (k = id)) as [->|Hne].
    + by rewrite lookup_alter_eq, Hnone.
    + by rewrite lookup_alter_ne.
  - intros d Hd. rewrite lookup_alter_eq, Hd. eexists. split; [done|]. done.
  - intros k Hne. by rewrite lookup_alter_ne.
  - intros Huniq k1 k2 d1 d2 H1 H2 Hkey.
    destruct (Hback _ _ H1) as (d1' & H1' & Hk1).
    destruct (Hback _ _ H2) as (d2' & H2' & Hk2).
    eapply Huniq; [done..|congruence].
  - intros e src. rewrite !existsIn_alt. split.
    + intros (k & d' & Hk & Hkey). destruct (Hback _ _ Hk) as (d & Hd & Hkd).
      exists k, d. split; [done|congruence].
    + intros (k & d & Hk & Hkey). destruct (Hforth _ _ Hk) as (d' & Hd & Hkd).
      exists k, d'. split; [done|congruence].
  - intros c. by apply countDocuments_alter.
  - rewrite <- !size_dom. by rewrite dom_alter_L.
Qed.

Lemma countDocuments_all W : countDocuments (λ _, True) W = Z.of_nat (size W).
Proof.
  unfold countDocuments. f_equal. f_equal. apply map_filter_id. done.
Qed.

Lemma countDocuments_categoryQuery c W :
  countDocuments (categoryQuery c) W =
    if truthy c then countDocuments (inCategory (default "" c)) W
    else Z.of_nat (size W).
Proof.
  destruct (truthy c) eqn:Hc.
  - unfold countDocuments. f_equal. f_equal. apply map_filter_ext.
    intros k d _. cbn [snd]. unfold categoryQuery, inCategory. rewrite Hc.
    destruct c as [x|]; [|done]. simpl. naive_solver.
  - rewrite <- countDocuments_all. unfold countDocuments. f_equal. f_equal.
    apply map_filter_ext. intros k d _. cbn [snd]. unfold categoryQuery. rewrite Hc.
    naive_solver.
Qed.

(** X16. [getWallpaperCount] reads and does not write.  For a category that
    is [null], [undefined] or empty it counts every wallpaper; for any other
    it counts the wallpapers of that category, which is never more than all
    of them.  After [updateCategoryCounts], the [wallpaper_count] of every
    category whose slug is not empty is the number [getWallpaperCount]
    reports for its slug. *)
Theorem getWallpaperCount_agrees_with_counts (s : State) :
  (∀ c, truthy c = false →
        getWallpaperCount c s = (Ok (Z.of_nat (size (wallpapers s))), s)) ∧
  (∀ c, c ≠ "" →
        getWallpaperCount (Some c) s = (Ok (countDocuments (inCategory c) (wallpapers s)), s) ∧
        0 ≤ countDocuments (inCategory c) (wallpapers s) ≤ Z.of_nat (size (wallpapers s))) ∧
  ∃ s',
    updateCategoryCounts s = (Ok tt, s') ∧
    ∀ k c, categories s' !! k = Some c → slug c ≠ "" →
           getWallpaperCount (Some (slug c)) s' = (Ok (wallpaper_count c), s').
Proof.
  assert (∀ c s, c ≠ "" →
            getWallpaperCount (Some c) s
              = (Ok (countDocuments (inCategory c) (wallpapers s)), s)) as Hsome.
  { intros c s0 Hc. unfold getWallpaperCount, Wallpaper_countDocuments.
    rewrite countDocuments_categoryQuery. simpl. by rewrite bool_decide_true. }
  split_and!.
  - intros c Hc. unfold getWallpaperCount, Wallpaper_countDocuments.
    by rewrite countDocuments_categoryQuery, Hc.
  - intros c Hc. split; [by apply Hsome|]. unfold countDocuments.
    pose proof (map_size_filter (λ kd : string * Wallpaper, inCategory c kd.2)
                  (wallpapers s)). lia.
  - destruct (updateCategoryCounts_spec s) as (s' & Hrun & Hw & _ & Hc).
    exists s'. split; [done|]. intros k c Hk Hslug.
    rewrite Hsome by done. rewrite Hc in Hk. unfold recount in Hk.
    rewrite lookup_fmap in Hk. destruct (categories s !! k) as [c0|]; [|done].
    simplify_eq/=. by rewrite Hw.
Qed.
End store_facts.

(** *** Listings *)

Section listing_facts.
Context {rt : Runtime} {srv : Server}.
Import Database DatabaseReads.

Lemma find_spec (P : Wallpaper → Prop) `{!∀ d, Decision (P d)} W k d :
  (k, d) ∈ find P W ↔ W !! k = Some d ∧ P d.
Proof.
  unfold find. rewrite list_elem_of_filter, elem_of_map_to_list. cbn [snd]. tauto.
Qed.

Lemma find_NoDup (P : Wallpaper → Prop) `{!∀ d, Decision (P d)} W :
  NoDup (find P W).*1.
Proof.
  eapply sublist_NoDup; [apply (NoDup_fst_map_to_list W)|].
  apply fmap_sublist, sublist_filter.
Qed.

Lemma find_length (P : Wallpaper → Prop) `{!∀ d, Decision (P d)} W :
  Z.of_nat (length (find P W)) = countDocuments P W.
Proof.
  unfold countDocuments, find. f_equal. rewrite <- length_map_to_list.
  apply Permutation_length, NoDup_Permutation.
  - apply NoDup_filter, NoDup_map_to_list.
  - apply NoDup_map_to_list.
  - intros [k d]. rewrite list_elem_of_filter, !elem_of_map_to_list.
    rewrite map_lookup_filter_Some. tauto.
Qed.

#[local] Instance byDownloads_trans : Transitive byDownloads.
Proof. intros x y z. unfold byDownloads. lia. Qed.
#[local] Instance byDownloads_total : Total byDownloads.
Proof. intros x y. unfold byDownloads. lia. Qed.
#[local] Instance byNewest_trans : Transitive byNewest.
Proof. intros x y z. unfold byNewest. lia. Qed.
#[local] Instance byNewest_total : Total byNewest.
Proof. intros x y. unfold byNewest. lia. Qed.
#[local] Instance byPopular_trans : Transitive byPopular.
Proof. intros x y z. unfold byPopular. lia. Qed.
#[local] Instance byPopular_total : Total byPopular.
Proof. intros x y. unfold byPopular. lia. Qed.

Lemma sorted_Permutation sort l : sorted sort l ≡ₚ l.
Proof. unfold sorted. case_bool_decide; apply merge_sort_Permutation. Qed.

Lemma sorted_StronglySorted sort l : StronglySorted (orderOf sort) (sorted sort l).
Proof.
  unfold sorted, orderOf. case_bool_decide; apply StronglySorted_merge_sort; apply _.
Qed.

Lemma StronglySorted_take {A} (R : relation A) n l :
  StronglySorted R l → StronglySorted R (take n l).
Proof.
  intros Hl. rewrite <- (take_drop n l) in Hl. by apply StronglySorted_app_1_l in Hl.
Qed.

Lemma StronglySorted_drop {A} (R : relation A) n l :
  StronglySorted R l → StronglySorted R (drop n l).
Proof.
  intros Hl. rewrite <- (take_drop n l) in Hl. by apply StronglySorted_app_1_r in Hl.
Qed.

Lemma cursor_limit_sublist n l : cursor_limit n l `sublist_of` l.
Proof. unfold cursor_limit. case_bool_decide; [done|apply sublist_take]. Qed.

Lemma cursor_limit_sorted (R : relation Doc) n l :
  StronglySorted R l → StronglySorted R (cursor_limit n l).
Proof. unfold cursor_limit. case_bool_decide; [done|apply StronglySorted_take]. Qed.

(** X17. A page of the sorted listing.  For a sort other than random and a
    limit of at least 1: a page below 1 is rejected by the store; page
    [page >= 1] holds the documents of the catalog that match the category
    filter from position [(page - 1) * limit] on, at most [limit] of them
    and exactly as many as the count of [getWallpaperCount] leaves for that
    page, each once, in the order of the sort.  A sort that is neither
    newest nor random is the popular one. *)
Theorem getWallpapers_page (page limit : Z) (category : option string)
    (sort : string) (s : State) :
  sort ≠ "random" → 1 ≤ limit →
  (page < 1 →
     getWallpapers page limit category sort s
       = inl (BadValue "Skip value must be non-negative")) ∧
  (1 ≤ page →
     ∃ l total,
       getWallpapers page limit category sort s = inr l ∧
       getWallpaperCount category s = (Ok total, s) ∧
       Z.of_nat (length l) = Z.min limit (Z.max 0 (total - (page - 1) * limit)) ∧
       (∀ k d, (k, d) ∈ l → wallpapers s !! k = Some d ∧ categoryQuery category d) ∧
       NoDup l.*1 ∧
       StronglySorted (orderOf sort) l) ∧
  (sort ≠ "newest" →
     getWallpapers page limit category sort s
       = getWallpapers page limit category "popular" s).
Proof.
  intros Hsort Hlimit. unfold getWallpapers.
  rewrite (bool_decide_false (sort = "random")) by done.
  split_and!.
  - intros Hpage. unfold cursor_skip. rewrite bool_decide_true by nia. done.
  - intros Hpage. unfold cursor_skip. rewrite bool_decide_false by nia.
    set (all := find (categoryQuery category) (wallpapers s)).
    eexists _, _. split; [done|]. split; [done|].
    assert (cursor_limit limit (drop (Z.to_nat ((page - 1) * limit)) (sorted sort all))
              `sublist_of` sorted sort all) as Hsub.
    { etrans; [apply cursor_limit_sublist|apply sublist_drop]. }
    split_and!.
    + unfold cursor_limit. rewrite bool_decide_false by lia.
      rewrite length_take, length_drop, sorted_Permutation.
      pose proof (find_length (categoryQuery category) (wallpapers s)) as Hlen.
      fold all in Hlen. rewrite <- Hlen.
      assert (0 ≤ (page - 1) * limit) as Hskip by nia.
      revert Hskip. generalize ((page - 1) * limit). intros skip Hskip. lia.
    + intros k d Hin. apply (find_spec (categoryQuery category)).
      fold all. rewrite <- (sorted_Permutation sort all).
      by eapply elem_of_sublist.
    + eapply sublist_NoDup; [|by apply fmap_sublist].
      rewrite sorted_Permutation. apply find_NoDup.
    + apply cursor_limit_sorted, StronglySorted_drop, sorted_StronglySorted.
  - intros Hnew. unfold sorted. rewrite (bool_decide_false (sort = "newest")) by done.
    done.
Qed.

(** X18. [getFeaturedWallpapers] lists featured documents of the catalog
    only, each once, most downloaded first; with a limit other than 0 it
    lists no more than the size of the limit, and they are the most
    downloaded: no featured document left out has more downloads than a
    listed one.  With the limit 0 every featured document is listed. *)
Theorem getFeaturedWallpapers_top (limit : Z) (s : State) :
  let l := getFeaturedWallpapers limit s in
  (∀ k d, (k, d) ∈ l → wallpapers s !! k = Some d ∧ is_featured d = true) ∧
  NoDup l.*1 ∧
  StronglySorted byDownloads l ∧
  (limit ≠ 0 → (length l ≤ Z.abs_nat limit)%nat) ∧
  (limit = 0 → ∀ k d, wallpapers s !! k = Some d → is_featured d = true → (k, d) ∈ l) ∧
  (∀ k d k' d', (k, d) ∈ l → wallpapers s !! k' = Some d' → is_featured d' = true →
                (k', d') ∉ l → downloads d' ≤ downloads d).
Proof.
  intros l. subst l. unfold getFeaturedWallpapers.
  set (all := merge_sort byDownloads (find featured (wallpapers s))).
  assert (all ≡ₚ find featured (wallpapers s)) as Hperm by apply merge_sort_Permutation.
  assert (StronglySorted byDownloads all) as Hsorted
    by (apply StronglySorted_merge_sort; apply _).
  split_and!.
  - intros k d Hin. apply (find_spec featured). rewrite <- Hperm.
    eapply elem_of_sublist; [done|apply cursor_limit_sublist].
  - eapply sublist_NoDup; [|apply fmap_sublist, cursor_limit_sublist].
    rewrite Hperm. apply find_NoDup.
  - by apply cursor_limit_sorted.
  - intros Hne. unfold cursor_limit. rewrite bool_decide_false by done.
    rewrite length_take. lia.
  - intros -> k d Hk Hf. unfold cursor_limit. rewrite bool_decide_true by done.
    rewrite Hperm. by apply (find_spec featured).
  - intros k d k' d' Hin Hk' Hf' Hout. unfold cursor_limit in *.
    case_bool_decide.
    + exfalso. apply Hout. rewrite Hperm. by apply (find_spec featured).
    + assert ((k', d') ∈ all) as Hall.
      { rewrite Hperm. by apply (find_spec featured). }
      rewrite <- (take_drop (Z.abs_nat limit) all) in Hall, Hsorted.
      apply elem_of_app in Hall as [?|Hdrop]; [done|].
      exact (StronglySorted_app_1_elem_of _ _ _ _ _ Hsorted Hin Hdrop).
Qed.

(** X19. Sampled listings stay inside their match.  When the sample stage
    draws from its input only, [getSimilarWallpapers] never lists the
    wallpaper itself and lists documents of the catalog with exactly the
    given category; the random listing lists documents that pass the
    category filter, and does not depend on the page. *)
Theorem sampled_listings_stay_inside (wallpaperId : string) (wanted : option string)
    (page limit : Z) (s : State) :
  (∀ n input drawn, sample n input = Some drawn → drawn ⊆ input) →
  (∀ similar, getSimilarWallpapers wallpaperId wanted limit s = inr similar →
     ∀ k d, (k, d) ∈ similar →
       k ≠ wallpaperId ∧ category d = wanted ∧ wallpapers s !! k = Some d) ∧
  (∀ random, getWallpapers page limit wanted "random" s = inr random →
     ∀ k d, (k, d) ∈ random → wallpapers s !! k = Some d ∧ categoryQuery wanted d) ∧
  (∀ page', getWallpapers page' limit wanted "random" s
              = getWallpapers page limit wanted "random" s).
Proof.
  intros Hsound. split_and!.
  - intros similar. unfold getSimilarWallpapers.
    destruct (sample limit _) as [drawn|] eqn:Hdraw; [|done]. intros [= <-] k d Hin.
    apply Hsound in Hdraw. apply Hdraw in Hin.
    apply list_elem_of_filter in Hin as [[Hc Hne] Hk%elem_of_map_to_list]. done.
  - intros random. unfold getWallpapers. rewrite bool_decide_true by done.
    destruct (sample limit _) as [drawn|] eqn:Hdraw; [|done]. intros [= <-] k d Hin.
    apply Hsound in Hdraw. apply Hdraw in Hin. by apply (find_spec (categoryQuery wanted)).
  - intros page'. unfold getWallpapers. by rewrite bool_decide_true.
Qed.
End listing_facts.

Lemma getWallpapers_page_witness :
  "popular" ≠ "random" ∧ 1 ≤ 2 ∧
  (1 ≤ 1 →
   ∃ l total,
     DatabaseReads.getWallpapers (srv:=Sample.server) 1 2 None "popular" Sample.gallery = inr l ∧
     DatabaseReads.getWallpaperCount None Sample.gallery = (Ok total, Sample.gallery) ∧
     Z.of_nat (length l) = Z.min 2 (Z.max 0 (total - (1 - 1) * 2)) ∧
     (∀ k d, (k, d) ∈ l →
        wallpapers Sample.gallery !! k = Some d ∧ DatabaseReads.categoryQuery None d) ∧
     NoDup l.*1 ∧
     StronglySorted (DatabaseReads.orderOf (srv:=Sample.server) "popular") l).
Proof.
  split; [done|]. split; [lia|].
  exact (proj1 (proj2 (getWallpapers_page (srv:=Sample.server) 1 2 None "popular"
                         Sample.gallery ltac:(done) ltac:(lia)))).
Defined.

Lemma sampled_listings_stay_inside_witness :
  (∀ n input drawn, sample (Server:=Sample.server) n input = Some drawn → drawn ⊆ input) ∧
  (∀ similar,
     DatabaseReads.getSimilarWallpapers (srv:=Sample.server) "pexels_7" (Some "nature") 5
       Sample.gallery = inr similar →
     ∀ k d, (k, d) ∈ similar →
       k ≠ "pexels_7" ∧ category d = Some "nature" ∧
       wallpapers Sample.gallery !! k = Some d).
Proof.
  assert (∀ n input drawn, sample (Server:=Sample.server) n input = Some drawn →
                           drawn ⊆ input) as Hsound.
  { intros n input drawn. simpl. case_bool_decide; [|done].
    intros [= <-]. apply subseteq_take. }
  split; [exact Hsound|].
  exact (proj1 (sampled_listings_stay_inside (srv:=Sample.server) "pexels_7"
                  (Some "nature") 1 5 Sample.gallery Hsound)).
Defined.

(** *** The routes *)

Section route_facts.
Context {rt : Runtime} {ep : Endpoints}.
Import Database DatabaseReads.

(** X20. The route for one category answers 404 exactly when no category
    of the collection has the slug, and otherwise 200 with a category of the
    collection that has it; it changes nothing. *)
Theorem category_route_finds_by_slug (slug' : string) (s : State) :
  ∃ r,
    Routes.getCategory slug' s = (Ok r, s) ∧
    ((r = Routes.notFound ∧ ∀ k c, categories s !! k = Some c → slug c ≠ slug') ∨
     (∃ k c, r = Routes.json_ok c ∧ categories s !! k = Some c ∧ slug c = slug')).
Proof.
  unfold Routes.getCategory, try_catch. rewrite M_bind_run. unfold getCategoryBySlug.
  destruct (list_find _ _) as [[i [k c]]|] eqn:Hfind.
  - apply list_find_Some in Hfind as (Hi & Hslug & _).
    eexists. split; [done|]. right. exists k, c. split; [done|]. split; [|done].
    apply elem_of_map_to_list. by eapply list_elem_of_lookup_2.
  - apply list_find_None in Hfind. rewrite Forall_forall in Hfind.
    eexists. split; [done|]. left. split; [done|].
    intros k c Hk. apply (Hfind (k, c)). by apply elem_of_map_to_list.
Qed.

(** X21. The download route counts once.  It never throws.  For an id that
    is not stored it answers 404 and leaves the state as it was.  For a
    stored one it answers 200 with the stored [url_full], whether or not
    the ping to unsplash goes through; the counter of that document has gone
    up by exactly one, its pair has not changed, and no other document and
    no category has changed.  Only a document of unsplash with an
    [external_id] is pinged: for any other the console is as it was. *)
Theorem download_route_counts_once (id : string) (s : State) :
  ∃ r s',
    Routes.postDownload id s = (Ok r, s') ∧
    categories s' = categories s ∧
    (∀ k, k ≠ id → wallpapers s' !! k = wallpapers s !! k) ∧
    match wallpapers s !! id with
    | None => r = Routes.notFound ∧ s' = s
    | Some d =>
        r = Routes.json_ok (url_full d) ∧
        (∃ d', wallpapers s' !! id = Some d' ∧
               downloads d' = downloads d + 1 ∧ indexKey d' = indexKey d) ∧
        (source d ≠ "unsplash" ∨ truthy (external_id d) = false →
           console s' = console s) ∧
        (source d = "unsplash" → truthy (external_id d) = true →
           ∃ line, console s' = console s ++ [line])
    end.
Proof.
  unfold Routes.postDownload, try_catch at 1. rewrite M_bind_run.
  unfold getWallpaperById at 1. cbn beta iota.
  destruct (wallpapers s !! id) as [d|] eqn:Hd.
  - rewrite M_bind_run.
    set (s1 := set_wallpapers (alter incDownloads id (wallpapers s)) s).
    change (incrementDownloadCount id s) with (Ok tt, s1).
    assert (categories s1 = categories s) as Hc by done.
    assert (console s1 = console s) as Hcon by done.
    assert (∀ k, k ≠ id → wallpapers s1 !! k = wallpapers s !! k) as Hother.
    { intros k Hne. subst s1. cbn [wallpapers set_wallpapers]. by rewrite lookup_alter_ne. }
    assert (wallpapers s1 !! id = Some (incDownloads d)) as Hd'.
    { subst s1. cbn [wallpapers set_wallpapers]. by rewrite lookup_alter_eq, Hd. }
    assert (downloads (incDownloads d) = downloads d + 1) as Hdl by done.
    assert (indexKey (incDownloads d) = indexKey d) as Hkey by done.
    clearbody s1. cbn beta iota. rewrite M_bind_run.
    destruct (bool_decide (source d = "unsplash") && truthy (external_id d)) eqn:Hping.
    + apply andb_true_iff in Hping as [Hsrc%bool_decide_eq_true Ht].
      destruct (trackDownload_run (default "" (external_id d)) s1) as (line & ->).
      rewrite M_ret_run. eexists _, _. split; [done|].
      cbn [categories wallpapers add_console console]. split; [done|]. split; [done|].
      split; [done|]. split; [eauto|]. split.
      * intros [?|Hf]; [done|]. by rewrite Hf in Ht.
      * intros _ _. exists line. by rewrite Hcon.
    + apply andb_false_iff in Hping as Hwhy. rewrite !M_ret_run.
      eexists _, _. split; [done|]. split; [done|]. split; [done|].
      split; [done|]. split; [eauto|]. split; [done|].
      intros Hsrc Ht. destruct Hwhy as [Hno%bool_decide_eq_false|Hno]; [done|].
      by rewrite Hno in Ht.
  - rewrite M_ret_run. eexists _, _. split; [done|]. done.
Qed.
End route_facts.

(** *** The category seed *)

Section seed_categories_facts.
Context {rt : Runtime}.
Import Database DatabaseReads.

Lemma insertMany_fresh docs C :
  NoDup (slug <$> docs) →
  (∀ c k c', c ∈ docs → C !! k = Some c' → slug c' ≠ slug c) →
  ∃ C',
    insertMany docs C = (None, C') ∧
    C ⊆ C' ∧
    size C' = (size C + length docs)%nat ∧
    (∀ c, (∃ k, C' !! k = Some c) ↔ (∃ k, C !! k = Some c) ∨ c ∈ docs).
Proof.
  revert C. induction docs as [|c docs IH]; intros C Hnd Hnew.
  - exists C. split; [done|]. split; [done|]. split; [simpl; lia|].
    intros c. split; [by left|]. intros [?|Hin]; [done|]. by apply elem_of_nil in Hin.
  - cbn [insertMany]. rewrite fmap_cons in Hnd. apply NoDup_cons in Hnd as [Hc Hnd].
    destruct (decide (map_Exists _ C)) as [Hex|_].
    { exfalso. apply map_Exists_lookup in Hex as (k & c' & Hk & Hslug).
      eapply Hnew; [by left|done..]. }
    assert (C !! fresh (dom C) = None) as Hfresh.
    { apply not_elem_of_dom, is_fresh. }
    destruct (IH (<[fresh (dom C) := c]> C) Hnd) as (C' & Hrun & Hsub & Hsize & Hall).
    { intros c1 k c' Hin Hk. apply lookup_insert_Some in Hk as [[_ <-]|[_ Hk]].
      - intros Heq. apply Hc. rewrite Heq. apply list_elem_of_fmap. eauto.
      - eapply Hnew; [by right|done]. }
    exists C'. split; [done|]. split_and!.
    + etrans; [|done]. by apply insert_subseteq.
    + rewrite Hsize, map_size_insert_None by done. simpl. lia.
    + intros c1. rewrite Hall. split.
      * intros [[k Hk]|Hin]; [|right; by right].
        apply lookup_insert_Some in Hk as [[_ <-]|[_ Hk]]; [right; by left|left; eauto].
      * intros [[k Hk]|[->|Hin]%elem_of_cons]; [| |by right].
        -- left. exists k. rewrite lookup_insert_ne; [done|]. intros <-. congruence.
        -- left. exists (fresh (dom C)). by rewrite lookup_insert_eq.
Qed.

Lemma defaultCategories_slugs : NoDup (slug <$> defaultCategories).
Proof. by apply (bool_decide_unpack _). Qed.

Lemma initializeDatabase_spec s :
  ∃ s',
    initializeDatabase s = (Ok tt, s') ∧
    wallpapers s' = wallpapers s ∧
    (categories s ≠ ∅ → categories s' = categories s) ∧
    (categories s = ∅ →
       size (categories s') = length defaultCategories ∧
       (∀ c, (∃ k, categories s' !! k = Some c) ↔ c ∈ defaultCategories)) ∧
    categories s' ≠ ∅.
Proof.
  destruct (decide (categories s = ∅)) as [Hempty|Hne].
  - destruct (insertMany_fresh defaultCategories ∅ defaultCategories_slugs)
      as (C' & Hrun & _ & Hsize & Hall).
    { intros c k c' _ Hk. by rewrite lookup_empty in Hk. }
    assert (C' ≠ ∅) as HC'.
    { apply map_size_non_empty_iff. rewrite Hsize. simpl. lia. }
    assert (initializeDatabase s =
              (Ok tt, add_console "✅ Default categories seeded"
                        (set_categories C'
                           (add_console "⚠️ No categories found, seeding defaults..."
                              (add_console "✅ Database service initialized" s))))) as Hinit.
    { unfold initializeDatabase.
      rewrite M_bind_run, console_log_run, M_bind_run.
      unfold Category_countDocuments. cbn [categories add_console].
      rewrite Hempty, map_size_empty. rewrite bool_decide_true by done.
      rewrite M_bind_run, console_log_run, M_bind_run.
      unfold Category_insertMany. cbn [categories add_console].
      rewrite Hempty, Hrun. by rewrite console_log_run. }
    eexists. split; [exact Hinit|]. cbn [categories wallpapers add_console set_categories].
    split; [done|]. split; [done|]. split; [|done].
    intros _. split; [by rewrite Hsize, map_size_empty|].
    intros c. rewrite Hall. split; [|by right].
    intros [[k Hk]|?]; [by rewrite lookup_empty in Hk|done].
  - unfold initializeDatabase.
    rewrite M_bind_run, console_log_run, M_bind_run.
    unfold Category_countDocuments. cbn [categories add_console].
    rewrite bool_decide_false.
    + eexists. split; [done|]. by split_and!.
    + apply map_size_non_empty_iff in Hne. lia.
Qed.

(** X22. [initializeDatabase] seeds an empty collection only.  It always
    completes and leaves the wallpapers alone.  A collection with a category
    in it is left exactly as it was.  On an empty one the eight defaults are
    inserted, each once, with a count of 0, and nothing else.  Either way
    the collection is not empty afterwards, and a second call changes
    nothing. *)
Theorem initializeDatabase_seeds_once (s : State) :
  ∃ s',
    initializeDatabase s = (Ok tt, s') ∧
    wallpapers s' = wallpapers s ∧
    (categories s ≠ ∅ → categories s' = categories s) ∧
    (categories s = ∅ →
       size (categories s') = length defaultCategories ∧
       (∀ c, (∃ k, categories s' !! k = Some c) ↔ c ∈ defaultCategories) ∧
       (∀ k c, categories s' !! k = Some c → wallpaper_count c = 0)) ∧
    categories s' ≠ ∅ ∧
    ∃ s'',
      initializeDatabase s' = (Ok tt, s'') ∧
      categories s'' = categories s' ∧ wallpapers s'' = wallpapers s'.
Proof.
  destruct (initializeDatabase_spec s) as (s' & Hrun & Hw & Hkeep & Hseed & Hne).
  exists s'. split; [done|]. split; [done|]. split; [done|]. split.
  { intros Hempty. destruct (Hseed Hempty) as [Hsize Hall].
    split; [done|]. split; [done|]. intros k c Hk.
    assert (c ∈ defaultCategories) as Hin by (apply Hall; eauto).
    revert Hin. unfold defaultCategories. rewrite !elem_of_cons, elem_of_nil.
    intros [->|[->|[->|[->|[->|[->|[->|[->|[]]]]]]]]]; done. }
  split; [done|].
  destruct (initializeDatabase_spec s') as (s'' & Hrun2 & Hw2 & Hkeep2 & _).
  exists s''. split; [done|]. split; [by apply Hkeep2|done].
Qed.
End seed_categories_facts.

(** *** Every entry point, in any order *)

Section service_facts.
Context {rt : Runtime} {ep : Endpoints}.
Import Database FetchWallpapers FetchFeatured DatabaseReads Service.

Lemma incDownloads_back (W : gmap string Wallpaper) id k d' :
  alter incDownloads id W !! k = Some d' →
  ∃ d, W !! k = Some d ∧ indexKey d' = indexKey d.
Proof.
  destruct (decide (k = id)) as [->|Hne].
  - rewrite lookup_alter_eq. destruct (W !! id) as [d|]; [|done]. intros [= <-]. eauto.
  - rewrite lookup_alter_ne by done. eauto.
Qed.

Lemma incDownloads_forth (W : gmap string Wallpaper) id k d :
  W !! k = Some d →
  ∃ d', alter incDownloads id W !! k = Some d' ∧ downloads d ≤ downloads d'.
Proof.
  intros Hk. destruct (decide (k = id)) as [->|Hne].
  - rewrite lookup_alter_eq, Hk. eexists. split; [done|]. simpl. lia.
  - rewrite lookup_alter_ne by done. eexists. split; [done|]. lia.
Qed.

Lemma incDownloads_unique W id : uniqueIndex W → uniqueIndex (alter incDownloads id W).
Proof.
  intros Huniq k1 k2 d1 d2 H1 H2 Hkey.
  apply incDownloads_back in H1 as (d1' & H1' & Hk1).
  apply incDownloads_back in H2 as (d2' & H2' & Hk2).
  eapply Huniq; [done..|congruence].
Qed.

Lemma incDownloads_providerKeyed W id :
  providerKeyed W → providerKeyed (alter incDownloads id W).
Proof.
  intros Hkeyed k d' e Hk He Hp.
  apply incDownloads_back in Hk as (d & Hd & Hkey).
  injection Hkey as Hext Hsrc. rewrite Hsrc in *. rewrite Hext in He.
  by eapply Hkeyed.
Qed.

Lemma cycleW_unique cs W : uniqueIndex W → uniqueIndex (cycleW cs W).
Proof.
  revert W. induction cs as [|c cs IH]; intros W HW; [done|].
  rewrite cycleW_cons. apply IH. unfold ingest.
  destruct (upstream c 20); [|done]. by apply bulkWrite_unique.
Qed.

Lemma featuredW_unique W : uniqueIndex W → uniqueIndex (featuredW W).
Proof.
  intros HW. unfold featuredW. destruct featuredFeed; [|done].
  by apply bulkWrite_unique.
Qed.

Lemma featuredW_downloads W k d :
  W !! k = Some d → ∃ d', featuredW W !! k = Some d' ∧ downloads d' = downloads d.
Proof.
  intros Hk. unfold featuredW. destruct featuredFeed; [|eauto].
  by apply bulkWrite_downloads.
Qed.

Lemma postDownload_run id s :
  ∃ r s',
    Routes.postDownload id s = (Ok r, s') ∧
    (wallpapers s' = wallpapers s ∨
     wallpapers s' = alter incDownloads id (wallpapers s)).
Proof.
  unfold Routes.postDownload, try_catch at 1. rewrite M_bind_run.
  unfold getWallpaperById at 1. cbn beta iota.
  destruct (wallpapers s !! id) as [d|].
  - rewrite M_bind_run.
    change (incrementDownloadCount id s)
      with (Ok tt, set_wallpapers (alter incDownloads id (wallpapers s)) s).
    cbn beta iota. rewrite M_bind_run.
    destruct (bool_decide (source d = "unsplash") && truthy (external_id d)).
    + destruct (trackDownload_run (default "" (external_id d))
                  (set_wallpapers (alter incDownloads id (wallpapers s)) s))
        as (line & ->).
      rewrite M_ret_run. eexists _, _. split; [done|]. by right.
    + rewrite !M_ret_run. eexists _, _. split; [done|]. by right.
  - rewrite M_ret_run. eexists _, _. split; [done|]. by left.
Qed.

(** The catalog of [s'] is sound and has lost nothing of that of [s]. *)
Lemma run_sound a s :
  uniqueIndex (wallpapers s) → providerKeyed (wallpapers s) →
  ∃ s',
    run a s = (Ok tt, s') ∧
    uniqueIndex (wallpapers s') ∧ providerKeyed (wallpapers s') ∧
    (∀ k d, wallpapers s !! k = Some d →
            ∃ d', wallpapers s' !! k = Some d' ∧ downloads d ≤ downloads d').
Proof.
  intros Huniq Hkeyed. destruct a as [| | | |id]; cbn [run].
  - destruct (initializeDatabase_spec s) as (s' & Hrun & Hw & _).
    exists s'. split; [done|]. rewrite Hw. split_and!; [done..|].
    intros k d Hk. exists d. split; [done|lia].
  - destruct (seedDatabase_spec s) as (s' & Hrun & Hw & _).
    exists s'. split; [done|]. rewrite Hw. unfold seededW. split_and!.
    + by apply cycleW_unique, featuredW_unique.
    + by apply cycleW_providerKeyed, featuredW_providerKeyed.
    + intros k d Hk.
      destruct (featuredW_downloads _ _ _ Hk) as (d1 & Hk1 & Hd1).
      destruct (cycleW_downloads (sortedCategories (categories s)) _ _ _ Hk1)
        as (d2 & Hk2 & Hd2).
      exists d2. split; [done|lia].
  - rewrite M_bind_run.
    destruct (fetchFeaturedWallpapers_spec s) as (s' & Hrun & Hw & _).
    rewrite Hrun, M_ret_run. exists s'. split; [done|]. rewrite Hw. split_and!.
    + by apply featuredW_unique.
    + by apply featuredW_providerKeyed.
    + intros k d Hk. destruct (featuredW_downloads _ _ _ Hk) as (d1 & Hk1 & Hd1).
      exists d1. split; [done|lia].
  - rewrite M_bind_run.
    destruct (fetchAllCategoryWallpapers_spec s) as (s' & Hrun & Hw & _).
    rewrite Hrun, M_ret_run. exists s'. split; [done|]. rewrite Hw. split_and!.
    + by apply cycleW_unique.
    + by apply cycleW_providerKeyed.
    + intros k d Hk.
      destruct (cycleW_downloads (sortedCategories (categories s)) _ _ _ Hk)
        as (d1 & Hk1 & Hd1).
      exists d1. split; [done|lia].
  - rewrite M_bind_run.
    destruct (postDownload_run id s) as (r & s' & Hrun & [Hw|Hw]).
    + rewrite Hrun, M_ret_run. exists s'. split; [done|]. rewrite Hw. split_and!; [done..|].
      intros k d Hk. exists d. split; [done|lia].
    + rewrite Hrun, M_ret_run. exists s'. split; [done|]. rewrite Hw. split_and!.
      * by apply incDownloads_unique.
      * by apply incDownloads_providerKeyed.
      * intros k d. apply incDownloads_forth.
Qed.

(** With a store that answers, a sequence of actions runs to its end. *)
Lemma runAll_completes actions s :
  uniqueIndex (wallpapers s) → providerKeyed (wallpapers s) →
  ∃ s', runAll actions s = (Ok tt, s').
Proof.
  revert s. induction actions as [|a actions IH]; intros s Huniq Hkeyed.
  - by exists s.
  - destruct (run_sound a s Huniq Hkeyed) as (s1 & Hrun1 & Hu1 & Hk1 & _).
    destruct (IH s1 Hu1 Hk1) as (s2 & Hrun2). exists s2.
    unfold runAll. cbn [for_of]. by rewrite M_bind_run, Hrun1.
Qed.

(** X23. The entry points keep the catalog sound, in any order and number.
    Starting from a catalog in which no two documents share a pair and every
    provider record sits under its derived id, whenever a sequence of the
    category seed, the seeding, the featured job, the category job and
    download requests has run to its end, both properties still hold, every
    document that was stored is still stored under its [_id], and no
    download counter is lower than it was. *)
Theorem service_keeps_catalog_sound (actions : list Action) (s s' : State) :
  uniqueIndex (wallpapers s) → providerKeyed (wallpapers s) →
  runAll actions s = (Ok tt, s') →
  uniqueIndex (wallpapers s') ∧ providerKeyed (wallpapers s') ∧
  (∀ k d, wallpapers s !! k = Some d →
          ∃ d', wallpapers s' !! k = Some d' ∧ downloads d ≤ downloads d').
Proof.
  revert s. induction actions as [|a actions IH]; intros s Huniq Hkeyed.
  - intros [= <-]. split_and!; [done..|].
    intros k d Hk. exists d. split; [done|lia].
  - destruct (run_sound a s Huniq Hkeyed) as (s1 & Hrun1 & Hu1 & Hk1 & Hm1).
    unfold runAll. cbn [for_of]. rewrite M_bind_run, Hrun1. intros Hrest.
    destruct (IH s1 Hu1 Hk1 Hrest) as (Hu2 & Hk2 & Hm2).
    split_and!; [done..|].
    intros k d Hk. destruct (Hm1 k d Hk) as (d1 & Hd1 & Hle1).
    destruct (Hm2 k d1 Hd1) as (d2 & Hd2 & Hle2). exists d2. split; [done|lia].
Qed.
End service_facts.

Lemma service_keeps_catalog_sound_witness :
  uniqueIndex (wallpapers Reference.catalogWithout42) ∧
  providerKeyed (wallpapers Reference.catalogWithout42) ∧
  ∃ s',
    Service.runAll (rt:=Reference.unsplashHas42) (ep:=Sample.popular42)
      [Service.Initialize; Service.Seed; Service.Download "pexels_7"; Service.Cycle]
      Reference.catalogWithout42 = (Ok tt, s') ∧
    uniqueIndex (wallpapers s') ∧ providerKeyed (wallpapers s') ∧
    (∀ k d, wallpapers Reference.catalogWithout42 !! k = Some d →
            ∃ d', wallpapers s' !! k = Some d' ∧ downloads d ≤ downloads d').
Proof.
  assert (uniqueIndex (wallpapers Reference.catalogWithout42)) as Huniq.
  { intros k1 k2 d1 d2. unfold Reference.catalogWithout42. cbn [wallpapers].
    intros [<- _]%lookup_singleton_Some [<- _]%lookup_singleton_Some _. done. }
  split; [exact Huniq|]. split; [exact catalogWithout42_providerKeyed|].
  destruct (runAll_completes (rt:=Reference.unsplashHas42) (ep:=Sample.popular42)
              [Service.Initialize; Service.Seed; Service.Download "pexels_7"; Service.Cycle]
              Reference.catalogWithout42 Huniq catalogWithout42_providerKeyed)
    as [s' Hrun].
  exists s'. split; [exact Hrun|].
  exact (service_keeps_catalog_sound (rt:=Reference.unsplashHas42) (ep:=Sample.popular42)
           [Service.Initialize; Service.Seed; Service.Download "pexels_7"; Service.Cycle]
           Reference.catalogWithout42 s' Huniq catalogWithout42_providerKeyed Hrun).
Defined.

Lemma ingestion_only_adds_witness :
  ∃ total s',
    FetchWallpapers.fetchAllCategoryWallpapers (H:=Reference.unsplashHas42)
      Reference.catalogWithout42 = (Ok total, s') ∧
    0 ≤ total ∧
    (size (wallpapers Reference.catalogWithout42) ≤ size (wallpapers s')
       ≤ size (wallpapers Reference.catalogWithout42) + Z.to_nat total)%nat ∧
    (∀ k d, wallpapers Reference.catalogWithout42 !! k = Some d →
            ∃ d', wallpapers s' !! k = Some d' ∧ downloads d' = downloads d).
Proof.
  destruct (fetchAllCategoryWallpapers_spec (H:=Reference.unsplashHas42)
              Reference.catalogWithout42) as (s' & Hrun & _).
  eexists _, s'. split; [exact Hrun|].
  exact (ingestion_only_adds (rt:=Reference.unsplashHas42)
           Reference.catalogWithout42 _ s' Hrun).
Defined.

